(** * Account ledger engine of the wallet (ironfish/src/wallet/account.ts)

    A shallow embedding of the [Account] class: its in-memory indices, the
    persisted store it mirrors them to, the synchronisation protocol
    ([syncTransaction]), note updates, deletion, the balance computation and
    the save / load pair, followed by the properties of the specification. *)

From Stdlib Require Import ZArith Strings.Byte.
From stdpp Require Import base option list gmap strings.

Local Open Scope Z_scope.

(** ** Buffers

    A Node [Buffer] is a byte array.  [BufferMap] and [BufferSet] (package
    buffer-map) compare keys by content, so buffers are used as map keys
    through their byte lists. *)

#[global] Instance byte_eq_dec : EqDecision byte := Byte.byte_eq_dec.

#[global] Instance byte_countable : Countable byte :=
  inj_countable Byte.to_N Byte.of_N Byte.of_to_N.

Abbreviation Buffer := (list byte).

(** [BufferSet] (package buffer-map): a set of buffers that iterates in
    insertion order.  It is kept as the list of its members in that order,
    without repetition: adding a member again changes nothing. *)
Module BufferSet.

Definition add (h : Buffer) (s : list Buffer) : list Buffer :=
  if decide (h ∈ s) then s else s ++ [h].

Definition delete (h : Buffer) (s : list Buffer) : list Buffer :=
  filter (λ x, x ≠ h) s.

End BufferSet.

(** ** Entities *)

(** [DecryptedNoteValue] (database/decryptedNoteValue). *)
Record DecryptedNoteValue := {
  accountId : string;
  nullifierHash : option Buffer;
  noteIndex : option Z;
  serializedNote : Buffer;
  spent : bool;
  transactionHash : Buffer;
}.

(** The one field of a spend ([spend.nullifier]) and the one method of an
    output note ([note.merkleHash()]) that the engine reads. *)
Record Spend := { spend_nullifier : Buffer }.

Record NoteEncrypted := { note_merkleHash : Buffer }.

(** Modelled from the spec: [Transaction] (primitives) is not part of the
    sources.  Section 2 describes it as an opaque value object exposing spend
    lists and hash identities; the engine calls [unsignedHash()], [spends()],
    [notes()] and [equals()] on it.  [tx_body] stands for the rest of its
    serialized content, and [equals] compares the whole content. *)
Record Transaction := {
  unsignedHash : Buffer;
  spends : list Spend;
  notes : list NoteEncrypted;
  tx_body : Buffer;
}.

#[global] Instance Spend_eq_dec : EqDecision Spend.
Proof. solve_decision. Defined.

#[global] Instance NoteEncrypted_eq_dec : EqDecision NoteEncrypted.
Proof. solve_decision. Defined.

#[global] Instance Transaction_eq_dec : EqDecision Transaction.
Proof. solve_decision. Defined.

(** [transaction.equals(other)]. *)
Definition Transaction_equals (a b : Transaction) : bool := bool_decide (a = b).

(** The value type of the [transactions] map. *)
Record TransactionValue := {
  transaction : Transaction;
  blockHash : option Buffer;
  sequence : option Z;
  submittedSequence : option Z;
}.

(** Modelled from the spec: [SyncTransactionParams] is declared in
    wallet/wallet.ts, which is not part of the sources.  Section 4.2 gives its
    three shapes: [{sequence, blockHash}], [{submittedSequence}] and [{}]. *)
Inductive SyncTransactionParams :=
  | ParamsMined (blockHash : Buffer) (sequence : Z)
  | ParamsPending (submittedSequence : Z)
  | ParamsNone.

(** ['blockHash' in params ? params.blockHash : null] and its two siblings. *)
Definition params_blockHash (p : SyncTransactionParams) : option Buffer :=
  match p with ParamsMined b _ => Some b | _ => None end.

Definition params_sequence (p : SyncTransactionParams) : option Z :=
  match p with ParamsMined _ s => Some s | _ => None end.

Definition params_submittedSequence (p : SyncTransactionParams) : option Z :=
  match p with ParamsPending s => Some s | _ => None end.

(** An element of the [decryptedNotes] array passed to [syncTransaction]. *)
Record DecryptedNote := {
  dn_noteIndex : option Z;
  dn_nullifier : option Buffer;
  dn_merkleHash : Buffer;
  dn_forSpender : bool;
  dn_serializedNote : Buffer;
}.

(** Modelled from the spec: [BufferUtils.equalsNullable] lives in utils,
    which is not part of the sources; it compares two optional buffers by
    content ("its payload or block hash actually changed"). *)
Definition equalsNullable (a b : option Buffer) : bool := bool_decide (a = b).

(** ** The persisted store *)

(** The point writes and bulk writes the engine issues, in call order. *)
Inductive DbWrite :=
  | SaveTransaction (hash : Buffer) (v : TransactionValue)
  | SaveDecryptedNote (hash : Buffer) (note : DecryptedNoteValue)
  | SaveNullifierNoteHash (nullifier hash : Buffer)
  | SaveUnconfirmedBalance (balance : Z)
  | DeleteDecryptedNote (hash : Buffer)
  | DeleteNullifier (nullifier : Buffer)
  | DeleteTransaction (hash : Buffer)
  | ReplaceDecryptedNotes
  | ReplaceNullifierToNoteHash
  | ReplaceTransactions.

(** Modelled from the spec: [AccountsDB] (database/accountsdb) is not part of
    the sources.  Section 6 describes it as a key-value store with point
    writes and reads, three loaders and an atomic scope; it is kept here as
    the three stored tables, the stored unconfirmed balance of the account and
    the log of the writes issued so far. *)
Record AccountsDB := {
  db_decryptedNotes : gmap Buffer DecryptedNoteValue;
  db_nullifierToNoteHash : gmap Buffer Buffer;
  db_transactions : gmap Buffer TransactionValue;
  db_unconfirmedBalance : Z;
  db_writes : list DbWrite;
}.

(** Modelled from the spec: the operations of the adapter that the engine
    consumes (section 6).  A point write updates its table and is logged; the
    [replace*] writes of [save] make the stored table equal to the map they
    are given; the loaders of [load] hand back what is stored. *)
Module AccountsDb.

Definition empty : AccountsDB :=
  {| db_decryptedNotes := ∅; db_nullifierToNoteHash := ∅;
     db_transactions := ∅; db_unconfirmedBalance := 0; db_writes := [] |}.

Definition getUnconfirmedBalance (db : AccountsDB) : Z :=
  db_unconfirmedBalance db.

Definition saveUnconfirmedBalance (balance : Z) (db : AccountsDB) : AccountsDB :=
  {| db_decryptedNotes := db_decryptedNotes db;
     db_nullifierToNoteHash := db_nullifierToNoteHash db;
     db_transactions := db_transactions db;
     db_unconfirmedBalance := balance;
     db_writes := db_writes db ++ [SaveUnconfirmedBalance balance] |}.

Definition saveDecryptedNote (h : Buffer) (n : DecryptedNoteValue)
    (db : AccountsDB) : AccountsDB :=
  {| db_decryptedNotes := <[h := n]> (db_decryptedNotes db);
     db_nullifierToNoteHash := db_nullifierToNoteHash db;
     db_transactions := db_transactions db;
     db_unconfirmedBalance := db_unconfirmedBalance db;
     db_writes := db_writes db ++ [SaveDecryptedNote h n] |}.

Definition deleteDecryptedNote (h : Buffer) (db : AccountsDB) : AccountsDB :=
  {| db_decryptedNotes := delete h (db_decryptedNotes db);
     db_nullifierToNoteHash := db_nullifierToNoteHash db;
     db_transactions := db_transactions db;
     db_unconfirmedBalance := db_unconfirmedBalance db;
     db_writes := db_writes db ++ [DeleteDecryptedNote h] |}.

Definition saveNullifierNoteHash (n h : Buffer) (db : AccountsDB) : AccountsDB :=
  {| db_decryptedNotes := db_decryptedNotes db;
     db_nullifierToNoteHash := <[n := h]> (db_nullifierToNoteHash db);
     db_transactions := db_transactions db;
     db_unconfirmedBalance := db_unconfirmedBalance db;
     db_writes := db_writes db ++ [SaveNullifierNoteHash n h] |}.

Definition deleteNullifier (n : Buffer) (db : AccountsDB) : AccountsDB :=
  {| db_decryptedNotes := db_decryptedNotes db;
     db_nullifierToNoteHash := delete n (db_nullifierToNoteHash db);
     db_transactions := db_transactions db;
     db_unconfirmedBalance := db_unconfirmedBalance db;
     db_writes := db_writes db ++ [DeleteNullifier n] |}.

Definition saveTransaction (h : Buffer) (v : TransactionValue)
    (db : AccountsDB) : AccountsDB :=
  {| db_decryptedNotes := db_decryptedNotes db;
     db_nullifierToNoteHash := db_nullifierToNoteHash db;
     db_transactions := <[h := v]> (db_transactions db);
     db_unconfirmedBalance := db_unconfirmedBalance db;
     db_writes := db_writes db ++ [SaveTransaction h v] |}.

Definition deleteTransaction (h : Buffer) (db : AccountsDB) : AccountsDB :=
  {| db_decryptedNotes := db_decryptedNotes db;
     db_nullifierToNoteHash := db_nullifierToNoteHash db;
     db_transactions := delete h (db_transactions db);
     db_unconfirmedBalance := db_unconfirmedBalance db;
     db_writes := db_writes db ++ [DeleteTransaction h] |}.

(** The bulk writes of [save]: the stored table becomes the given map. *)
Definition replaceDecryptedNotes (m : gmap Buffer DecryptedNoteValue)
    (db : AccountsDB) : AccountsDB :=
  {| db_decryptedNotes := m;
     db_nullifierToNoteHash := db_nullifierToNoteHash db;
     db_transactions := db_transactions db;
     db_unconfirmedBalance := db_unconfirmedBalance db;
     db_writes := db_writes db ++ [ReplaceDecryptedNotes] |}.

Definition replaceNullifierToNoteHash (m : gmap Buffer Buffer)
    (db : AccountsDB) : AccountsDB :=
  {| db_decryptedNotes := db_decryptedNotes db;
     db_nullifierToNoteHash := m;
     db_transactions := db_transactions db;
     db_unconfirmedBalance := db_unconfirmedBalance db;
     db_writes := db_writes db ++ [ReplaceNullifierToNoteHash] |}.

Definition replaceTransactions (m : gmap Buffer TransactionValue)
    (db : AccountsDB) : AccountsDB :=
  {| db_decryptedNotes := db_decryptedNotes db;
     db_nullifierToNoteHash := db_nullifierToNoteHash db;
     db_transactions := m;
     db_unconfirmedBalance := db_unconfirmedBalance db;
     db_writes := db_writes db ++ [ReplaceTransactions] |}.

(** The loaders of [load]: every stored entry is [set] into the map handed
    in; the stored decrypted notes come as a sequence of pairs. *)
Definition loadNullifierToNoteHash (db : AccountsDB) (m : gmap Buffer Buffer)
    : gmap Buffer Buffer :=
  db_nullifierToNoteHash db ∪ m.

Definition loadTransactions (db : AccountsDB) (m : gmap Buffer TransactionValue)
    : gmap Buffer TransactionValue :=
  db_transactions db ∪ m.

Definition loadDecryptedNotes (db : AccountsDB)
    : list (Buffer * DecryptedNoteValue) :=
  map_to_list (db_decryptedNotes db).

End AccountsDb.

(** ** Failures

    Every [Assert.isNotUndefined] / [Assert.isNotNull] of the class throws;
    the operation in progress is abandoned. *)
Inductive AssertionError :=
  | TransactionUndefined (transactionHash : Buffer)
  | SequenceRequired
  | NullifierWithoutDecryptedNote
  | NoteUndefined.

Inductive Result (A : Type) :=
  | Ok (a : A)
  | Throw (e : AssertionError).
Arguments Ok {A} a.
Arguments Throw {A} e.

Definition isOk {A : Type} (r : Result A) : bool :=
  match r with Ok _ => true | Throw _ => false end.

#[global] Instance Result_ret : MRet Result := @Ok.

#[global] Instance Result_bind : MBind Result := λ A B f r,
  match r with Ok a => f a | Throw e => Throw e end.

(** [for (const x of xs) { ... }] over a state, stopping at the first throw. *)
Fixpoint forOf {A S : Type} (body : A → S → Result S) (xs : list A) (s : S)
    : Result S :=
  match xs with
  | [] => Ok s
  | x :: xs' => s' ← body x s; forOf body xs' s'
  end.

(** ** The account

    The fields of the class that the ledger reads or writes.  The name, the
    display name, the keys and the public address play no part in it and are
    left out. *)

Record Account := {
  id : string;
  decryptedNotes : gmap Buffer DecryptedNoteValue;
  nullifierToNoteHash : gmap Buffer Buffer;
  transactions : gmap Buffer TransactionValue;
  noteHashesBySequence : gmap Z (list Buffer);
  nonChainNoteHashes : list Buffer;
  accountsDb : AccountsDB;
}.

Definition with_decryptedNotes (f : gmap Buffer DecryptedNoteValue → gmap Buffer DecryptedNoteValue)
    (a : Account) : Account :=
  {| id := id a; decryptedNotes := f (decryptedNotes a);
     nullifierToNoteHash := nullifierToNoteHash a;
     transactions := transactions a;
     noteHashesBySequence := noteHashesBySequence a;
     nonChainNoteHashes := nonChainNoteHashes a;
     accountsDb := accountsDb a |}.

Definition with_nullifierToNoteHash (f : gmap Buffer Buffer → gmap Buffer Buffer)
    (a : Account) : Account :=
  {| id := id a; decryptedNotes := decryptedNotes a;
     nullifierToNoteHash := f (nullifierToNoteHash a);
     transactions := transactions a;
     noteHashesBySequence := noteHashesBySequence a;
     nonChainNoteHashes := nonChainNoteHashes a;
     accountsDb := accountsDb a |}.

Definition with_transactions (f : gmap Buffer TransactionValue → gmap Buffer TransactionValue)
    (a : Account) : Account :=
  {| id := id a; decryptedNotes := decryptedNotes a;
     nullifierToNoteHash := nullifierToNoteHash a;
     transactions := f (transactions a);
     noteHashesBySequence := noteHashesBySequence a;
     nonChainNoteHashes := nonChainNoteHashes a;
     accountsDb := accountsDb a |}.

Definition with_noteHashesBySequence (f : gmap Z (list Buffer) → gmap Z (list Buffer))
    (a : Account) : Account :=
  {| id := id a; decryptedNotes := decryptedNotes a;
     nullifierToNoteHash := nullifierToNoteHash a;
     transactions := transactions a;
     noteHashesBySequence := f (noteHashesBySequence a);
     nonChainNoteHashes := nonChainNoteHashes a;
     accountsDb := accountsDb a |}.

Definition with_nonChainNoteHashes (f : list Buffer → list Buffer)
    (a : Account) : Account :=
  {| id := id a; decryptedNotes := decryptedNotes a;
     nullifierToNoteHash := nullifierToNoteHash a;
     transactions := transactions a;
     noteHashesBySequence := noteHashesBySequence a;
     nonChainNoteHashes := f (nonChainNoteHashes a);
     accountsDb := accountsDb a |}.

Definition with_accountsDb (f : AccountsDB → AccountsDB) (a : Account) : Account :=
  {| id := id a; decryptedNotes := decryptedNotes a;
     nullifierToNoteHash := nullifierToNoteHash a;
     transactions := transactions a;
     noteHashesBySequence := noteHashesBySequence a;
     nonChainNoteHashes := nonChainNoteHashes a;
     accountsDb := f (accountsDb a) |}.

(** The constructor: empty indices over the given store. *)
Definition newAccount (i : string) (db : AccountsDB) : Account :=
  {| id := i; decryptedNotes := ∅; nullifierToNoteHash := ∅;
     transactions := ∅; noteHashesBySequence := ∅;
     nonChainNoteHashes := []; accountsDb := db |}.

(** [{...decryptedNote, spent: b}]. *)
Definition with_spent (b : bool) (n : DecryptedNoteValue) : DecryptedNoteValue :=
  {| accountId := accountId n; nullifierHash := nullifierHash n;
     noteIndex := noteIndex n; serializedNote := serializedNote n;
     spent := b; transactionHash := transactionHash n |}.

(** ** The operations of the class *)

Section AccountOperations.

(** [new Note(serializedNote).value()]: the note primitive is external to
    the engine and is taken as a parameter. *)
Variable noteValue : Buffer → Z.

Definition getDecryptedNote (a : Account) (hash : Buffer) : option DecryptedNoteValue :=
  decryptedNotes a !! hash.

Definition getNoteHash (a : Account) (nullifier : Buffer) : option Buffer :=
  nullifierToNoteHash a !! nullifier.

Definition getTransaction (a : Account) (hash : Buffer) : option TransactionValue :=
  transactions a !! hash.

Definition getUnconfirmedBalance (a : Account) : Z :=
  AccountsDb.getUnconfirmedBalance (accountsDb a).

Definition saveUnconfirmedBalance (balance : Z) (a : Account) : Account :=
  with_accountsDb (AccountsDb.saveUnconfirmedBalance balance) a.

Definition saveDecryptedNoteSequence (transactionHash noteHash : Buffer)
    (a : Account) : Result Account :=
  match transactions a !! transactionHash with
  | None => Throw (TransactionUndefined transactionHash)
  | Some transaction =>
      match blockHash transaction with
      | Some _ =>
          match sequence transaction with
          | None => Throw SequenceRequired
          | Some sequence =>
              let decryptedNotes :=
                default [] (noteHashesBySequence a !! sequence) in
              let decryptedNotes := BufferSet.add noteHash decryptedNotes in
              Ok (with_nonChainNoteHashes (BufferSet.delete noteHash)
                    (with_noteHashesBySequence (<[sequence := decryptedNotes]>) a))
          end
      | None => Ok (with_nonChainNoteHashes (BufferSet.add noteHash) a)
      end
  end.

Definition updateDecryptedNote (noteHash : Buffer) (note : DecryptedNoteValue)
    (a : Account) : Result Account :=
  let existingNote := decryptedNotes a !! noteHash in
  let a :=
    if match existingNote with
       | None => true
       | Some existingNote => negb (eqb (spent existingNote) (spent note))
       end
    then
      let value := noteValue (serializedNote note) in
      let currentUnconfirmedBalance := getUnconfirmedBalance a in
      if spent note
      then saveUnconfirmedBalance (currentUnconfirmedBalance - value) a
      else saveUnconfirmedBalance (currentUnconfirmedBalance + value) a
    else a in
  a ← saveDecryptedNoteSequence (transactionHash note) noteHash a;
  Ok (with_accountsDb (AccountsDb.saveDecryptedNote noteHash note)
        (with_decryptedNotes (<[noteHash := note]>) a)).

Definition updateTransaction (hash : Buffer) (transactionValue : TransactionValue)
    (a : Account) : Account :=
  with_accountsDb (AccountsDb.saveTransaction hash transactionValue)
    (with_transactions (<[hash := transactionValue]>) a).

Definition updateNullifierNoteHash (nullifier noteHash : Buffer)
    (a : Account) : Account :=
  with_accountsDb (AccountsDb.saveNullifierNoteHash nullifier noteHash)
    (with_nullifierToNoteHash (<[nullifier := noteHash]>) a).

Definition deleteNullifier (nullifier : Buffer) (a : Account) : Account :=
  with_accountsDb (AccountsDb.deleteNullifier nullifier)
    (with_nullifierToNoteHash (delete nullifier) a).

(** One iteration of the loop of [bulkUpdateDecryptedNotes]. *)
Definition bulkUpdateDecryptedNote (transactionHash : Buffer)
    (decryptedNote : DecryptedNote) (a : Account) : Result Account :=
  if dn_forSpender decryptedNote then Ok a
  else
    let a :=
      match dn_nullifier decryptedNote with
      | Some nullifier =>
          updateNullifierNoteHash nullifier (dn_merkleHash decryptedNote) a
      | None => a
      end in
    updateDecryptedNote (dn_merkleHash decryptedNote)
      {| accountId := id a;
         nullifierHash := dn_nullifier decryptedNote;
         noteIndex := dn_noteIndex decryptedNote;
         serializedNote := dn_serializedNote decryptedNote;
         spent := false;
         transactionHash := transactionHash |} a.

Definition bulkUpdateDecryptedNotes (transactionHash : Buffer)
    (decryptedNotes : list DecryptedNote) (a : Account) : Result Account :=
  forOf (bulkUpdateDecryptedNote transactionHash) decryptedNotes a.

(** One iteration of the loop of [processTransactionSpends]. *)
Definition processTransactionSpend (isRemovingTransaction : bool)
    (spend : Spend) (a : Account) : Result Account :=
  match getNoteHash a (spend_nullifier spend) with
  | Some noteHash =>
      match getDecryptedNote a noteHash with
      | None => Throw NullifierWithoutDecryptedNote
      | Some decryptedNote =>
          updateDecryptedNote noteHash
            (with_spent (negb isRemovingTransaction) decryptedNote) a
      end
  | None => Ok a
  end.

Definition processTransactionSpends (transaction : Transaction)
    (isRemovingTransaction : bool) (a : Account) : Result Account :=
  forOf (processTransactionSpend isRemovingTransaction) (spends transaction) a.

(** The three values [syncTransaction] derives before it touches a note. *)
Definition mergedSubmittedSequence (a : Account) (transaction : Transaction)
    (params : SyncTransactionParams) : option Z :=
  match transactions a !! unsignedHash transaction with
  | Some record => submittedSequence record
  | None => params_submittedSequence params
  end.

Definition shouldUpdateTransaction (a : Account) (transaction : Transaction)
    (params : SyncTransactionParams) : bool :=
  match transactions a !! unsignedHash transaction with
  | None => true
  | Some {| transaction := recordTransaction; blockHash := recordBlockHash |} =>
      negb (Transaction_equals recordTransaction transaction)
      || negb (equalsNullable recordBlockHash (params_blockHash params))
  end.

Definition isRemovingTransaction (a : Account) (transaction : Transaction)
    (params : SyncTransactionParams) : bool :=
  bool_decide (mergedSubmittedSequence a transaction params = None)
  && bool_decide (params_blockHash params = None).

(** The conditional [updateTransaction] of [syncTransaction]. *)
Definition upsertTransaction (transaction : Transaction)
    (params : SyncTransactionParams) (a : Account) : Account :=
  let transactionHash := unsignedHash transaction in
  let blockHash := params_blockHash params in
  let sequence := params_sequence params in
  let submittedSequence := mergedSubmittedSequence a transaction params in
  if shouldUpdateTransaction a transaction params
  then updateTransaction transactionHash
         {| transaction := transaction; blockHash := blockHash;
            sequence := sequence; submittedSequence := submittedSequence |} a
  else a.

Definition syncTransaction (transaction : Transaction)
    (decryptedNotes : list DecryptedNote) (params : SyncTransactionParams)
    (a : Account) : Result Account :=
  let transactionHash := unsignedHash transaction in
  let isRemoving := isRemovingTransaction a transaction params in
  let a := upsertTransaction transaction params a in
  a ← bulkUpdateDecryptedNotes transactionHash decryptedNotes a;
  processTransactionSpends transaction isRemoving a.

Definition deleteDecryptedNote (noteHash transactionHash : Buffer)
    (a : Account) : Account :=
  let a :=
    match decryptedNotes a !! noteHash with
    | Some existingNote =>
        let value := noteValue (serializedNote existingNote) in
        let currentUnconfirmedBalance := getUnconfirmedBalance a in
        if spent existingNote
        then saveUnconfirmedBalance (currentUnconfirmedBalance + value) a
        else saveUnconfirmedBalance (currentUnconfirmedBalance - value) a
    | None => a
    end in
  let a :=
    match transactions a !! transactionHash with
    | Some record =>
        match sequence record with
        | Some sequence =>
            (* [record.sequence] is tested for truthiness: 0 is skipped *)
            if decide (sequence = 0) then a
            else
              match noteHashesBySequence a !! sequence with
              | Some noteHashes =>
                  with_noteHashesBySequence
                    (<[sequence := BufferSet.delete noteHash noteHashes]>) a
              | None => a
              end
        | None => a
        end
    | None => a
    end in
  with_accountsDb (AccountsDb.deleteDecryptedNote noteHash)
    (with_decryptedNotes (delete noteHash)
       (with_nonChainNoteHashes (BufferSet.delete noteHash) a)).

(** One iteration of the first loop of [deleteTransaction]. *)
Definition deleteTransactionNote (hash : Buffer) (a : Account)
    (note : NoteEncrypted) : Account :=
  let merkleHash := note_merkleHash note in
  match getDecryptedNote a merkleHash with
  | Some decryptedNote =>
      let a := deleteDecryptedNote merkleHash hash a in
      match nullifierHash decryptedNote with
      | Some nullifier => deleteNullifier nullifier a
      | None => a
      end
  | None => a
  end.

(** One iteration of the second loop of [deleteTransaction]. *)
Definition deleteTransactionSpend (spend : Spend) (a : Account) : Result Account :=
  match getNoteHash a (spend_nullifier spend) with
  | Some noteHash =>
      match getDecryptedNote a noteHash with
      | None => Throw NullifierWithoutDecryptedNote
      | Some decryptedNote =>
          updateDecryptedNote noteHash (with_spent false decryptedNote) a
      end
  | None => Ok a
  end.

Definition deleteTransaction (hash : Buffer) (transaction : Transaction)
    (a : Account) : Result Account :=
  let a := foldl (deleteTransactionNote hash) a (notes transaction) in
  a ← forOf deleteTransactionSpend (spends transaction) a;
  Ok (with_accountsDb (AccountsDb.deleteTransaction hash)
        (with_transactions (delete hash) a)).

(** The body of both inner loops of [getBalance]. *)
Definition subtractUnspent (a : Account) (hash : Buffer) (confirmed : Z)
    : Result Z :=
  match decryptedNotes a !! hash with
  | None => Throw NoteUndefined
  | Some note =>
      if spent note then Ok confirmed
      else Ok (confirmed - noteValue (serializedNote note))
  end.

Definition subtractSequence (a : Account) (i : Z) (confirmed : Z) : Result Z :=
  match noteHashesBySequence a !! i with
  | Some noteHashes => forOf (subtractUnspent a) noteHashes confirmed
  | None => Ok confirmed
  end.

(** [getBalance] returns [{unconfirmed, confirmed}], here as a pair. *)
Definition getBalance (unconfirmedSequenceStart headSequence : Z)
    (a : Account) : Result (Z * Z) :=
  let unconfirmed := getUnconfirmedBalance a in
  confirmed ← forOf (subtractSequence a)
                (seqZ unconfirmedSequenceStart
                   (headSequence - unconfirmedSequenceStart))
                unconfirmed;
  confirmed ← forOf (subtractUnspent a) (nonChainNoteHashes a) confirmed;
  Ok (unconfirmed, confirmed).

(** One iteration of the loop of [loadDecryptedNotesAndBalance]; the state
    of the loop is the account and the running [unconfirmedBalance]. *)
Definition loadDecryptedNote (entry : Buffer * DecryptedNoteValue)
    (s : Account * Z) : Result (Account * Z) :=
  let '(hash, decryptedNote) := entry in
  let '(a, unconfirmedBalance) := s in
  if decide (accountId decryptedNote = id a) then
    let a := with_decryptedNotes (<[hash := decryptedNote]>) a in
    let unconfirmedBalance :=
      if spent decryptedNote then unconfirmedBalance
      else unconfirmedBalance + noteValue (serializedNote decryptedNote) in
    a ← saveDecryptedNoteSequence (transactionHash decryptedNote) hash a;
    Ok (a, unconfirmedBalance)
  else Ok (a, unconfirmedBalance).

Definition loadDecryptedNotesAndBalance (a : Account) : Result Account :=
  s ← forOf loadDecryptedNote
        (AccountsDb.loadDecryptedNotes (accountsDb a)) (a, 0);
  Ok (saveUnconfirmedBalance s.2 s.1).

Definition load (a : Account) : Result Account :=
  let a := with_nullifierToNoteHash
             (AccountsDb.loadNullifierToNoteHash (accountsDb a)) a in
  let a := with_transactions (AccountsDb.loadTransactions (accountsDb a)) a in
  loadDecryptedNotesAndBalance a.

Definition save (a : Account) : Account :=
  with_accountsDb
    (λ db, AccountsDb.replaceTransactions (transactions a)
             (AccountsDb.replaceNullifierToNoteHash (nullifierToNoteHash a)
                (AccountsDb.replaceDecryptedNotes (decryptedNotes a) db))) a.

Definition reset (a : Account) : Account :=
  saveUnconfirmedBalance 0
    (with_transactions (λ _, ∅)
       (with_nullifierToNoteHash (λ _, ∅)
          (with_decryptedNotes (λ _, ∅) a))).

End AccountOperations.

(** ** The scenario of the specification

    Concrete data for the scenarios of section 8: one account, a transaction
    [receiveTx] that delivers one note of value 5 to it, and a transaction
    [spendTx] that spends that note. *)
Module Scenario.

(** A stand-in for the external note decoder: the value of a note is read
    from the first byte of its payload. *)
Definition firstByteValue (serializedNote : Buffer) : Z :=
  match serializedNote with
  | b :: _ => Z.of_N (Byte.to_N b)
  | [] => 0
  end.

Definition noteHash : Buffer := [xa1]%byte.
Definition noteNullifier : Buffer := [xb1]%byte.
Definition notePayload : Buffer := [x05]%byte.

Definition receiveTx : Transaction :=
  {| unsignedHash := [x01]%byte; spends := [];
     notes := [ {| note_merkleHash := noteHash |} ]; tx_body := [] |}.

Definition spendTx : Transaction :=
  {| unsignedHash := [x02]%byte;
     spends := [ {| spend_nullifier := noteNullifier |} ];
     notes := []; tx_body := [] |}.

Definition receivedNote : DecryptedNote :=
  {| dn_noteIndex := Some 0; dn_nullifier := Some noteNullifier;
     dn_merkleHash := noteHash; dn_forSpender := false;
     dn_serializedNote := notePayload |}.

(** The same note as it is decrypted again once its transaction has left
    the chain: no position, hence no nullifier. *)
Definition receivedNoteOffChain : DecryptedNote :=
  {| dn_noteIndex := None; dn_nullifier := None;
     dn_merkleHash := noteHash; dn_forSpender := false;
     dn_serializedNote := notePayload |}.

Definition storedNote (isSpent : bool) : DecryptedNoteValue :=
  {| accountId := "account"; nullifierHash := Some noteNullifier;
     noteIndex := Some 0; serializedNote := notePayload;
     spent := isSpent; transactionHash := unsignedHash receiveTx |}.

Definition blockA : Buffer := [xc1]%byte.
Definition blockB : Buffer := [xc2]%byte.

Definition account0 : Account := newAccount "account" AccountsDb.empty.

(** The state an operation leaves, or the state before it if it threw. *)
Definition after (a : Account) (r : Result Account) : Account :=
  match r with Ok a' => a' | Throw _ => a end.

(** [receiveTx] mined at sequence 10. *)
Definition account1 : Account :=
  after account0
    (syncTransaction firstByteValue receiveTx [receivedNote] (ParamsMined blockA 10)
       account0).

(** [receiveTx] observed a second time with the same notes and status. *)
Definition account1Again : Account :=
  after account1
    (syncTransaction firstByteValue receiveTx [receivedNote] (ParamsMined blockA 10)
       account1).

(** Then [spendTx] mined at sequence 11. *)
Definition account2 : Account :=
  after account1
    (syncTransaction firstByteValue spendTx [] (ParamsMined blockB 11) account1).

(** Then [spendTx] observed again with the empty status. *)
Definition account3 : Account :=
  after account2 (syncTransaction firstByteValue spendTx [] ParamsNone account2).

(** Then [receiveTx] deleted: the last step of the scenarios. *)
Definition account4 : Account :=
  after account3
    (deleteTransaction firstByteValue (unsignedHash receiveTx) receiveTx account3).

(** A transaction that lists the note of [receiveTx] among its outputs and
    also spends it; no chain produces one, the types allow it. *)
Definition selfSpendTx : Transaction :=
  {| unsignedHash := [x03]%byte;
     spends := [ {| spend_nullifier := noteNullifier |} ];
     notes := [ {| note_merkleHash := noteHash |} ]; tx_body := [] |}.

Definition accountSelfSpend : Account :=
  after account0
    (syncTransaction firstByteValue selfSpendTx [receivedNote]
       (ParamsMined blockA 10) account0).

Definition accountSelfSpendAgain : Account :=
  after accountSelfSpend
    (syncTransaction firstByteValue selfSpendTx [receivedNote]
       (ParamsMined blockA 10) accountSelfSpend).

(** [receiveTx] mined at sequence 10 and then observed with the empty
    status, as after a reorganisation that dropped its block. *)
Definition accountReorged : Account :=
  after account1
    (syncTransaction firstByteValue receiveTx [receivedNoteOffChain] ParamsNone
       account1).

(** [receiveTx] deleted after its note was spent by [spendTx]. *)
Definition accountForgotten : Account :=
  after account2
    (deleteTransaction firstByteValue (unsignedHash receiveTx) receiveTx account2).

(** A fresh account over the store [accountForgotten] has saved to, loaded. *)
Definition accountReloaded : Account :=
  after accountForgotten
    (load firstByteValue
       (newAccount (id accountForgotten) (accountsDb (save accountForgotten)))).

(** An account written out field by field: it holds the one note of
    [receiveTx], unspent, with [receiveTx] mined at sequence 10. *)
Definition accountHolding : Account :=
  {| id := "account";
     decryptedNotes := {[ noteHash := storedNote false ]};
     nullifierToNoteHash := {[ noteNullifier := noteHash ]};
     transactions :=
       {[ unsignedHash receiveTx :=
            {| transaction := receiveTx; blockHash := Some blockA;
               sequence := Some 10; submittedSequence := None |} ]};
     noteHashesBySequence := {[ 10 := [noteHash] ]};
     nonChainNoteHashes := [];
     accountsDb :=
       {| db_decryptedNotes := {[ noteHash := storedNote false ]};
          db_nullifierToNoteHash := {[ noteNullifier := noteHash ]};
          db_transactions :=
            {[ unsignedHash receiveTx :=
                 {| transaction := receiveTx; blockHash := Some blockA;
                    sequence := Some 10; submittedSequence := None |} ]};
          db_unconfirmedBalance := 5;
          db_writes := [] |} |}.

End Scenario.

Import Scenario.

(** ** Reading the results of the operations *)

(** The writes issued between two states of the same store. *)
Definition writesSince (a a' : Account) : list DbWrite :=
  drop (length (db_writes (accountsDb a))) (db_writes (accountsDb a')).

Definition isSaveTransaction (w : DbWrite) : bool :=
  match w with SaveTransaction _ _ => true | _ => false end.

Definition isSaveUnconfirmedBalance (w : DbWrite) : bool :=
  match w with SaveUnconfirmedBalance _ => true | _ => false end.

Definition isSaveDecryptedNote (w : DbWrite) : bool :=
  match w with SaveDecryptedNote _ _ => true | _ => false end.

Definition isSaveNullifierNoteHash (w : DbWrite) : bool :=
  match w with SaveNullifierNoteHash _ _ => true | _ => false end.

(** A note can be filed under a transaction hash when the transaction is
    recorded and, if it has a block hash, it also has a sequence: the two
    assertions of [saveDecryptedNoteSequence]. *)
Definition indexable (txs : gmap Buffer TransactionValue) (transactionHash : Buffer)
    : Prop :=
  match txs !! transactionHash with
  | Some record => blockHash record = None ∨ is_Some (sequence record)
  | None => False
  end.

(** The amount [updateDecryptedNote] adds to the unconfirmed balance, given
    the stored entry it finds. *)
Definition balanceChange (noteValue : Buffer → Z)
    (existingNote : option DecryptedNoteValue) (note : DecryptedNoteValue) : Z :=
  let value := noteValue (serializedNote note) in
  match existingNote with
  | Some existingNote =>
      if eqb (spent existingNote) (spent note) then 0
      else if spent note then - value else value
  | None => if spent note then - value else value
  end.

(** The writes a note update can issue. *)
Definition isNoteWrite (w : DbWrite) : bool :=
  isSaveDecryptedNote w || isSaveUnconfirmedBalance w || isSaveNullifierNoteHash w.

(** What the two note loops of [syncTransaction] leave alone: the account
    identity and the transaction table; they write only notes, nullifier
    entries and the balance. *)
Definition noteStep (a a' : Account) : Prop :=
  id a' = id a
  ∧ transactions a' = transactions a
  ∧ ∃ ws, db_writes (accountsDb a') = db_writes (accountsDb a) ++ ws
      ∧ Forall isNoteWrite ws.

(** Every entry of the Nullifier Index points at a stored note. *)
Definition nullifiersResolve (a : Account) : Prop :=
  ∀ n h, nullifierToNoteHash a !! n = Some h → is_Some (decryptedNotes a !! h).

(** The note stored at [h] carries the given spent flag, and the transaction
    it belongs to is one it can be filed under. *)
Definition spendSettled (spentFlag : bool) (a : Account) (h : Buffer) : Prop :=
  ∃ note, decryptedNotes a !! h = Some note
    ∧ spent note = spentFlag
    ∧ indexable (transactions a) (transactionHash note).


(** ** The confirmed balance as the specification words it

    "Unconfirmed balance minus the value of every currently-unspent note whose
    owning transaction's confirmed sequence falls in
    [[confirmationStartSequence, headSequence)] minus the value of every
    currently-unspent note with no chain membership at all (non-chain set)."
    This definition follows those words, not the loops of [getBalance]. *)

(** The sum of a list of amounts. *)
Definition sumZ (l : list Z) : Z := foldr Z.add 0 l.

(** The sequence of the transaction a note belongs to, if it has one. *)
Definition owningSequence (a : Account) (note : DecryptedNoteValue) : option Z :=
  match transactions a !! transactionHash note with
  | Some record => sequence record
  | None => None
  end.

(** What an entry contributes to a subtraction: its value while unspent. *)
Definition unspentValue (noteValue : Buffer → Z) (note : DecryptedNoteValue) : Z :=
  if spent note then 0 else noteValue (serializedNote note).

Definition inSequenceRange (start head : Z) (s : option Z) : bool :=
  match s with
  | Some s => bool_decide (start ≤ s) && bool_decide (s < head)
  | None => false
  end.

(** What the note stored at a hash contributes to a subtraction. *)
Definition unspentValueAt (noteValue : Buffer → Z) (a : Account) (h : Buffer) : Z :=
  match decryptedNotes a !! h with
  | Some note => unspentValue noteValue note
  | None => 0
  end.

Definition specConfirmedBalance (noteValue : Buffer → Z) (start head : Z)
    (a : Account) : Z :=
  getUnconfirmedBalance a
  - sumZ ((λ entry, if inSequenceRange start head (owningSequence a entry.2)
                    then unspentValue noteValue entry.2 else 0)
            <$> map_to_list (decryptedNotes a))
  - sumZ (unspentValueAt noteValue a <$> nonChainNoteHashes a).

(** The sum of the values of the unspent notes of a table: what the
    specification says the unconfirmed balance always equals. *)
Definition unspentTotal (noteValue : Buffer → Z)
    (m : gmap Buffer DecryptedNoteValue) : Z :=
  sumZ ((λ entry, unspentValue noteValue entry.2) <$> map_to_list m).

(** ** What a call of [syncTransaction] delivers *)

(** The hashes of the notes the loop of [bulkUpdateDecryptedNotes] stores:
    those of the entries not flagged [forSpender]. *)
Definition receivedHashes (ds : list DecryptedNote) : list Buffer :=
  dn_merkleHash <$> filter (λ d, dn_forSpender d = false) ds.

(** The Nullifier Index entries the same loop registers, in order. *)
Definition receivedNullifiers (ds : list DecryptedNote) : list (Buffer * Buffer) :=
  omap (λ d, if dn_forSpender d then None
             else match dn_nullifier d with
                  | Some n => Some (n, dn_merkleHash d)
                  | None => None
                  end) ds.

Definition insertAll (l : list (Buffer * Buffer)) (m : gmap Buffer Buffer)
    : gmap Buffer Buffer :=
  foldl (λ m entry, <[entry.1 := entry.2]> m) m l.

(** ** The indices as section 3 describes them

    Every bucket of the Sequence Index lists, without repetition, exactly
    the stored notes whose owning transaction has that sequence, and every
    hash of the Non-chain Note Set is a stored note. *)
Definition indicesConsistent (a : Account) : Prop :=
  (∀ s hs, noteHashesBySequence a !! s = Some hs → NoDup hs)
  ∧ (∀ s h,
       (∃ hs, noteHashesBySequence a !! s = Some hs ∧ h ∈ hs)
       ↔ (∃ note, decryptedNotes a !! h = Some note
            ∧ owningSequence a note = Some s))
  ∧ (∀ h, h ∈ nonChainNoteHashes a → is_Some (decryptedNotes a !! h)).

(** ** The listing operations of the class *)

(** An element of the array [getNotes] returns; [ne_note] is the payload the
    class wraps in [new Note(...)]. *)
Record NoteEntry := {
  ne_hash : Buffer;
  ne_index : option Z;
  ne_note : Buffer;
  ne_transactionHash : Buffer;
  ne_spent : bool;
}.

Definition noteEntry (entry : Buffer * DecryptedNoteValue) : NoteEntry :=
  {| ne_hash := entry.1;
     ne_index := noteIndex entry.2;
     ne_note := serializedNote entry.2;
     ne_transactionHash := transactionHash entry.2;
     ne_spent := spent entry.2 |}.

(** [getNotes] pushes one entry per stored note.  The class walks its
    [BufferMap] in insertion order; the map of the model does not keep that
    order and lists the entries in the order of the keys. *)
Definition getNotes (a : Account) : list NoteEntry :=
  noteEntry <$> map_to_list (decryptedNotes a).

Definition getUnspentNotes (a : Account) : list NoteEntry :=
  filter (λ note, ne_spent note = false) (getNotes a).

(** ** Conditions on the tables *)

(** Every recorded transaction that has a block hash has a sequence. *)
Definition recordsSequenced (a : Account) : Prop :=
  ∀ h record, transactions a !! h = Some record →
    blockHash record = None ∨ is_Some (sequence record).

(** Every stored note belongs to a recorded transaction. *)
Definition notesOwned (a : Account) : Prop :=
  ∀ h note, decryptedNotes a !! h = Some note →
    is_Some (transactions a !! transactionHash note).

(** The three conditions under which no assertion of [syncTransaction] can
    fire. *)
Definition ledgerSound (a : Account) : Prop :=
  nullifiersResolve a ∧ recordsSequenced a ∧ notesOwned a.

(** The unconfirmed balance is the sum of the values of the unspent notes. *)
Definition balanced (noteValue : Buffer → Z) (a : Account) : Prop :=
  getUnconfirmedBalance a = unspentTotal noteValue (decryptedNotes a).

(** The value of a note is a function of its hash: [valueOf] gives it for
    every stored note, and for every entry of a list of decrypted notes. *)
Definition storedValues (noteValue : Buffer → Z) (valueOf : Buffer → Z)
    (a : Account) : Prop :=
  ∀ h note, decryptedNotes a !! h = Some note →
    noteValue (serializedNote note) = valueOf h.

Definition deliveredValues (noteValue : Buffer → Z) (valueOf : Buffer → Z)
    (ds : list DecryptedNote) : Prop :=
  ∀ d, d ∈ ds → dn_forSpender d = false →
    noteValue (dn_serializedNote d) = valueOf (dn_merkleHash d).

(** The stored tables hold what the in-memory tables hold. *)
Definition storeMirrors (a : Account) : Prop :=
  db_decryptedNotes (accountsDb a) = decryptedNotes a
  ∧ db_nullifierToNoteHash (accountsDb a) = nullifierToNoteHash a
  ∧ db_transactions (accountsDb a) = transactions a.

(** A note hash is filed under a sequence, or in the non-chain set. *)
Definition filedAt (a : Account) (s : Z) (h : Buffer) : Prop :=
  ∃ hs, noteHashesBySequence a !! s = Some hs ∧ h ∈ hs.

(** ** Sequences of observations

    What a driver does with the engine: one [syncTransaction] per observed
    transaction, in order, stopping at the first that throws. *)
Definition syncAll (noteValue : Buffer → Z)
    (calls : list (Transaction * list DecryptedNote * SyncTransactionParams))
    (a : Account) : Result Account :=
  forOf (λ call, syncTransaction noteValue call.1.1 call.1.2 call.2) calls a.

(** A stored note is filed where the status of its transaction says: in the
    bucket of the sequence of the transaction and out of the non-chain set
    when the transaction has a block hash, in the non-chain set otherwise. *)
Definition filedByStatus (a : Account) (h : Buffer) : Prop :=
  ∃ note record,
    decryptedNotes a !! h = Some note
    ∧ transactions a !! transactionHash note = Some record
    ∧ match blockHash record, sequence record with
      | Some _, Some s => filedAt a s h ∧ h ∉ nonChainNoteHashes a
      | _, _ => h ∈ nonChainNoteHashes a
      end.

(** The hashes [getBalance] meets: those of the buckets of the sequences
    from [start] up to, not including, [head], and the non-chain ones. *)
Definition scanned (start head : Z) (a : Account) (h : Buffer) : Prop :=
  (∃ s, start ≤ s < head ∧ filedAt a s h) ∨ h ∈ nonChainNoteHashes a.

(** Every hash listed in a bucket or in the non-chain set is stored. *)
Definition indexedStored (a : Account) : Prop :=
  ∀ h, (h ∈ nonChainNoteHashes a ∨ ∃ s, filedAt a s h) →
       is_Some (decryptedNotes a !! h).

(** The note table and the indices are those built from the given stored
    entries for account [i], against the transaction table [txs]: the notes
    are the entries that carry the id; the bucket of a sequence lists those
    whose transaction has a block hash and that sequence, without
    repetition; the non-chain set lists those whose transaction has no
    block hash. *)
Definition rebuiltFrom (i : string) (txs : gmap Buffer TransactionValue)
    (entries : list (Buffer * DecryptedNoteValue)) (a : Account) : Prop :=
  (∀ h note, decryptedNotes a !! h = Some note
             ↔ ((h, note) ∈ entries ∧ accountId note = i))
  ∧ (∀ s h, filedAt a s h
            ↔ (∃ note record, (h, note) ∈ entries ∧ accountId note = i
                 ∧ txs !! transactionHash note = Some record
                 ∧ is_Some (blockHash record) ∧ sequence record = Some s))
  ∧ (∀ h, h ∈ nonChainNoteHashes a
          ↔ (∃ note record, (h, note) ∈ entries ∧ accountId note = i
               ∧ txs !! transactionHash note = Some record
               ∧ blockHash record = None))
  ∧ (∀ s hs, noteHashesBySequence a !! s = Some hs → NoDup hs).

(** A store shared by two accounts: it holds the note of [receiveTx] for
    ["account"], and a note for ["other"] whose transaction is not stored. *)
Definition otherNote : DecryptedNoteValue :=
  {| accountId := "other"; nullifierHash := None; noteIndex := None;
     serializedNote := [x07]%byte; spent := false;
     transactionHash := [x09]%byte |}.

Definition sharedStore : AccountsDB :=
  {| db_decryptedNotes :=
       <[ [xa2]%byte := otherNote ]> {[ noteHash := storedNote false ]};
     db_nullifierToNoteHash := {[ noteNullifier := noteHash ]};
     db_transactions :=
       {[ unsignedHash receiveTx :=
            {| transaction := receiveTx; blockHash := Some blockA;
               sequence := Some 10; submittedSequence := None |} ]};
     db_unconfirmedBalance := 0;
     db_writes := [] |}.

Definition accountLoaded : Account :=
  after account0 (load firstByteValue (newAccount "account" sharedStore)).

(** Every stored note carries the id of the account. *)
Definition ownNotes (a : Account) : Prop :=
  ∀ h note, decryptedNotes a !! h = Some note → accountId note = id a.

(** ** The export command

    [Export.start] of the command line tool walks the block sequences from
    [start] to [stop], both inclusive.  [min] is
    [Number(GENESIS_BLOCK_SEQUENCE)] and [max] the sequence of the latest
    block; the two arguments are what [parseNumber] has made of the command
    line, [None] standing for [null] or an absent argument.  Sequences are
    integers here, as [BigInt(i)] in the loop requires. *)

(** [args.start ? args.start : fallback]: zero is not taken. *)
Definition argOr (arg : option Z) (fallback : Z) : Z :=
  match arg with
  | Some n => if decide (n = 0) then fallback else n
  | None => fallback
  end.

(** [Math.min(Math.max(args.start ? args.start : min, min), max)]. *)
Definition exportStart (min max : Z) (argStart : option Z) : Z :=
  Z.min (Z.max (argOr argStart min) min) max.

(** [Math.min(Math.max(args.stop ? args.stop : max, start), max)]. *)
Definition exportStop (max start : Z) (argStop : option Z) : Z :=
  Z.min (Z.max (argOr argStop max) start) max.

(** The values [i] takes in [for (let i = start; i <= stop; ++i)]. *)
Definition exportSequences (start stop : Z) : list Z :=
  seqZ start (stop - start + 1).

(** The total handed to [progress.start]. *)
Definition progressTotal (start stop : Z) : Z := stop - start.

(** ** Further scenarios *)

(** [receiveTx] mined at sequence 10 and then observed as mined in another
    block, at sequence 12. *)
Definition accountRemined : Account :=
  after account1
    (syncTransaction firstByteValue receiveTx [receivedNote] (ParamsMined blockB 12)
       account1).

(** [receiveTx] deleted from [accountReorged], the account that saw it
    mined and then off the chain. *)
Definition accountReorgedForgotten : Account :=
  after accountReorged
    (deleteTransaction firstByteValue (unsignedHash receiveTx) receiveTx
       accountReorged).










(** ** The spends of a call and the balance *)



Section BasicFacts.

Variable noteValue : Buffer → Z.

Lemma bind_Ok {A B : Type} (r : Result A) (f : A → Result B) (b : B) :
  r ≫= f = Ok b ↔ ∃ a, r = Ok a ∧ f a = Ok b.
Proof.
  destruct r as [a|e]; simpl; split.
  - eauto.
  - by intros (a' & [= ->] & ?).
  - done.
  - by intros (a' & ? & ?).
Qed.

Lemma after_Ok (a : Account) (r : Result Account) :
  isOk r = true → r = Ok (after a r).
Proof. by destruct r. Qed.

Lemma forOf_cons {A S : Type} (body : A → S → Result S) x xs (s : S) :
  forOf body (x :: xs) s = body x s ≫= forOf body xs.
Proof. reflexivity. Qed.

Lemma bind_Ok_l {A B : Type} (a : A) (f : A → Result B) : Ok a ≫= f = f a.
Proof. reflexivity. Qed.

(** A property kept by every iteration is kept by the loop. *)
Lemma forOf_invariant {A S : Type} (body : A → S → Result S) (P : S → Prop)
    (xs : list A) :
  (∀ x s s', x ∈ xs → P s → body x s = Ok s' → P s') →
  ∀ s s', P s → forOf body xs s = Ok s' → P s'.
Proof.
  induction xs as [|x xs IH]; intros Hbody s s' HP; simpl.
  - by intros [= <-].
  - intros (s1 & H1 & H2)%bind_Ok.
    eapply IH; [| |exact H2].
    + intros y t t' Hy. apply Hbody. by right.
    + eapply Hbody; [by left|exact HP|exact H1].
Qed.

Lemma writesSince_app (a a' : Account) (ws : list DbWrite) :
  db_writes (accountsDb a') = db_writes (accountsDb a) ++ ws →
  writesSince a a' = ws.
Proof. unfold writesSince. intros ->. by rewrite drop_app_length. Qed.

Lemma saveDecryptedNoteSequence_Ok th h a a' :
  saveDecryptedNoteSequence th h a = Ok a' →
  indexable (transactions a) th ∧ id a' = id a
  ∧ decryptedNotes a' = decryptedNotes a
  ∧ nullifierToNoteHash a' = nullifierToNoteHash a
  ∧ transactions a' = transactions a
  ∧ accountsDb a' = accountsDb a.
Proof.
  unfold saveDecryptedNoteSequence, indexable.
  destruct (transactions a !! th) as [r|]; [|done].
  destruct (blockHash r) as [b|].
  - destruct (sequence r) as [s|]; [|done].
    intros [= <-]. simpl. eauto 10.
  - intros [= <-]. simpl. eauto 10.
Qed.

Lemma saveDecryptedNoteSequence_is_Ok th h a :
  indexable (transactions a) th → ∃ a', saveDecryptedNoteSequence th h a = Ok a'.
Proof.
  unfold saveDecryptedNoteSequence, indexable.
  destruct (transactions a !! th) as [r|]; [|done].
  destruct (blockHash r) as [b|]; [|eauto].
  intros [?|[s ->]]; [done|eauto].
Qed.

(** What a completed [updateDecryptedNote] leaves behind. *)
Lemma updateDecryptedNote_Ok h n a a' :
  updateDecryptedNote noteValue h n a = Ok a' →
  indexable (transactions a) (transactionHash n)
  ∧ id a' = id a
  ∧ transactions a' = transactions a
  ∧ nullifierToNoteHash a' = nullifierToNoteHash a
  ∧ decryptedNotes a' = <[h := n]> (decryptedNotes a)
  ∧ getUnconfirmedBalance a'
    = getUnconfirmedBalance a + balanceChange noteValue (decryptedNotes a !! h) n
  ∧ ∃ ws, db_writes (accountsDb a') = db_writes (accountsDb a) ++ ws
      ∧ Forall (λ w, isSaveDecryptedNote w || isSaveUnconfirmedBalance w) ws
      ∧ (match decryptedNotes a !! h with
         | Some old => spent old = spent n
         | None => False
         end →
         ws = [SaveDecryptedNote h n]).
Proof.
  unfold updateDecryptedNote, balanceChange, getUnconfirmedBalance,
    AccountsDb.getUnconfirmedBalance.
  destruct (decryptedNotes a !! h) as [old|] eqn:Hold; simpl;
    [destruct (spent old)|]; destruct (spent n); simpl;
    intros (a1 & H1 & [= <-])%bind_Ok;
    apply saveDecryptedNoteSequence_Ok in H1
      as (Hix & Hid & Hnotes & Hnull & Htx & Hdb);
    simpl in *; rewrite Hid, Hnotes, Hnull, Htx, Hdb;
    (repeat split; try done; try lia); simpl;
    eexists; rewrite <- ?app_assoc; (split; [reflexivity|]);
    (split; [by repeat constructor|]); by intros.
Qed.

Lemma updateDecryptedNote_is_Ok h n a :
  indexable (transactions a) (transactionHash n) →
  ∃ a', updateDecryptedNote noteValue h n a = Ok a'.
Proof.
  intros Hix. unfold updateDecryptedNote.
  match goal with
  | |- ∃ a', saveDecryptedNoteSequence ?th ?nh ?b ≫= _ = _ =>
      destruct (saveDecryptedNoteSequence_is_Ok th nh b) as [a1 ->]
  end.
  - by repeat (case_match; simpl).
  - simpl. eauto.
Qed.
End BasicFacts.

(** ** Note updates and the balance *)

Section NoteUpdate.
Variable noteValue : Buffer → Z.

(** Claim C2.  A completed [updateDecryptedNote] changes the unconfirmed
    balance only through the spent flag.  On a hash with a stored entry: from
    unspent to spent it subtracts exactly the value of the note, from spent to
    unspent it adds exactly that value, and when the flag is the same (only
    the position index, the nullifier or another field changes) the balance
    is left as it was and the note is the only write.  On a hash with no
    stored entry, an unspent note adds exactly its value. *)
Theorem updateDecryptedNote_balance h note a a' :
  updateDecryptedNote noteValue h note a = Ok a' →
  let value := noteValue (serializedNote note) in
  match decryptedNotes a !! h with
  | Some existingNote =>
      (spent existingNote = false → spent note = true →
       getUnconfirmedBalance a' = getUnconfirmedBalance a - value)
      ∧ (spent existingNote = true → spent note = false →
         getUnconfirmedBalance a' = getUnconfirmedBalance a + value)
      ∧ (spent existingNote = spent note →
         getUnconfirmedBalance a' = getUnconfirmedBalance a
         ∧ writesSince a a' = [SaveDecryptedNote h note])
  | None =>
      spent note = false →
      getUnconfirmedBalance a' = getUnconfirmedBalance a + value
  end.
Proof.
  intros (_ & _ & _ & _ & _ & Hbal & ws & Hws & _ & Hsame)%updateDecryptedNote_Ok.
  apply writesSince_app in Hws. rewrite Hbal, Hws. clear Hbal Hws.
  unfold balanceChange in *.
  destruct (decryptedNotes a !! h) as [old|]; simpl.
  - split; [|split].
    + intros -> ->. simpl. lia.
    + intros -> ->. simpl. lia.
    + intros Heq. rewrite Heq, eqb_reflx. split; [lia|auto].
  - intros ->. done.
Qed.

(** Claim C10.  [updateDecryptedNote] on a hash with no entry in the
    decrypted-note index and a new state whose spent flag is true decreases
    the unconfirmed balance by the value of the note, although that value was
    never added to the balance. *)
Theorem updateDecryptedNote_new_spent h note a a' :
  decryptedNotes a !! h = None →
  spent note = true →
  updateDecryptedNote noteValue h note a = Ok a' →
  getUnconfirmedBalance a'
  = getUnconfirmedBalance a - noteValue (serializedNote note).
Proof.
  intros Hnone Hspent (_ & _ & _ & _ & _ & Hbal & _)%updateDecryptedNote_Ok.
  rewrite Hbal. unfold balanceChange. rewrite Hnone, Hspent. lia.
Qed.
End NoteUpdate.

Lemma updateDecryptedNote_balance_witness :
  let a' := after account1
              (updateDecryptedNote firstByteValue noteHash (storedNote true) account1) in
  updateDecryptedNote firstByteValue noteHash (storedNote true) account1 = Ok a'
  ∧ getUnconfirmedBalance a' = getUnconfirmedBalance account1 - 5.
Proof.
  intros a'.
  assert (Hok : updateDecryptedNote firstByteValue noteHash (storedNote true)
                  account1 = Ok a')
    by (apply after_Ok; vm_compute; reflexivity).
  split; [exact Hok|].
  pose proof (updateDecryptedNote_balance firstByteValue noteHash
                (storedNote true) account1 a' Hok) as H.
  assert (E : decryptedNotes account1 !! noteHash = Some (storedNote false))
    by (vm_compute; reflexivity).
  cbv zeta in H. rewrite E in H. destruct H as [H _]. by apply H.
Defined.

Lemma updateDecryptedNote_new_spent_witness :
  let a' := after account1
              (updateDecryptedNote firstByteValue [xa2]%byte (storedNote true)
                 account1) in
  decryptedNotes account1 !! [xa2]%byte = None
  ∧ spent (storedNote true) = true
  ∧ updateDecryptedNote firstByteValue [xa2]%byte (storedNote true) account1 = Ok a'
  ∧ getUnconfirmedBalance a' = getUnconfirmedBalance account1 - 5.
Proof.
  intros a'.
  assert (Hnone : decryptedNotes account1 !! [xa2]%byte = None)
    by (vm_compute; reflexivity).
  assert (Hok : updateDecryptedNote firstByteValue [xa2]%byte (storedNote true)
                  account1 = Ok a')
    by (apply after_Ok; vm_compute; reflexivity).
  split; [exact Hnone|]. split; [reflexivity|]. split; [exact Hok|].
  exact (updateDecryptedNote_new_spent firstByteValue [xa2]%byte
           (storedNote true) account1 a' Hnone eq_refl Hok).
Defined.

Section SyncFrames.
Variable noteValue : Buffer → Z.

Lemma noteStep_refl a : noteStep a a.
Proof. repeat split. exists []. by rewrite app_nil_r. Qed.

Lemma noteStep_trans a b c : noteStep a b → noteStep b c → noteStep a c.
Proof.
  intros (Hid1 & Htx1 & ws1 & Hw1 & Hf1) (Hid2 & Htx2 & ws2 & Hw2 & Hf2).
  repeat split; [congruence..|].
  exists (ws1 ++ ws2). rewrite Hw2, Hw1, app_assoc.
  split; [done|]. by apply Forall_app.
Qed.

Lemma updateDecryptedNote_noteStep h n a a' :
  updateDecryptedNote noteValue h n a = Ok a' → noteStep a a'.
Proof.
  intros (_ & Hid & Htx & _ & _ & _ & ws & Hws & Hf & _)%updateDecryptedNote_Ok.
  repeat split; [done..|]. exists ws. split; [done|].
  eapply Forall_impl; [exact Hf|]. intros w. unfold isNoteWrite.
  destruct (isSaveDecryptedNote w), (isSaveUnconfirmedBalance w); naive_solver.
Qed.

Lemma updateNullifierNoteHash_noteStep n h a :
  noteStep a (updateNullifierNoteHash n h a).
Proof.
  repeat split. exists [SaveNullifierNoteHash n h]. split; [done|].
  by repeat constructor.
Qed.

Lemma bulkUpdateDecryptedNote_noteStep th d a a' :
  bulkUpdateDecryptedNote noteValue th d a = Ok a' → noteStep a a'.
Proof.
  unfold bulkUpdateDecryptedNote.
  destruct (dn_forSpender d); [intros [= <-]; apply noteStep_refl|].
  intros H%updateDecryptedNote_noteStep.
  eapply noteStep_trans; [|exact H].
  destruct (dn_nullifier d);
    [apply updateNullifierNoteHash_noteStep | apply noteStep_refl].
Qed.

Lemma bulkUpdateDecryptedNotes_noteStep th ds a a' :
  bulkUpdateDecryptedNotes noteValue th ds a = Ok a' → noteStep a a'.
Proof.
  apply (forOf_invariant _ (noteStep a)); [|apply noteStep_refl].
  intros d s s' _ Hs Hd. eapply noteStep_trans; [exact Hs|].
  by eapply bulkUpdateDecryptedNote_noteStep.
Qed.

Lemma processTransactionSpend_noteStep rem sp a a' :
  processTransactionSpend noteValue rem sp a = Ok a' →
  noteStep a a' ∧ nullifierToNoteHash a' = nullifierToNoteHash a.
Proof.
  unfold processTransactionSpend, getNoteHash, getDecryptedNote.
  destruct (nullifierToNoteHash a !! spend_nullifier sp) as [h|];
    [|intros [= <-]; split; [apply noteStep_refl|done]].
  destruct (decryptedNotes a !! h) as [d|]; [|done].
  intros H. split; [by eapply updateDecryptedNote_noteStep|].
  by apply updateDecryptedNote_Ok in H as (_ & _ & _ & ? & _).
Qed.

Lemma processTransactionSpends_noteStep T rem a a' :
  processTransactionSpends noteValue T rem a = Ok a' →
  noteStep a a' ∧ nullifierToNoteHash a' = nullifierToNoteHash a.
Proof.
  apply (forOf_invariant _
           (λ s, noteStep a s ∧ nullifierToNoteHash s = nullifierToNoteHash a));
    [|split; [apply noteStep_refl|done]].
  intros sp s s' _ [Hs Hn] [Hs' Hn']%processTransactionSpend_noteStep.
  split; [by eapply noteStep_trans|congruence].
Qed.

Lemma isNoteWrite_filter_SaveTransaction ws :
  Forall isNoteWrite ws → filter isSaveTransaction ws = [].
Proof.
  induction 1 as [|w ws Hw _ IH]; [done|].
  rewrite filter_cons, IH. by destruct w.
Qed.

Lemma noteStep_no_SaveTransaction a a' :
  noteStep a a' → filter isSaveTransaction (writesSince a a') = [].
Proof.
  intros (_ & _ & ws & Hws & Hf). rewrite (writesSince_app _ _ _ Hws).
  by apply isNoteWrite_filter_SaveTransaction.
Qed.

Lemma updateTransaction_noteStep h v a a' :
  noteStep (updateTransaction h v a) a' →
  transactions a' = <[h := v]> (transactions a)
  ∧ filter isSaveTransaction (writesSince a a') = [SaveTransaction h v].
Proof.
  intros (_ & Htx & ws & Hws & Hf). split; [done|].
  simpl in Hws. rewrite <- app_assoc in Hws.
  rewrite (writesSince_app _ _ _ Hws). simpl.
  rewrite filter_cons. simpl.
  by rewrite isNoteWrite_filter_SaveTransaction.
Qed.

(** Claim C6.  When [syncTransaction] is called on a hash that has a stored
    record, the record is rewritten in memory and a [saveTransaction] write is
    issued if and only if the transaction payload differs from the stored one
    or the block hash differs from the stored one; the new record keeps the
    stored submitted sequence.  An observation that changes neither leaves
    the transaction table as it was and issues no [saveTransaction]. *)
Theorem syncTransaction_record_write T ds p a a' record :
  transactions a !! unsignedHash T = Some record →
  syncTransaction noteValue T ds p a = Ok a' →
  let changed :=
    transaction record ≠ T ∨ blockHash record ≠ params_blockHash p in
  let newRecord :=
    {| transaction := T; blockHash := params_blockHash p;
       sequence := params_sequence p;
       submittedSequence := submittedSequence record |} in
  (changed →
     transactions a' = <[unsignedHash T := newRecord]> (transactions a)
     ∧ filter isSaveTransaction (writesSince a a')
       = [SaveTransaction (unsignedHash T) newRecord])
  ∧ (¬ changed →
     transactions a' = transactions a
     ∧ filter isSaveTransaction (writesSince a a') = []).
Proof.
  intros Hrec. unfold syncTransaction.
  intros (a1 & Hbulk & Hspends)%bind_Ok.
  apply bulkUpdateDecryptedNotes_noteStep in Hbulk.
  apply processTransactionSpends_noteStep in Hspends as [Hspends _].
  pose proof (noteStep_trans _ _ _ Hbulk Hspends) as Hstep.
  clear Hbulk Hspends a1. revert Hstep.
  unfold upsertTransaction, shouldUpdateTransaction, mergedSubmittedSequence.
  rewrite Hrec.
  destruct record as [rt rb rs rss]. simpl.
  unfold Transaction_equals, equalsNullable.
  destruct (bool_decide_reflect (rt = T)) as [Ht|Ht];
    destruct (bool_decide_reflect (rb = params_blockHash p)) as [Hb|Hb];
    simpl; intros Hstep; (split; [intros Hch|intros Hch]);
    try (exfalso; by intuition);
    first [ by apply updateTransaction_noteStep
          | split; [apply Hstep | by apply noteStep_no_SaveTransaction] ].
Qed.
End SyncFrames.

Lemma syncTransaction_record_write_witness :
  let record := {| transaction := receiveTx; blockHash := Some blockA;
                   sequence := Some 10; submittedSequence := None |} in
  let a' := after account1
              (syncTransaction firstByteValue receiveTx [receivedNote]
                 (ParamsMined blockA 10) account1) in
  transactions account1 !! unsignedHash receiveTx = Some record
  ∧ syncTransaction firstByteValue receiveTx [receivedNote]
      (ParamsMined blockA 10) account1 = Ok a'
  ∧ transactions a' = transactions account1
  ∧ filter isSaveTransaction (writesSince account1 a') = [].
Proof.
  intros record a'.
  assert (Hrec : transactions account1 !! unsignedHash receiveTx = Some record)
    by (vm_compute; reflexivity).
  assert (Hok : syncTransaction firstByteValue receiveTx [receivedNote]
                  (ParamsMined blockA 10) account1 = Ok a')
    by (apply after_Ok; vm_compute; reflexivity).
  split; [exact Hrec|]. split; [exact Hok|].
  apply (syncTransaction_record_write firstByteValue receiveTx [receivedNote]
           (ParamsMined blockA 10) account1 a' record Hrec Hok).
  intros [H|H]; by apply H.
Defined.

(** ** Spends *)

Section Spends.
Variable noteValue : Buffer → Z.

Lemma processTransactionSpend_settled_keep f rem sp h a a' :
  processTransactionSpend noteValue rem sp a = Ok a' →
  f = negb rem →
  spendSettled f a h → spendSettled f a' h.
Proof.
  unfold processTransactionSpend, getNoteHash, getDecryptedNote.
  intros Hstep -> (note & Hnote & Hsp & Hix).
  destruct (nullifierToNoteHash a !! spend_nullifier sp) as [h'|];
    [|injection Hstep as <-; by exists note].
  destruct (decryptedNotes a !! h') as [d|] eqn:Hd; [|done].
  apply updateDecryptedNote_Ok in Hstep as (_ & _ & Htx & _ & Hnotes & _).
  unfold spendSettled. rewrite Hnotes, Htx.
  destruct (decide (h' = h)) as [->|Hne].
  - rewrite lookup_insert_eq. eexists. split; [done|].
    simpl. split; [done|]. congruence.
  - rewrite lookup_insert_ne by done. by exists note.
Qed.

Lemma processTransactionSpend_settles rem sp h a a' :
  processTransactionSpend noteValue rem sp a = Ok a' →
  nullifierToNoteHash a !! spend_nullifier sp = Some h →
  spendSettled (negb rem) a' h.
Proof.
  unfold processTransactionSpend, getNoteHash, getDecryptedNote.
  intros Hstep Hn. rewrite Hn in Hstep.
  destruct (decryptedNotes a !! h) as [d|] eqn:Hd; [|done].
  apply updateDecryptedNote_Ok in Hstep as (Hix & _ & Htx & _ & Hnotes & _).
  unfold spendSettled. rewrite Hnotes, Htx, lookup_insert_eq.
  eexists. split; [done|]. simpl. split; [done|exact Hix].
Qed.

(** After its loop has completed, every spend of the transaction that
    resolves through the Nullifier Index points at a note carrying the
    flag of the call. *)
Lemma processTransactionSpends_settled T rem a a' :
  processTransactionSpends noteValue T rem a = Ok a' →
  ∀ sp h, sp ∈ spends T →
    nullifierToNoteHash a' !! spend_nullifier sp = Some h →
    spendSettled (negb rem) a' h.
Proof.
  unfold processTransactionSpends. generalize (spends T) as l.
  intros l. revert a. induction l as [|sp0 l IH]; intros a Hloop sp h Hin Hn.
  - by apply elem_of_nil in Hin.
  - simpl in Hloop. apply bind_Ok in Hloop as (a1 & Hstep & Hrest).
    apply elem_of_cons in Hin as [->|Hin]; [|by eapply IH].
    assert (Hnull : nullifierToNoteHash a' = nullifierToNoteHash a1).
    { by apply (processTransactionSpends_noteStep noteValue
                  {| unsignedHash := []; spends := l; notes := [];
                     tx_body := [] |} rem). }
    apply processTransactionSpend_noteStep in Hstep as Hnull1.
    destruct Hnull1 as [_ Hnull1].
    rewrite Hnull, Hnull1 in Hn.
    pose proof (processTransactionSpend_settles _ _ _ _ _ Hstep Hn) as Hset.
    eapply (forOf_invariant _ (λ s, spendSettled (negb rem) s h));
      [|exact Hset|exact Hrest].
    intros x s s' _ Hs Hx. by eapply processTransactionSpend_settled_keep.
Qed.

Lemma bulkUpdateDecryptedNote_forSpender th d a :
  dn_forSpender d = true → bulkUpdateDecryptedNote noteValue th d a = Ok a.
Proof. unfold bulkUpdateDecryptedNote. by intros ->. Qed.

Lemma bulkUpdateDecryptedNotes_forSpender th ds a :
  Forall (λ d, dn_forSpender d = true) ds →
  bulkUpdateDecryptedNotes noteValue th ds a = Ok a.
Proof.
  unfold bulkUpdateDecryptedNotes. induction 1 as [|d ds Hd _ IH]; [done|].
  rewrite forOf_cons, bulkUpdateDecryptedNote_forSpender by exact Hd.
  exact IH.
Qed.

End Spends.

(** ** The consistency assertion on spends *)

Section DanglingNullifiers.
Variable noteValue : Buffer → Z.

(** A loop stops with the failure of one of its iterations: if no
    iteration can fail with [e] from a state satisfying an invariant of the
    loop, the loop cannot fail with [e]. *)
Lemma forOf_never_throws {A S : Type} (body : A → S → Result S)
    (P : S → Prop) (e : AssertionError) (xs : list A) :
  (∀ x s s', P s → body x s = Ok s' → P s') →
  (∀ x s, P s → body x s ≠ Throw e) →
  ∀ s, P s → forOf body xs s ≠ Throw e.
Proof.
  intros Hkeep Hno. induction xs as [|x xs IH]; intros s HP; [done|].
  rewrite forOf_cons. destruct (body x s) as [s'|e'] eqn:Hx; simpl.
  - apply IH. by eapply Hkeep.
  - intros [= ->]. by eapply Hno.
Qed.


Lemma updateDecryptedNote_no_nullifier_error h n a :
  updateDecryptedNote noteValue h n a ≠ Throw NullifierWithoutDecryptedNote.
Proof.
  unfold updateDecryptedNote, saveDecryptedNoteSequence.
  repeat (case_match; simpl; try done).
Qed.


Lemma updateDecryptedNote_nullifiersResolve h n a a' :
  updateDecryptedNote noteValue h n a = Ok a' →
  nullifiersResolve a → nullifiersResolve a'.
Proof.
  intros (_ & _ & _ & Hnull & Hnotes & _)%updateDecryptedNote_Ok Hres k h' Hk.
  rewrite Hnull in Hk. rewrite Hnotes.
  destruct (decide (h = h')) as [->|Hne].
  - rewrite lookup_insert_eq. eauto.
  - rewrite lookup_insert_ne by done. by eapply Hres.
Qed.

Lemma processTransactionSpend_nullifiersResolve rem sp a a' :
  processTransactionSpend noteValue rem sp a = Ok a' →
  nullifiersResolve a → nullifiersResolve a'.
Proof.
  unfold processTransactionSpend, getNoteHash, getDecryptedNote.
  destruct (nullifierToNoteHash a !! spend_nullifier sp) as [h|];
    [|by intros [= <-]].
  destruct (decryptedNotes a !! h) as [d|]; [|done].
  apply updateDecryptedNote_nullifiersResolve.
Qed.

Lemma deleteTransactionSpend_eq sp a :
  deleteTransactionSpend noteValue sp a
  = processTransactionSpend noteValue true sp a.
Proof. reflexivity. Qed.

Lemma bulkUpdateDecryptedNote_nullifiersResolve th d a a' :
  bulkUpdateDecryptedNote noteValue th d a = Ok a' →
  nullifiersResolve a → nullifiersResolve a'.
Proof.
  unfold bulkUpdateDecryptedNote.
  destruct (dn_forSpender d); [by intros [= <-]|].
  intros (_ & _ & _ & Hnull & Hnotes & _)%updateDecryptedNote_Ok Hres k h Hk.
  rewrite Hnull in Hk. rewrite Hnotes.
  destruct (decide (dn_merkleHash d = h)) as [->|Hne].
  - rewrite lookup_insert_eq. eauto.
  - rewrite lookup_insert_ne by done.
    destruct (dn_nullifier d) as [n|]; simpl in *; [|by eapply Hres].
    destruct (decide (n = k)) as [->|Hnk].
    + rewrite lookup_insert_eq in Hk. congruence.
    + rewrite lookup_insert_ne in Hk by done. by eapply Hres.
Qed.



Lemma processTransactionSpend_resolving rem sp a :
  nullifiersResolve a →
  processTransactionSpend noteValue rem sp a ≠ Throw NullifierWithoutDecryptedNote.
Proof.
  intros Hres. unfold processTransactionSpend, getNoteHash, getDecryptedNote.
  destruct (nullifierToNoteHash a !! spend_nullifier sp) as [h|] eqn:Hn;
    [|done].
  destruct (Hres _ _ Hn) as [d ->].
  apply updateDecryptedNote_no_nullifier_error.
Qed.


(** While every entry of the Nullifier Index points at a stored note when
    the loop of [deleteTransaction] over the spends starts, the assertion
    cannot fire. *)
Lemma deleteTransaction_resolving hash T a :
  nullifiersResolve (foldl (deleteTransactionNote noteValue hash) a (notes T)) →
  deleteTransaction noteValue hash T a ≠ Throw NullifierWithoutDecryptedNote.
Proof.
  intros Hres. unfold deleteTransaction.
  destruct (forOf _ _ _) as [a1|e] eqn:Hloop; simpl; [done|].
  intros [= ->]. revert Hloop.
  apply (forOf_never_throws _ nullifiersResolve); [| |done].
  - intros x s s' Hs Hx. rewrite deleteTransactionSpend_eq in Hx.
    by eapply processTransactionSpend_nullifiersResolve.
  - intros x s Hs. rewrite deleteTransactionSpend_eq.
    by apply processTransactionSpend_resolving.
Qed.
End DanglingNullifiers.


(** ** Deleting a transaction *)

Section Deletion.
Variable noteValue : Buffer → Z.

(** What [deleteDecryptedNote] does to the note tables and the balance. *)
Lemma deleteDecryptedNote_spec h th a :
  let a' := deleteDecryptedNote noteValue h th a in
  id a' = id a
  ∧ decryptedNotes a' = delete h (decryptedNotes a)
  ∧ nullifierToNoteHash a' = nullifierToNoteHash a
  ∧ transactions a' = transactions a
  ∧ getUnconfirmedBalance a'
    = match decryptedNotes a !! h with
      | Some existingNote =>
          if spent existingNote
          then getUnconfirmedBalance a + noteValue (serializedNote existingNote)
          else getUnconfirmedBalance a - noteValue (serializedNote existingNote)
      | None => getUnconfirmedBalance a
      end.
Proof.
  unfold deleteDecryptedNote.
  destruct (decryptedNotes a !! h) as [d|]; [destruct (spent d)|];
    simpl; repeat case_match; simpl; done.
Qed.

Lemma deleteNullifier_spec n a :
  decryptedNotes (deleteNullifier n a) = decryptedNotes a
  ∧ nullifierToNoteHash (deleteNullifier n a) = delete n (nullifierToNoteHash a)
  ∧ transactions (deleteNullifier n a) = transactions a
  ∧ getUnconfirmedBalance (deleteNullifier n a) = getUnconfirmedBalance a.
Proof. done. Qed.

Lemma deleteTransactionNote_absent hash a x :
  decryptedNotes a !! note_merkleHash x = None →
  deleteTransactionNote noteValue hash a x = a.
Proof. unfold deleteTransactionNote, getDecryptedNote. by intros ->. Qed.

Lemma deleteTransactionNotes_empty hash a l :
  decryptedNotes a = ∅ →
  foldl (deleteTransactionNote noteValue hash) a l = a.
Proof.
  intros He. induction l as [|x l IH]; [done|]. simpl.
  rewrite deleteTransactionNote_absent; [done|]. by rewrite He.
Qed.

(** The first loop of [deleteTransaction] on an account that holds one
    note, which the transaction lists among its outputs. *)
Lemma deleteTransactionNotes_single hash a l h note :
  decryptedNotes a = {[ h := note ]} →
  h ∈ note_merkleHash <$> l →
  let a' := foldl (deleteTransactionNote noteValue hash) a l in
  decryptedNotes a' = ∅
  ∧ nullifierToNoteHash a'
    = match nullifierHash note with
      | Some n => delete n (nullifierToNoteHash a)
      | None => nullifierToNoteHash a
      end
  ∧ transactions a' = transactions a
  ∧ getUnconfirmedBalance a'
    = if spent note
      then getUnconfirmedBalance a + noteValue (serializedNote note)
      else getUnconfirmedBalance a - noteValue (serializedNote note).
Proof.
  intros Hone Hin. induction l as [|x l IH]; [by apply elem_of_nil in Hin|].
  simpl. destruct (decide (note_merkleHash x = h)) as [Hx|Hx].
  - clear IH Hin. destruct x as [hx]. simpl in Hx. subst hx.
    pose proof (deleteDecryptedNote_spec h hash a)
      as (_ & Hnotes & Hnull & Htx & Hbal).
    rewrite Hone, lookup_singleton_eq in Hbal.
    rewrite Hone, delete_singleton_eq in Hnotes.
    assert (Hstep : deleteTransactionNote noteValue hash a {| note_merkleHash := h |}
                    = match nullifierHash note with
                      | Some n => deleteNullifier n (deleteDecryptedNote noteValue h hash a)
                      | None => deleteDecryptedNote noteValue h hash a
                      end).
    { unfold deleteTransactionNote, getDecryptedNote. simpl.
      by rewrite Hone, lookup_singleton_eq. }
    rewrite Hstep. clear Hstep.
    rewrite deleteTransactionNotes_empty;
      destruct (nullifierHash note) as [n|]; try done.
    destruct (deleteNullifier_spec n (deleteDecryptedNote noteValue h hash a))
      as (-> & -> & -> & ->).
    by rewrite Hnull.
  - rewrite deleteTransactionNote_absent.
    + apply IH. rewrite fmap_cons in Hin.
      apply elem_of_cons in Hin as [?|?]; [congruence|done].
    + rewrite Hone. by apply lookup_singleton_ne.
Qed.

Lemma processTransactionSpend_unresolved rem sp a :
  nullifierToNoteHash a !! spend_nullifier sp = None →
  processTransactionSpend noteValue rem sp a = Ok a.
Proof. unfold processTransactionSpend, getNoteHash. by intros ->. Qed.

Lemma processTransactionSpends_unresolved rem l a :
  (∀ sp, sp ∈ l → nullifierToNoteHash a !! spend_nullifier sp = None) →
  forOf (processTransactionSpend noteValue rem) l a = Ok a.
Proof.
  induction l as [|sp l IH]; intros Hnone; [done|].
  rewrite forOf_cons, processTransactionSpend_unresolved by (apply Hnone; left).
  simpl. apply IH. intros sp' Hin. apply Hnone. by right.
Qed.

(** On an account that holds exactly one note, unspent and listed among the
    outputs of transaction [T], where a spend of [T] can resolve through the
    Nullifier Index only by the nullifier recorded on that note,
    [deleteTransaction (hash T) T] completes; afterwards the note is absent
    from the decrypted-note index, the entry of the nullifier recorded on it
    is absent from the Nullifier Index, the record of [T] is absent, and the
    unconfirmed balance has decreased by exactly the value of the note. *)
Lemma deleteTransaction_single_note T a h note :
  decryptedNotes a = {[ h := note ]} →
  spent note = false →
  h ∈ note_merkleHash <$> notes T →
  (∀ sp, sp ∈ spends T →
     nullifierToNoteHash a !! spend_nullifier sp = None
     ∨ nullifierHash note = Some (spend_nullifier sp)) →
  ∃ a', deleteTransaction noteValue (unsignedHash T) T a = Ok a'
    ∧ decryptedNotes a' !! h = None
    ∧ (∀ n, nullifierHash note = Some n → nullifierToNoteHash a' !! n = None)
    ∧ transactions a' !! unsignedHash T = None
    ∧ getUnconfirmedBalance a'
      = getUnconfirmedBalance a - noteValue (serializedNote note).
Proof.
  intros Hone Hunspent Hin Hspends. unfold deleteTransaction.
  destruct (deleteTransactionNotes_single (unsignedHash T) a (notes T) h note
              Hone Hin) as (Hnotes & Hnull & Htx & Hbal).
  set (a1 := foldl _ a (notes T)) in *.
  assert (Hloop : forOf (deleteTransactionSpend noteValue) (spends T) a1 = Ok a1).
  { apply (processTransactionSpends_unresolved true). intros sp Hsp.
    rewrite Hnull. destruct (Hspends sp Hsp) as [Hnone|Hown].
    - destruct (nullifierHash note) as [n|]; [|done].
      rewrite lookup_delete_None. by right.
    - rewrite Hown. apply lookup_delete_eq. }
  rewrite Hloop. simpl. eexists. split; [done|].
  unfold getUnconfirmedBalance, AccountsDb.getUnconfirmedBalance in *. simpl.
  rewrite Hnotes, Hnull, Hbal, Hunspent. repeat split.
  - intros n ->. apply lookup_delete_eq.
  - apply lookup_delete_eq.
Qed.
End Deletion.

Lemma deleteTransaction_single_note_witness :
  decryptedNotes accountHolding = {[ noteHash := storedNote false ]}
  ∧ spent (storedNote false) = false
  ∧ noteHash ∈ note_merkleHash <$> notes receiveTx
  ∧ (∀ sp, sp ∈ spends receiveTx →
       nullifierToNoteHash accountHolding !! spend_nullifier sp = None
       ∨ nullifierHash (storedNote false) = Some (spend_nullifier sp))
  ∧ ∃ a', deleteTransaction firstByteValue (unsignedHash receiveTx) receiveTx
            accountHolding = Ok a'
      ∧ decryptedNotes a' !! noteHash = None
      ∧ nullifierToNoteHash a' !! noteNullifier = None
      ∧ transactions a' !! unsignedHash receiveTx = None
      ∧ getUnconfirmedBalance a' = 5 - 5.
Proof.
  assert (H3 : noteHash ∈ note_merkleHash <$> notes receiveTx)
    by apply list_elem_of_here.
  assert (H4 : ∀ sp, sp ∈ spends receiveTx →
                 nullifierToNoteHash accountHolding !! spend_nullifier sp = None
                 ∨ nullifierHash (storedNote false) = Some (spend_nullifier sp))
    by (intros sp Hsp; by apply elem_of_nil in Hsp).
  split; [reflexivity|]. split; [reflexivity|]. split; [exact H3|].
  split; [exact H4|].
  destruct (deleteTransaction_single_note firstByteValue receiveTx accountHolding
              noteHash (storedNote false) eq_refl eq_refl H3 H4)
    as (a' & Hok & Hn & Hnull & Htx & Hbal).
  exists a'. split; [exact Hok|]. split; [exact Hn|].
  split; [exact (Hnull noteNullifier eq_refl)|]. split; [exact Htx|exact Hbal].
Defined.

(** The last scenario of section 8: after the note was received, spent and
    un-spent again, deleting the receiving transaction leaves no note, no
    nullifier entry and no record, and takes the value of the note off the
    balance. *)
Lemma deleteTransaction_scenario :
  deleteTransaction firstByteValue (unsignedHash receiveTx) receiveTx account3
  = Ok account4
  ∧ getUnconfirmedBalance account3 = 5
  ∧ decryptedNotes account4 !! noteHash = None
  ∧ nullifierToNoteHash account4 !! noteNullifier = None
  ∧ transactions account4 !! unsignedHash receiveTx = None
  ∧ getUnconfirmedBalance account4 = 0.
Proof.
  split; [apply after_Ok; vm_compute; reflexivity|].
  repeat split; vm_compute; reflexivity.
Qed.

(** ** The sequence index after a reorganisation *)

(** Claim C5, evaluated where the code departs from it.  A transaction
    observed as mined at sequence 10 and then observed with the empty status
    leaves its note both in the Non-chain Note Set and in the bucket of
    sequence 10 of the Sequence Index: the two are not disjoint.  A [reset]
    after that empties the decrypted-note index and leaves the note in the
    Non-chain Note Set: the two no longer cover exactly the stored notes. *)
Theorem nonChain_overlaps_sequence_index :
  syncTransaction firstByteValue receiveTx [receivedNote] (ParamsMined blockA 10)
    account0 = Ok account1
  ∧ syncTransaction firstByteValue receiveTx [receivedNoteOffChain] ParamsNone
      account1 = Ok accountReorged
  ∧ nonChainNoteHashes accountReorged = [noteHash]
  ∧ noteHashesBySequence accountReorged !! 10 = Some [noteHash]
  ∧ nonChainNoteHashes (reset accountReorged) = [noteHash]
  ∧ decryptedNotes (reset accountReorged) !! noteHash = None.
Proof.
  split; [apply after_Ok; vm_compute; reflexivity|].
  split; [apply after_Ok; vm_compute; reflexivity|].
  repeat split; vm_compute; reflexivity.
Qed.

(** ** Saving and loading *)

Section SaveLoad.
Variable noteValue : Buffer → Z.

Lemma loadDecryptedNote_own h note a b :
  accountId note = id a →
  loadDecryptedNote noteValue (h, note) (a, b)
  = a1 ← saveDecryptedNoteSequence (transactionHash note) h
           (with_decryptedNotes (<[h := note]>) a);
    Ok (a1, if spent note then b else b + noteValue (serializedNote note)).
Proof. intros Hid. unfold loadDecryptedNote. by rewrite decide_True. Qed.

(** The loop of [loadDecryptedNotesAndBalance] over entries that all carry
    the account's id and can all be filed. *)
Lemma loadDecryptedNotes_loop (l : list (Buffer * DecryptedNoteValue)) a b :
  (∀ entry, entry ∈ l →
     accountId entry.2 = id a
     ∧ indexable (transactions a) (transactionHash entry.2)) →
  ∃ a', forOf (loadDecryptedNote noteValue) l (a, b)
        = Ok (a', b + foldr Z.add 0 ((λ entry, unspentValue noteValue entry.2) <$> l))
    ∧ id a' = id a
    ∧ decryptedNotes a' = foldl (λ m entry, <[entry.1 := entry.2]> m) (decryptedNotes a) l
    ∧ nullifierToNoteHash a' = nullifierToNoteHash a
    ∧ transactions a' = transactions a
    ∧ accountsDb a' = accountsDb a.
Proof.
  revert a b. induction l as [|[h note] l IH]; intros a b Hall.
  - exists a. simpl. rewrite Z.add_0_r. done.
  - destruct (Hall (h, note)) as [Hid Hix]; [by left|]. simpl in Hid, Hix.
    rewrite forOf_cons, loadDecryptedNote_own by done.
    destruct (saveDecryptedNoteSequence_is_Ok (transactionHash note) h
                (with_decryptedNotes (<[h := note]>) a)) as [a1 Ha1]; [done|].
    rewrite Ha1. simpl.
    apply saveDecryptedNoteSequence_Ok in Ha1
      as (_ & Hid1 & Hnotes1 & Hnull1 & Htx1 & Hdb1).
    simpl in Hid1, Hnotes1, Hnull1, Htx1, Hdb1.
    destruct (IH a1 (if spent note then b else b + noteValue (serializedNote note)))
      as (a' & Hloop & Hid' & Hnotes' & Hnull' & Htx' & Hdb').
    { intros entry Hin. rewrite Hid1, Htx1. apply Hall. by right. }
    exists a'. rewrite Hloop. split.
    + do 2 f_equal. unfold fmap, unspentValue at 2. simpl.
      destruct (spent note); lia.
    + rewrite Hid', Hnotes', Hnull', Htx', Hdb', Hnotes1. done.
Qed.

Lemma foldl_insert_list_to_map (l : list (Buffer * DecryptedNoteValue)) :
  foldl (λ m' entry, <[entry.1 := entry.2]> m') ∅ l
  = (list_to_map (reverse l) : gmap Buffer DecryptedNoteValue).
Proof.
  induction l as [|x l IH] using rev_ind; [done|].
  rewrite foldl_snoc, reverse_snoc, IH. by destruct x.
Qed.

Lemma foldl_insert_map_to_list (m : gmap Buffer DecryptedNoteValue) :
  foldl (λ m' entry, <[entry.1 := entry.2]> m') ∅ (map_to_list m) = m.
Proof.
  rewrite foldl_insert_list_to_map.
  rewrite (list_to_map_proper (reverse (map_to_list m)) (map_to_list m)).
  - apply list_to_map_to_list.
  - rewrite fmap_reverse, reverse_Permutation. apply NoDup_fst_map_to_list.
  - apply reverse_Permutation.
Qed.

(** Claim C9, amended.  For an account in which every stored note carries
    the id of the account and belongs to a recorded transaction that has a
    sequence whenever it has a block hash, and whose unconfirmed balance is
    the sum of the values of its unspent notes, [save] followed by [load] on
    a freshly constructed account over the same store completes and
    reproduces the decrypted-note index, the Nullifier Index, the transaction
    table and the unconfirmed balance. *)
Theorem save_load_roundtrip a :
  (∀ h note, decryptedNotes a !! h = Some note →
     accountId note = id a
     ∧ indexable (transactions a) (transactionHash note)) →
  getUnconfirmedBalance a = unspentTotal noteValue (decryptedNotes a) →
  ∃ a', load noteValue (newAccount (id a) (accountsDb (save a))) = Ok a'
    ∧ decryptedNotes a' = decryptedNotes a
    ∧ nullifierToNoteHash a' = nullifierToNoteHash a
    ∧ transactions a' = transactions a
    ∧ getUnconfirmedBalance a' = getUnconfirmedBalance a.
Proof.
  intros Hall Hbal. unfold load, loadDecryptedNotesAndBalance.
  match goal with
  | |- ∃ a', forOf _ ?l (?a0, 0) ≫= _ = _ ∧ _ =>
      destruct (loadDecryptedNotes_loop l a0 0) as (a1 & Hloop & Hid & Hnotes & Hnull & Htx & Hdb)
  end.
  { intros [h note] Hin. apply elem_of_map_to_list in Hin.
    unfold AccountsDb.loadTransactions. simpl in *.
    rewrite (right_id_L ∅ (∪)). by apply (Hall h). }
  rewrite Hloop. simpl. eexists. split; [done|].
  unfold AccountsDb.loadTransactions, AccountsDb.loadNullifierToNoteHash,
    AccountsDb.loadDecryptedNotes, getUnconfirmedBalance,
    AccountsDb.getUnconfirmedBalance, unspentTotal, sumZ in *.
  simpl in *. rewrite Hnotes, Hnull, Htx.
  rewrite foldl_insert_map_to_list, !(right_id_L ∅ (∪)).
  repeat split. by rewrite Hbal.
Qed.
End SaveLoad.

Lemma save_load_roundtrip_witness :
  (∀ h note, decryptedNotes accountHolding !! h = Some note →
     accountId note = id accountHolding
     ∧ indexable (transactions accountHolding) (transactionHash note))
  ∧ getUnconfirmedBalance accountHolding
    = unspentTotal firstByteValue (decryptedNotes accountHolding)
  ∧ ∃ a', load firstByteValue
            (newAccount (id accountHolding) (accountsDb (save accountHolding)))
          = Ok a'
      ∧ decryptedNotes a' = decryptedNotes accountHolding
      ∧ nullifierToNoteHash a' = nullifierToNoteHash accountHolding
      ∧ transactions a' = transactions accountHolding
      ∧ getUnconfirmedBalance a' = getUnconfirmedBalance accountHolding.
Proof.
  assert (H1 : ∀ h note, decryptedNotes accountHolding !! h = Some note →
                 accountId note = id accountHolding
                 ∧ indexable (transactions accountHolding) (transactionHash note)).
  { intros h note Hl.
    change (decryptedNotes accountHolding)
      with ({[ noteHash := storedNote false ]} : gmap Buffer DecryptedNoteValue) in Hl.
    apply lookup_singleton_Some in Hl as [<- <-]. split; [reflexivity|].
    unfold indexable. simpl. rewrite lookup_singleton_eq. right. by eexists. }
  assert (H2 : getUnconfirmedBalance accountHolding
               = unspentTotal firstByteValue (decryptedNotes accountHolding))
    by (vm_compute; reflexivity).
  split; [exact H1|]. split; [exact H2|].
  exact (save_load_roundtrip firstByteValue accountHolding H1 H2).
Defined.

(** The balance [load] writes is the one it recomputes from the notes. *)
Lemma save_load_changes_balance :
  syncTransaction firstByteValue receiveTx [receivedNote] (ParamsMined blockA 10)
    account0 = Ok account1
  ∧ syncTransaction firstByteValue spendTx [] (ParamsMined blockB 11) account1
    = Ok account2
  ∧ deleteTransaction firstByteValue (unsignedHash receiveTx) receiveTx account2
    = Ok accountForgotten
  ∧ load firstByteValue
      (newAccount (id accountForgotten) (accountsDb (save accountForgotten)))
    = Ok accountReloaded
  ∧ getUnconfirmedBalance accountForgotten = 5
  ∧ getUnconfirmedBalance accountReloaded = 0.
Proof.
  repeat (split; [apply after_Ok; vm_compute; reflexivity|]).
  split; vm_compute; reflexivity.
Qed.

(** ** Observing the same transaction twice *)

Section Repeat.
Variable noteValue : Buffer → Z.

(** *** The record after the first observation *)

Lemma upsertTransaction_record T p a :
  ∃ r, transactions (upsertTransaction T p a) !! unsignedHash T = Some r
    ∧ transaction r = T
    ∧ blockHash r = params_blockHash p
    ∧ submittedSequence r = mergedSubmittedSequence a T p.
Proof.
  unfold upsertTransaction, shouldUpdateTransaction, mergedSubmittedSequence.
  destruct (transactions a !! unsignedHash T) as [[rt rb rs rss]|] eqn:Hrec.
  - unfold Transaction_equals, equalsNullable.
    destruct (bool_decide_reflect (rt = T)) as [Ht|Ht];
      destruct (bool_decide_reflect (rb = params_blockHash p)) as [Hb|Hb];
      simpl; try (rewrite lookup_insert_eq; by eexists).
    rewrite Hrec. by eexists.
  - simpl. rewrite lookup_insert_eq. by eexists.
Qed.

Lemma upsertTransaction_again T p a r :
  transactions a !! unsignedHash T = Some r →
  transaction r = T →
  blockHash r = params_blockHash p →
  upsertTransaction T p a = a
  ∧ mergedSubmittedSequence a T p = submittedSequence r.
Proof.
  intros Hrec Ht Hb.
  unfold upsertTransaction, shouldUpdateTransaction, mergedSubmittedSequence.
  rewrite Hrec. destruct r as [rt rb rs rss]. simpl in *.
  unfold Transaction_equals, equalsNullable.
  by rewrite !bool_decide_eq_true_2.
Qed.

(** *** Registering the same nullifiers again *)

Lemma insertAll_agree l m m' :
  (∀ k, k ∉ l.*1 → m !! k = m' !! k) → insertAll l m = insertAll l m'.
Proof.
  revert m m'. induction l as [|[n h] l IH]; intros m m' Hagree.
  - apply map_eq. intros k. apply Hagree. apply not_elem_of_nil.
  - simpl. apply IH. intros k Hk.
    destruct (decide (n = k)) as [->|Hne].
    + by rewrite !lookup_insert_eq.
    + rewrite !lookup_insert_ne by done. apply Hagree.
      rewrite fmap_cons, not_elem_of_cons. simpl. split; [congruence|done].
Qed.

Lemma insertAll_outside l m k : k ∉ l.*1 → insertAll l m !! k = m !! k.
Proof.
  revert m. induction l as [|[n h] l IH]; intros m Hk; [done|].
  rewrite fmap_cons, not_elem_of_cons in Hk. destruct Hk as [Hne Hk].
  simpl in *. rewrite IH by done. apply lookup_insert_ne. congruence.
Qed.

Lemma insertAll_idemp l m : insertAll l (insertAll l m) = insertAll l m.
Proof. apply insertAll_agree. intros k Hk. by apply insertAll_outside. Qed.

(** *** What the loop over the decrypted notes leaves *)

Lemma bulkUpdateDecryptedNote_received th d a :
  dn_forSpender d = false →
  bulkUpdateDecryptedNote noteValue th d a
  = updateDecryptedNote noteValue (dn_merkleHash d)
      {| accountId := id a; nullifierHash := dn_nullifier d;
         noteIndex := dn_noteIndex d; serializedNote := dn_serializedNote d;
         spent := false; transactionHash := th |}
      match dn_nullifier d with
      | Some n => updateNullifierNoteHash n (dn_merkleHash d) a
      | None => a
      end.
Proof.
  intros Hd. unfold bulkUpdateDecryptedNote. rewrite Hd.
  by destruct (dn_nullifier d).
Qed.

Lemma receivedHashes_cons d ds :
  receivedHashes (d :: ds)
  = if dn_forSpender d then receivedHashes ds
    else dn_merkleHash d :: receivedHashes ds.
Proof.
  unfold receivedHashes. rewrite filter_cons.
  destruct (dn_forSpender d); [by rewrite decide_False|by rewrite decide_True].
Qed.

(** One iteration on a received note: the tables it leaves. *)
Lemma bulkUpdateDecryptedNote_Ok th d a a' :
  dn_forSpender d = false →
  bulkUpdateDecryptedNote noteValue th d a = Ok a' →
  indexable (transactions a) th
  ∧ nullifierToNoteHash a'
    = match dn_nullifier d with
      | Some n => <[n := dn_merkleHash d]> (nullifierToNoteHash a)
      | None => nullifierToNoteHash a
      end
  ∧ ∃ note, decryptedNotes a' = <[dn_merkleHash d := note]> (decryptedNotes a)
      ∧ spent note = false.
Proof.
  intros Hd. rewrite bulkUpdateDecryptedNote_received by done.
  intros (Hix & _ & _ & Hnull & Hnotes & _)%updateDecryptedNote_Ok.
  destruct (dn_nullifier d); simpl in *; eauto 10.
Qed.

Lemma bulkUpdateDecryptedNotes_Ok th ds a a' :
  bulkUpdateDecryptedNotes noteValue th ds a = Ok a' →
  (receivedHashes ds ≠ [] → indexable (transactions a) th)
  ∧ nullifierToNoteHash a' = insertAll (receivedNullifiers ds) (nullifierToNoteHash a)
  ∧ ∀ h, h ∈ receivedHashes ds →
      ∃ note, decryptedNotes a' !! h = Some note ∧ spent note = false.
Proof.
  unfold bulkUpdateDecryptedNotes. revert a.
  induction ds as [|d ds IH]; intros a Hloop.
  - injection Hloop as <-. repeat split; [done|]. intros h Hh.
    by apply elem_of_nil in Hh.
  - rewrite forOf_cons in Hloop. apply bind_Ok in Hloop as (a1 & Hstep & Hrest).
    pose proof (bulkUpdateDecryptedNote_noteStep _ _ _ _ _ Hstep) as (_ & Htx & _).
    destruct (IH _ Hrest) as (Hix & Hnull & Hnotes).
    rewrite receivedHashes_cons. unfold receivedNullifiers. simpl.
    fold (receivedNullifiers ds).
    destruct (dn_forSpender d) eqn:Hd.
    + rewrite bulkUpdateDecryptedNote_forSpender in Hstep by done.
      injection Hstep as <-. done.
    + destruct (bulkUpdateDecryptedNote_Ok _ _ _ _ Hd Hstep)
        as (Hix1 & Hnull1 & note & Hnotes1 & Hsp).
      split; [done|]. split.
      * rewrite Hnull, Hnull1. by destruct (dn_nullifier d).
      * intros h [->|Hh]%elem_of_cons; [|by apply Hnotes].
        destruct (decide (dn_merkleHash d ∈ receivedHashes ds)) as [Hin|Hout];
          [by apply Hnotes|].
        exists note. split; [|done].
        assert (Hkeep : ∀ s s', forOf (bulkUpdateDecryptedNote noteValue th) ds s = Ok s' →
                  dn_merkleHash d ∉ receivedHashes ds →
                  decryptedNotes s' !! dn_merkleHash d = decryptedNotes s !! dn_merkleHash d).
        { clear. induction ds as [|d' ds IH]; intros s s' Hl Hout.
          - by injection Hl as <-.
          - rewrite forOf_cons in Hl. apply bind_Ok in Hl as (s1 & Hs & Hr).
            rewrite receivedHashes_cons in Hout.
            destruct (dn_forSpender d') eqn:Hd'.
            + rewrite bulkUpdateDecryptedNote_forSpender in Hs by done.
              injection Hs as <-. by apply IH.
            + apply not_elem_of_cons in Hout as [Hne Hout].
              rewrite (IH _ _ Hr Hout).
              destruct (bulkUpdateDecryptedNote_Ok _ _ _ _ Hd' Hs)
                as (_ & _ & n' & -> & _).
              by apply lookup_insert_ne. }
        rewrite (Hkeep _ _ Hrest Hout), Hnotes1. apply lookup_insert_eq.
Qed.

(** The loop over the decrypted notes, run on an account in which every
    note it stores is already present and unspent: the balance stays. *)
Lemma bulkUpdateDecryptedNotes_again th ds a :
  (receivedHashes ds ≠ [] → indexable (transactions a) th) →
  (∀ h, h ∈ receivedHashes ds →
     ∃ note, decryptedNotes a !! h = Some note ∧ spent note = false) →
  ∃ a', bulkUpdateDecryptedNotes noteValue th ds a = Ok a'
    ∧ getUnconfirmedBalance a' = getUnconfirmedBalance a
    ∧ (∀ h, h ∉ receivedHashes ds → decryptedNotes a' !! h = decryptedNotes a !! h)
    ∧ ∃ ws, db_writes (accountsDb a') = db_writes (accountsDb a) ++ ws
        ∧ Forall (λ w, isSaveDecryptedNote w || isSaveNullifierNoteHash w) ws.
Proof.
  unfold bulkUpdateDecryptedNotes. revert a.
  induction ds as [|d ds IH]; intros a Hix Hnotes.
  - exists a. repeat split. exists []. by rewrite app_nil_r.
  - rewrite forOf_cons. rewrite receivedHashes_cons in Hix, Hnotes.
    destruct (dn_forSpender d) eqn:Hd.
    + rewrite bulkUpdateDecryptedNote_forSpender by done. simpl.
      destruct (IH a Hix Hnotes) as (a' & Hok & Hbal & Hframe & Hws).
      exists a'. repeat split; try done.
      intros h Hh. apply Hframe. by rewrite receivedHashes_cons, Hd in Hh.
    + rewrite bulkUpdateDecryptedNote_received by done.
      set (a0 := match dn_nullifier d with
                 | Some n => updateNullifierNoteHash n (dn_merkleHash d) a
                 | None => a
                 end).
      set (note := {| accountId := id a; nullifierHash := dn_nullifier d;
                      noteIndex := dn_noteIndex d;
                      serializedNote := dn_serializedNote d; spent := false;
                      transactionHash := th |}).
      assert (Ha0 : transactions a0 = transactions a
                    ∧ decryptedNotes a0 = decryptedNotes a
                    ∧ getUnconfirmedBalance a0 = getUnconfirmedBalance a
                    ∧ ∃ ws0, db_writes (accountsDb a0) = db_writes (accountsDb a) ++ ws0
                        ∧ Forall (λ w, isSaveDecryptedNote w || isSaveNullifierNoteHash w) ws0).
      { subst a0. destruct (dn_nullifier d) as [n|]; repeat split.
        - exists [SaveNullifierNoteHash n (dn_merkleHash d)]. split; [done|].
          by repeat constructor.
        - exists []. by rewrite app_nil_r. }
      destruct Ha0 as (Htx0 & Hnotes0 & Hbal0 & ws0 & Hws0 & Hf0).
      destruct (updateDecryptedNote_is_Ok noteValue (dn_merkleHash d) note a0)
        as [a1 Hstep].
      { rewrite Htx0. apply Hix. done. }
      rewrite Hstep. simpl.
      apply updateDecryptedNote_Ok in Hstep
        as (_ & _ & Htx1 & _ & Hnotes1 & Hbal1 & ws1 & Hws1 & _ & Hsame).
      destruct (Hnotes (dn_merkleHash d)) as (old & Hold & Hunspent); [by left|].
      rewrite Hnotes0, Hold in Hbal1, Hsame.
      unfold balanceChange in Hbal1. rewrite Hunspent in Hbal1, Hsame.
      simpl in Hbal1. specialize (Hsame eq_refl). subst ws1.
      destruct (IH a1) as (a' & Hok & Hbal & Hframe & ws & Hws & Hf).
      { intros _. rewrite Htx1, Htx0. by apply Hix. }
      { intros h Hh. rewrite Hnotes1, Hnotes0.
        destruct (decide (dn_merkleHash d = h)) as [->|Hne].
        - rewrite lookup_insert_eq. by exists note.
        - rewrite lookup_insert_ne by done. apply Hnotes. by right. }
      exists a'. split; [done|]. split; [lia|]. split.
      * intros h Hh. rewrite receivedHashes_cons, Hd in Hh.
        apply not_elem_of_cons in Hh as [Hne Hh].
        rewrite Hframe by done. rewrite Hnotes1, Hnotes0.
        by apply lookup_insert_ne.
      * exists (ws0 ++ [SaveDecryptedNote (dn_merkleHash d) note] ++ ws).
        rewrite Hws, Hws1, Hws0, <- !app_assoc. split; [done|].
        apply Forall_app. split; [done|]. by apply Forall_cons.
Qed.

(** *** The loop over the spends *)

(** A spend touches only the note its nullifier resolves to. *)
Lemma processTransactionSpends_other T rem a a' h :
  processTransactionSpends noteValue T rem a = Ok a' →
  (∀ sp, sp ∈ spends T → nullifierToNoteHash a !! spend_nullifier sp ≠ Some h) →
  decryptedNotes a' !! h = decryptedNotes a !! h.
Proof.
  unfold processTransactionSpends. generalize (spends T) as l. intros l.
  revert a. induction l as [|sp l IH]; intros a Hloop Hother.
  - by injection Hloop as <-.
  - rewrite forOf_cons in Hloop. apply bind_Ok in Hloop as (a1 & Hstep & Hrest).
    pose proof (processTransactionSpend_noteStep _ _ _ _ _ Hstep) as [_ Hnull].
    rewrite (IH a1 Hrest).
    + unfold processTransactionSpend, getNoteHash, getDecryptedNote in Hstep.
      destruct (nullifierToNoteHash a !! spend_nullifier sp) as [h'|] eqn:Hn;
        [|by injection Hstep as <-].
      destruct (decryptedNotes a !! h') as [d|]; [|done].
      apply updateDecryptedNote_Ok in Hstep as (_ & _ & _ & _ & -> & _).
      apply lookup_insert_ne. intros ->. by eapply Hother; [left|].
    + intros sp' Hin. rewrite Hnull. apply Hother. by right.
Qed.

(** The loop over the spends, run on an account in which every note a spend
    resolves to already carries the flag of the call: the balance stays. *)
Lemma processTransactionSpends_again T rem a :
  (∀ sp h, sp ∈ spends T →
     nullifierToNoteHash a !! spend_nullifier sp = Some h →
     spendSettled (negb rem) a h) →
  ∃ a', processTransactionSpends noteValue T rem a = Ok a'
    ∧ getUnconfirmedBalance a' = getUnconfirmedBalance a
    ∧ ∃ ws, db_writes (accountsDb a') = db_writes (accountsDb a) ++ ws
        ∧ Forall (λ w, isSaveDecryptedNote w || isSaveNullifierNoteHash w) ws.
Proof.
  unfold processTransactionSpends. generalize (spends T) as l. intros l.
  revert a. induction l as [|sp l IH]; intros a Hset.
  - exists a. repeat split. exists []. by rewrite app_nil_r.
  - rewrite forOf_cons.
    assert (Hstep : ∃ a1, processTransactionSpend noteValue rem sp a = Ok a1
              ∧ getUnconfirmedBalance a1 = getUnconfirmedBalance a
              ∧ ∃ ws, db_writes (accountsDb a1) = db_writes (accountsDb a) ++ ws
                  ∧ Forall (λ w, isSaveDecryptedNote w || isSaveNullifierNoteHash w) ws).
    { unfold processTransactionSpend, getNoteHash, getDecryptedNote.
      destruct (nullifierToNoteHash a !! spend_nullifier sp) as [h|] eqn:Hn.
      - destruct (Hset sp h) as (note & Hnote & Hsp & Hix); [by left|done|].
        rewrite Hnote.
        destruct (updateDecryptedNote_is_Ok noteValue h
                    (with_spent (negb rem) note) a) as [a1 Ha1]; [done|].
        exists a1. split; [done|].
        apply updateDecryptedNote_Ok in Ha1
          as (_ & _ & _ & _ & _ & Hbal & ws & Hws & _ & Hsame).
        rewrite Hnote in Hbal, Hsame. unfold balanceChange in Hbal.
        simpl in Hbal, Hsame. rewrite Hsp, eqb_reflx in Hbal.
        specialize (Hsame Hsp). subst ws. split; [lia|].
        eexists. split; [done|]. by repeat constructor.
      - exists a. repeat split. exists []. by rewrite app_nil_r. }
    destruct Hstep as (a1 & Hstep & Hbal1 & ws1 & Hws1 & Hf1).
    rewrite Hstep. simpl.
    pose proof (processTransactionSpend_noteStep _ _ _ _ _ Hstep) as [_ Hnull].
    destruct (IH a1) as (a' & Hok & Hbal & ws & Hws & Hf).
    { intros sp' h Hin Hn. rewrite Hnull in Hn.
      eapply processTransactionSpend_settled_keep; [exact Hstep|done|].
      apply (Hset sp'); [by right|done]. }
    exists a'. split; [done|]. split; [lia|].
    exists (ws1 ++ ws). rewrite Hws, Hws1, app_assoc. split; [done|].
    by apply Forall_app.
Qed.

(** Claim C1, amended.  When a completed [syncTransaction] is repeated at
    once with the same transaction, the same decrypted notes and the same
    status, and no spend of the transaction resolves to a note the call
    itself delivers, the second call completes, leaves the unconfirmed
    balance as it was, and issues no write other than [saveDecryptedNote] and
    [saveNullifierNoteHash]: no [saveTransaction] and no
    [saveUnconfirmedBalance]. *)
Theorem syncTransaction_repeated T ds p a a1 :
  syncTransaction noteValue T ds p a = Ok a1 →
  (∀ sp h, sp ∈ spends T →
     nullifierToNoteHash a1 !! spend_nullifier sp = Some h →
     h ∉ receivedHashes ds) →
  ∃ a2, syncTransaction noteValue T ds p a1 = Ok a2
    ∧ getUnconfirmedBalance a2 = getUnconfirmedBalance a1
    ∧ Forall (λ w, isSaveDecryptedNote w || isSaveNullifierNoteHash w)
        (writesSince a1 a2).
Proof.
  intros Hsync Hapart. unfold syncTransaction in Hsync.
  apply bind_Ok in Hsync as (b1 & Hbulk & Hspends).
  (* what the first call established *)
  destruct (upsertTransaction_record T p a) as (r & Hrec & Hrt & Hrb & Hrs).
  pose proof (bulkUpdateDecryptedNotes_noteStep _ _ _ _ _ Hbulk) as (_ & Htxb & _).
  pose proof (processTransactionSpends_noteStep _ _ _ _ _ Hspends)
    as [(_ & Htxs & _) Hnulls].
  destruct (bulkUpdateDecryptedNotes_Ok _ _ _ _ Hbulk) as (Hix & Hnullb & Hrecv).
  pose proof (processTransactionSpends_settled _ _ _ _ _ Hspends) as Hsettled.
  assert (Htx : transactions a1 = transactions (upsertTransaction T p a))
    by congruence.
  (* the record is not rewritten, and the call is a removal as before *)
  destruct (upsertTransaction_again T p a1 r) as [Hup Hms];
    [by rewrite Htx|done|done|].
  assert (Hrem : isRemovingTransaction a1 T p = isRemovingTransaction a T p).
  { unfold isRemovingTransaction. by rewrite Hms, Hrs. }
  unfold syncTransaction. rewrite Hup, Hrem.
  (* the notes *)
  destruct (bulkUpdateDecryptedNotes_again (unsignedHash T) ds a1)
    as (b2 & Hbulk2 & Hbal2 & Hframe2 & ws2 & Hws2 & Hf2).
  { by rewrite Htx. }
  { intros h Hh. destruct (Hrecv h Hh) as (note & Hnote & Hsp).
    exists note. split; [|done].
    rewrite (processTransactionSpends_other _ _ _ _ h Hspends); [done|].
    intros sp Hin Hn. rewrite <- Hnulls in Hn. by eapply Hapart. }
  rewrite Hbulk2. simpl.
  destruct (bulkUpdateDecryptedNotes_Ok _ _ _ _ Hbulk2) as (_ & Hnull2 & _).
  assert (Hnull2' : nullifierToNoteHash b2 = nullifierToNoteHash a1).
  { rewrite Hnull2, Hnulls, Hnullb. apply insertAll_idemp. }
  pose proof (bulkUpdateDecryptedNotes_noteStep _ _ _ _ _ Hbulk2) as (_ & Htx2 & _).
  (* the spends *)
  destruct (processTransactionSpends_again T (isRemovingTransaction a T p) b2)
    as (a2 & Hspends2 & Hbal3 & ws3 & Hws3 & Hf3).
  { intros sp h Hin Hn. rewrite Hnull2' in Hn.
    destruct (Hsettled sp h Hin Hn) as (note & Hnote & Hspent & Hixn).
    exists note. rewrite Hframe2 by (by eapply Hapart). by rewrite Htx2. }
  exists a2. split; [done|]. split; [lia|].
  rewrite (writesSince_app a1 a2 (ws2 ++ ws3)).
  - by apply Forall_app.
  - by rewrite Hws3, Hws2, app_assoc.
Qed.
End Repeat.

Lemma syncTransaction_repeated_witness :
  syncTransaction firstByteValue spendTx [] (ParamsMined blockB 11) account1
  = Ok account2
  ∧ (∀ sp h, sp ∈ spends spendTx →
       nullifierToNoteHash account2 !! spend_nullifier sp = Some h →
       h ∉ receivedHashes [])
  ∧ ∃ a2, syncTransaction firstByteValue spendTx [] (ParamsMined blockB 11)
            account2 = Ok a2
      ∧ getUnconfirmedBalance a2 = getUnconfirmedBalance account2
      ∧ Forall (λ w, isSaveDecryptedNote w || isSaveNullifierNoteHash w)
          (writesSince account2 a2).
Proof.
  assert (Hok : syncTransaction firstByteValue spendTx [] (ParamsMined blockB 11)
                  account1 = Ok account2)
    by (apply after_Ok; vm_compute; reflexivity).
  assert (Hapart : ∀ sp h, sp ∈ spends spendTx →
                     nullifierToNoteHash account2 !! spend_nullifier sp = Some h →
                     h ∉ receivedHashes [])
    by (intros sp h _ _; apply not_elem_of_nil).
  split; [exact Hok|]. split; [exact Hapart|].
  exact (syncTransaction_repeated firstByteValue spendTx []
           (ParamsMined blockB 11) account1 account2 Hok Hapart).
Defined.

(** The second of two identical observations writes the note and its
    nullifier entry again. *)
Lemma syncTransaction_repeated_writes :
  syncTransaction firstByteValue receiveTx [receivedNote] (ParamsMined blockA 10)
    account0 = Ok account1
  ∧ syncTransaction firstByteValue receiveTx [receivedNote] (ParamsMined blockA 10)
      account1 = Ok account1Again
  ∧ writesSince account1 account1Again
    = [SaveNullifierNoteHash noteNullifier noteHash;
       SaveDecryptedNote noteHash (storedNote false)].
Proof.
  split; [apply after_Ok; vm_compute; reflexivity|].
  split; [apply after_Ok; vm_compute; reflexivity|].
  vm_compute; reflexivity.
Qed.

(** Why the theorem asks that no spend resolves to a delivered note: when a
    transaction spends the note it delivers, the second observation first
    un-spends the note and then spends it again.  The balance ends where it
    was, through two [saveUnconfirmedBalance] writes. *)
Lemma syncTransaction_repeated_self_spend :
  syncTransaction firstByteValue selfSpendTx [receivedNote] (ParamsMined blockA 10)
    account0 = Ok accountSelfSpend
  ∧ syncTransaction firstByteValue selfSpendTx [receivedNote]
      (ParamsMined blockA 10) accountSelfSpend = Ok accountSelfSpendAgain
  ∧ getUnconfirmedBalance accountSelfSpend = 0
  ∧ getUnconfirmedBalance accountSelfSpendAgain = 0
  ∧ filter isSaveUnconfirmedBalance
      (writesSince accountSelfSpend accountSelfSpendAgain)
    = [SaveUnconfirmedBalance 5; SaveUnconfirmedBalance 0].
Proof.
  split; [apply after_Ok; vm_compute; reflexivity|].
  split; [apply after_Ok; vm_compute; reflexivity|].
  repeat split; vm_compute; reflexivity.
Qed.

(** ** The confirmed balance on consistent indices *)

Section ConfirmedBalance.
Variable noteValue : Buffer → Z.

Lemma sumZ_Permutation l k : l ≡ₚ k → sumZ l = sumZ k.
Proof. unfold sumZ. induction 1; simpl; lia. Qed.

Lemma sumZ_fmap_ext {A} (f g : A → Z) l :
  (∀ x, x ∈ l → f x = g x) → sumZ (f <$> l) = sumZ (g <$> l).
Proof.
  unfold sumZ. induction l as [|x l IH]; intros Hext; [done|].
  rewrite !fmap_cons. simpl. rewrite (Hext x) by left.
  rewrite IH; [done|]. intros y Hy. apply Hext. by right.
Qed.

Lemma sumZ_fmap_add {A} (f g : A → Z) l :
  sumZ ((λ x, f x + g x) <$> l) = sumZ (f <$> l) + sumZ (g <$> l).
Proof. unfold sumZ. induction l as [|x l IH]; [done|]. rewrite !fmap_cons. simpl. lia. Qed.

Lemma sumZ_fmap_zero {A} (l : list A) : sumZ ((λ _, 0) <$> l) = 0.
Proof. unfold sumZ. induction l as [|x l IH]; [done|]. rewrite fmap_cons. simpl. lia. Qed.

Lemma sumZ_filter {A} (P : A → Prop) `{∀ x, Decision (P x)} (f : A → Z) l :
  sumZ (f <$> filter P l) = sumZ ((λ x, if decide (P x) then f x else 0) <$> l).
Proof.
  unfold sumZ. induction l as [|x l IH]; [done|].
  rewrite filter_cons, fmap_cons. simpl.
  destruct (decide (P x)); [rewrite fmap_cons; simpl|]; lia.
Qed.

Lemma subtractUnspent_stored a h note c :
  decryptedNotes a !! h = Some note →
  subtractUnspent noteValue a h c = Ok (c - unspentValue noteValue note).
Proof.
  intros Hnote. unfold subtractUnspent, unspentValue. rewrite Hnote.
  destruct (spent note); f_equal; lia.
Qed.

(** The inner loop of [getBalance] over hashes that are all stored. *)
Lemma subtractUnspent_loop a hs c :
  (∀ h, h ∈ hs → is_Some (decryptedNotes a !! h)) →
  forOf (subtractUnspent noteValue a) hs c
  = Ok (c - sumZ (unspentValueAt noteValue a <$> hs)).
Proof.
  revert c. induction hs as [|h hs IH]; intros c Hall.
  - simpl. f_equal. unfold sumZ. simpl. lia.
  - rewrite forOf_cons. destruct (Hall h) as [note Hnote]; [by left|].
    rewrite (subtractUnspent_stored _ _ _ _ Hnote), bind_Ok_l.
    rewrite IH by (intros; apply Hall; by right). f_equal.
    assert (Hh : unspentValueAt noteValue a h = unspentValue noteValue note)
      by (unfold unspentValueAt; by rewrite Hnote).
    rewrite fmap_cons, Hh. unfold sumZ. simpl. lia.
Qed.

(** One bucket against the note table: the unspent values listed in a
    bucket of a consistent index add up to those of the stored notes whose
    owning transaction has the sequence of the bucket. *)
Lemma bucket_sum a s :
  indicesConsistent a →
  sumZ (unspentValueAt noteValue a <$> default [] (noteHashesBySequence a !! s))
  = sumZ ((λ entry, if decide (owningSequence a entry.2 = Some s)
                    then unspentValue noteValue entry.2 else 0)
            <$> map_to_list (decryptedNotes a)).
Proof.
  intros (Hnodup & Hiff & _).
  rewrite <- (sumZ_filter (λ entry, owningSequence a entry.2 = Some s)
                (λ entry, unspentValue noteValue entry.2)).
  set (F := filter (λ entry, owningSequence a entry.2 = Some s)
              (map_to_list (decryptedNotes a))).
  transitivity (sumZ (unspentValueAt noteValue a <$> F.*1)).
  - apply sumZ_Permutation, fmap_Permutation, NoDup_Permutation.
    + destruct (noteHashesBySequence a !! s) as [hs|] eqn:Hb; simpl;
        [by eapply Hnodup|apply NoDup_nil_2].
    + apply (sublist_NoDup _ (map_to_list (decryptedNotes a)).*1);
        [apply NoDup_fst_map_to_list|apply fmap_sublist, sublist_filter].
    + intros h. split.
      * intros Hh.
        assert (Hex : ∃ hs, noteHashesBySequence a !! s = Some hs ∧ h ∈ hs).
        { destruct (noteHashesBySequence a !! s) as [hs|]; simpl in Hh;
            [by exists hs|by apply elem_of_nil in Hh]. }
        apply Hiff in Hex as (note & Hnote & Hseq).
        apply list_elem_of_fmap. exists (h, note). split; [done|].
        apply list_elem_of_filter. split; [done|].
        by apply elem_of_map_to_list.
      * intros ([h' note] & -> & [Hseq Hin]%list_elem_of_filter)%list_elem_of_fmap.
        apply elem_of_map_to_list in Hin. simpl in *.
        destruct (proj2 (Hiff s h')) as (hs & Hb & Hh); [by exists note|].
        by rewrite Hb.
  - rewrite <- list_fmap_compose. apply sumZ_fmap_ext.
    intros [h note] [_ Hin%elem_of_map_to_list]%list_elem_of_filter.
    simpl. unfold unspentValueAt. by rewrite Hin.
Qed.

(** The outer loop of [getBalance] over distinct sequences. *)
Lemma subtractSequence_loop a (seqs : list Z) c :
  indicesConsistent a →
  NoDup seqs →
  forOf (subtractSequence noteValue a) seqs c
  = Ok (c - sumZ ((λ entry,
                     match owningSequence a entry.2 with
                     | Some s => if decide (s ∈ seqs)
                                 then unspentValue noteValue entry.2 else 0
                     | None => 0
                     end) <$> map_to_list (decryptedNotes a))).
Proof.
  intros Hcons. revert c. induction seqs as [|s seqs IH]; intros c Hnd.
  - simpl. f_equal. rewrite (sumZ_fmap_ext _ (λ _, 0)).
    + rewrite sumZ_fmap_zero. lia.
    + intros e _. cbv beta. by destruct (owningSequence a e.2).
  - apply NoDup_cons in Hnd as [Hs Hnd]. rewrite forOf_cons.
    assert (Hstep : subtractSequence noteValue a s c
                    = Ok (c - sumZ (unspentValueAt noteValue a
                                      <$> default [] (noteHashesBySequence a !! s)))).
    { unfold subtractSequence.
      destruct (noteHashesBySequence a !! s) as [hs|] eqn:Hb; simpl.
      - apply subtractUnspent_loop. intros h Hh.
        destruct Hcons as (_ & Hiff & _).
        destruct (proj1 (Hiff s h)) as (note & Hnote & _); [by exists hs|].
        by exists note.
      - f_equal. unfold sumZ. simpl. lia. }
    rewrite Hstep. simpl. rewrite IH by done. f_equal.
    rewrite bucket_sum by done.
    rewrite <- Z.sub_add_distr, <- sumZ_fmap_add. f_equal.
    apply sumZ_fmap_ext. intros e _. cbv beta.
    destruct (owningSequence a e.2) as [s'|]; [|by rewrite decide_False].
    destruct (decide (s' = s)) as [->|Hne].
    + rewrite decide_True by done. rewrite decide_False by done.
      rewrite decide_True by left. lia.
    + rewrite decide_False by congruence.
      destruct (decide (s' ∈ seqs)) as [Hin|Hout].
      * rewrite decide_True by (by right). lia.
      * rewrite decide_False; [lia|]. rewrite not_elem_of_cons. done.
Qed.

(** On consistent indices [getBalance] returns the confirmed balance the
    specification describes. *)
Lemma getBalance_consistent a start head :
  indicesConsistent a →
  getBalance noteValue start head a
  = Ok (getUnconfirmedBalance a, specConfirmedBalance noteValue start head a).
Proof.
  intros Hcons. unfold getBalance.
  rewrite subtractSequence_loop by (done || apply NoDup_seqZ). simpl.
  rewrite subtractUnspent_loop by apply Hcons. simpl.
  unfold specConfirmedBalance. do 4 f_equal.
  apply sumZ_fmap_ext. intros e _. cbv beta. unfold inSequenceRange.
  destruct (owningSequence a e.2) as [s|]; [|done].
  destruct (decide (s ∈ seqZ start (head - start))) as [Hin|Hout].
  - apply elem_of_seqZ in Hin.
    rewrite !bool_decide_eq_true_2 by lia. done.
  - rewrite elem_of_seqZ in Hout.
    destruct (bool_decide_reflect (start ≤ s)), (bool_decide_reflect (s < head));
      simpl; try done. lia.
Qed.
End ConfirmedBalance.

(** Where the indices are consistent (each bucket of the Sequence Index
    lists, without repetition, exactly the stored notes whose owning
    transaction has that sequence, and every hash of the Non-chain Note Set
    is a stored note), [getBalance] returns the unconfirmed balance and, as
    confirmed, the unconfirmed balance minus the value of every unspent note
    whose owning transaction's sequence lies in
    [[confirmationStartSequence, headSequence)], minus the value of every
    unspent note in the non-chain set.  So it does after one mined
    receive-note of value 5 at sequence 10 is synced into an empty
    account. *)
Lemma getBalance_confirmed :
  (∀ noteValue a start head,
     indicesConsistent a →
     getBalance noteValue start head a
     = Ok (getUnconfirmedBalance a, specConfirmedBalance noteValue start head a))
  ∧ syncTransaction firstByteValue receiveTx [receivedNote] (ParamsMined blockA 10)
      account0 = Ok account1
  ∧ getUnconfirmedBalance account1 = 5
  ∧ getBalance firstByteValue 5 12 account1 = Ok (5, 0)
  ∧ getBalance firstByteValue 11 12 account1 = Ok (5, 5).
Proof.
  split; [intros; by apply getBalance_consistent|].
  split; [apply after_Ok; vm_compute; reflexivity|].
  repeat split; vm_compute; reflexivity.
Qed.

Lemma accountHolding_consistent : indicesConsistent accountHolding.
Proof.
  assert (Hseq : owningSequence accountHolding (storedNote false) = Some 10)
    by (vm_compute; reflexivity).
  split; [|split].
  - intros s hs Hb.
    change (noteHashesBySequence accountHolding)
      with ({[ 10 := [noteHash] ]} : gmap Z (list Buffer)) in Hb.
    apply lookup_singleton_Some in Hb as [_ <-]. apply NoDup_singleton.
  - intros s h.
    change (noteHashesBySequence accountHolding)
      with ({[ 10 := [noteHash] ]} : gmap Z (list Buffer)).
    change (decryptedNotes accountHolding)
      with ({[ noteHash := storedNote false ]} : gmap Buffer DecryptedNoteValue).
    split.
    + intros (hs & [<- <-]%lookup_singleton_Some & ->%list_elem_of_singleton).
      exists (storedNote false). by rewrite lookup_singleton_eq.
    + intros (note & [<- <-]%lookup_singleton_Some & Hs).
      rewrite Hseq in Hs. injection Hs as <-.
      exists [noteHash]. rewrite lookup_singleton_eq. split; [done|by left].
  - intros h Hh. by apply elem_of_nil in Hh.
Qed.

Lemma getBalance_confirmed_witness :
  indicesConsistent accountHolding
  ∧ getBalance firstByteValue 5 12 accountHolding
    = Ok (getUnconfirmedBalance accountHolding,
          specConfirmedBalance firstByteValue 5 12 accountHolding).
Proof.
  split; [exact accountHolding_consistent|].
  exact (proj1 getBalance_confirmed firstByteValue accountHolding 5 12
           accountHolding_consistent).
Defined.

(** Claim C3, evaluated where the code departs from it.  After one mined
    receive-note of value 5 at sequence 10 is synced into an empty account
    the unconfirmed balance is 5, [getBalance 5 12] gives confirmed 0 and
    [getBalance 11 12] gives confirmed 5, as the claim says.  When the
    transaction is then observed with the empty status, its note is
    subtracted twice, once for the bucket of sequence 10, where it stayed,
    and once for the non-chain set: [getBalance 10 11] gives confirmed -5
    where the claim gives 0.  When it is instead observed as mined at
    sequence 12, the note stays in the bucket of sequence 10 as well:
    [getBalance 10 11] gives confirmed 0 where the claim gives 5, and
    [getBalance 10 13] gives -5 where the claim gives 0. *)
Theorem getBalance_after_reorg :
  syncTransaction firstByteValue receiveTx [receivedNote] (ParamsMined blockA 10)
    account0 = Ok account1
  ∧ getUnconfirmedBalance account1 = 5
  ∧ getBalance firstByteValue 5 12 account1 = Ok (5, 0)
  ∧ getBalance firstByteValue 11 12 account1 = Ok (5, 5)
  ∧ syncTransaction firstByteValue receiveTx [receivedNoteOffChain] ParamsNone
      account1 = Ok accountReorged
  ∧ getBalance firstByteValue 10 11 accountReorged = Ok (5, -5)
  ∧ specConfirmedBalance firstByteValue 10 11 accountReorged = 0
  ∧ syncTransaction firstByteValue receiveTx [receivedNote] (ParamsMined blockB 12)
      account1 = Ok accountRemined
  ∧ getBalance firstByteValue 10 11 accountRemined = Ok (5, 0)
  ∧ specConfirmedBalance firstByteValue 10 11 accountRemined = 5
  ∧ getBalance firstByteValue 10 13 accountRemined = Ok (5, -5)
  ∧ specConfirmedBalance firstByteValue 10 13 accountRemined = 0.
Proof.
  split; [apply after_Ok; vm_compute; reflexivity|].
  do 3 (split; [vm_compute; reflexivity|]).
  split; [apply after_Ok; vm_compute; reflexivity|].
  do 2 (split; [vm_compute; reflexivity|]).
  split; [apply after_Ok; vm_compute; reflexivity|].
  repeat split; vm_compute; reflexivity.
Qed.

(** * Further properties of the engine *)

(** ** Buffer sets *)

Lemma BufferSet_elem_of_add x h s : x ∈ BufferSet.add h s ↔ x = h ∨ x ∈ s.
Proof.
  unfold BufferSet.add. destruct (decide (h ∈ s)) as [Hin|Hout].
  - split; [by right|]. by intros [->|?].
  - rewrite elem_of_app, list_elem_of_singleton. tauto.
Qed.

Lemma BufferSet_elem_of_delete x h s : x ∈ BufferSet.delete h s ↔ x ≠ h ∧ x ∈ s.
Proof. unfold BufferSet.delete. by rewrite list_elem_of_filter. Qed.

Lemma BufferSet_NoDup_add h s : NoDup s → NoDup (BufferSet.add h s).
Proof.
  intros Hnd. unfold BufferSet.add. destruct (decide (h ∈ s)); [done|].
  apply NoDup_app. split; [done|]. split; [|apply NoDup_singleton].
  intros x Hx ->%list_elem_of_singleton. done.
Qed.

Lemma BufferSet_NoDup_delete h s : NoDup s → NoDup (BufferSet.delete h s).
Proof. apply NoDup_filter. Qed.

(** ** Updating one note *)

Section UpdateOutcome.
Variable noteValue : Buffer → Z.

Lemma saveDecryptedNoteSequence_files th h a a' record :
  saveDecryptedNoteSequence th h a = Ok a' →
  transactions a !! th = Some record →
  match blockHash record, sequence record with
  | Some _, Some s =>
      filedAt a' s h ∧ (h ∉ nonChainNoteHashes a')
      ∧ (∀ s' h', filedAt a s' h' → filedAt a' s' h')
      ∧ (∀ h', h' ∈ nonChainNoteHashes a' ↔ (h' ≠ h ∧ h' ∈ nonChainNoteHashes a))
  | _, _ =>
      h ∈ nonChainNoteHashes a'
      ∧ noteHashesBySequence a' = noteHashesBySequence a
      ∧ (∀ h', h' ∈ nonChainNoteHashes a' ↔ (h' = h ∨ h' ∈ nonChainNoteHashes a))
  end.
Proof.
  unfold saveDecryptedNoteSequence, filedAt. intros Hok Hrec. rewrite Hrec in Hok.
  destruct (blockHash record) as [b|].
  - destruct (sequence record) as [s|]; [|done]. injection Hok as <-. simpl.
    split; [|split; [|split]].
    + eexists. rewrite lookup_insert_eq. split; [done|].
      apply BufferSet_elem_of_add. by left.
    + rewrite BufferSet_elem_of_delete. by intros [? _].
    + intros s' h' (hs & Hb & Hh).
      destruct (decide (s = s')) as [->|Hne].
      * eexists. rewrite lookup_insert_eq. split; [done|].
        apply BufferSet_elem_of_add. right. by rewrite Hb.
      * exists hs. by rewrite lookup_insert_ne.
    + intros h'. apply BufferSet_elem_of_delete.
  - injection Hok as <-. simpl.
    assert (Hadd : ∀ h', h' ∈ BufferSet.add h (nonChainNoteHashes a)
                    ↔ h' = h ∨ h' ∈ nonChainNoteHashes a)
      by (intros; apply BufferSet_elem_of_add).
    destruct (sequence record); (split; [apply Hadd; by left|done]).
Qed.

(** How [updateDecryptedNote] ends: it throws when the transaction of the
    note is not recorded, throws when that transaction has a block hash and
    no sequence, and otherwise completes with the note stored under its hash
    and every other stored note as it was. *)
Theorem updateDecryptedNote_outcome h note a :
  match transactions a !! transactionHash note with
  | None =>
      updateDecryptedNote noteValue h note a
      = Throw (TransactionUndefined (transactionHash note))
  | Some record =>
      match blockHash record, sequence record with
      | Some _, None =>
          updateDecryptedNote noteValue h note a = Throw SequenceRequired
      | _, _ =>
          ∃ a', updateDecryptedNote noteValue h note a = Ok a'
            ∧ decryptedNotes a' !! h = Some note
            ∧ ∀ h', h' ≠ h → decryptedNotes a' !! h' = decryptedNotes a !! h'
      end
  end.
Proof.
  destruct (transactions a !! transactionHash note) as [record|] eqn:Hrec.
  - assert (Hok : indexable (transactions a) (transactionHash note) →
              ∃ a', updateDecryptedNote noteValue h note a = Ok a'
                ∧ decryptedNotes a' !! h = Some note
                ∧ ∀ h', h' ≠ h → decryptedNotes a' !! h' = decryptedNotes a !! h').
    { intros Hix. destruct (updateDecryptedNote_is_Ok noteValue h note a Hix)
        as [a' Ha']. exists a'. split; [done|].
      apply updateDecryptedNote_Ok in Ha' as (_ & _ & _ & _ & -> & _).
      split; [apply lookup_insert_eq|]. intros h' Hne. by apply lookup_insert_ne. }
    unfold indexable in Hok. rewrite Hrec in Hok.
    destruct (blockHash record) as [b|] eqn:Hb.
    + destruct (sequence record) as [s|] eqn:Hs; [apply Hok; right; by eexists|].
      unfold updateDecryptedNote, saveDecryptedNoteSequence.
      repeat case_match; simpl in *; simplify_eq; try done.
    + apply Hok. by left.
  - unfold updateDecryptedNote, saveDecryptedNoteSequence.
    repeat case_match; simpl in *; simplify_eq; try done.
Qed.

(** Where a completed [updateDecryptedNote] files the hash of the note: in
    the bucket of the sequence of its transaction, and out of the non-chain
    set, when the transaction has a block hash; in the non-chain set, with
    every bucket left as it was, when it has none. *)
Theorem updateDecryptedNote_files h note a a' record :
  updateDecryptedNote noteValue h note a = Ok a' →
  transactions a !! transactionHash note = Some record →
  match blockHash record, sequence record with
  | Some _, Some s => filedAt a' s h ∧ h ∉ nonChainNoteHashes a'
  | _, _ =>
      h ∈ nonChainNoteHashes a'
      ∧ noteHashesBySequence a' = noteHashesBySequence a
  end.
Proof.
  unfold updateDecryptedNote. intros (a1 & Hseq & [= <-])%bind_Ok Hrec.
  assert (Hrec1 : ∃ a0, saveDecryptedNoteSequence (transactionHash note) h a0 = Ok a1
                    ∧ transactions a0 !! transactionHash note = Some record
                    ∧ noteHashesBySequence a0 = noteHashesBySequence a
                    ∧ nonChainNoteHashes a0 = nonChainNoteHashes a).
  { eexists. split; [exact Hseq|]. by repeat case_match. }
  destruct Hrec1 as (a0 & Hseq0 & Hrec0 & Hb0 & Hn0).
  pose proof (saveDecryptedNoteSequence_files _ _ _ _ _ Hseq0 Hrec0) as Hf.
  simpl. destruct (blockHash record), (sequence record);
    destruct Hf as (H1 & H2 & _); (split; [done|congruence || done]).
Qed.
End UpdateOutcome.

Lemma updateDecryptedNote_files_witness :
  let a' := after account1
              (updateDecryptedNote firstByteValue noteHash (storedNote true) account1) in
  let record := {| transaction := receiveTx; blockHash := Some blockA;
                   sequence := Some 10; submittedSequence := None |} in
  updateDecryptedNote firstByteValue noteHash (storedNote true) account1 = Ok a'
  ∧ transactions account1 !! transactionHash (storedNote true) = Some record
  ∧ filedAt a' 10 noteHash ∧ noteHash ∉ nonChainNoteHashes a'.
Proof.
  intros a' record.
  assert (Hok : updateDecryptedNote firstByteValue noteHash (storedNote true)
                  account1 = Ok a')
    by (apply after_Ok; vm_compute; reflexivity).
  assert (Hrec : transactions account1 !! transactionHash (storedNote true)
                 = Some record) by (vm_compute; reflexivity).
  split; [exact Hok|]. split; [exact Hrec|].
  exact (updateDecryptedNote_files firstByteValue noteHash (storedNote true)
           account1 a' record Hok Hrec).
Defined.

(** ** The status of a transaction *)

Section Status.
Variable noteValue : Buffer → Z.

Lemma bulkUpdateDecryptedNotes_filter th ds a :
  bulkUpdateDecryptedNotes noteValue th ds a
  = bulkUpdateDecryptedNotes noteValue th
      (filter (λ d, dn_forSpender d = false) ds) a.
Proof.
  unfold bulkUpdateDecryptedNotes. revert a.
  induction ds as [|d ds IH]; intros a; [done|].
  rewrite filter_cons. destruct (dn_forSpender d) eqn:Hd.
  - rewrite decide_False by done.
    rewrite forOf_cons, bulkUpdateDecryptedNote_forSpender, bind_Ok_l by done.
    apply IH.
  - rewrite decide_True by done. rewrite !forOf_cons.
    destruct (bulkUpdateDecryptedNote noteValue th d a); simpl; [apply IH|done].
Qed.

(** The entries flagged [forSpender] play no part: the call does what it
    does on the list without them, to the last write. *)
Theorem syncTransaction_ignores_forSpender T ds p a :
  syncTransaction noteValue T ds p a
  = syncTransaction noteValue T (filter (λ d, dn_forSpender d = false) ds) p a.
Proof. unfold syncTransaction. by rewrite bulkUpdateDecryptedNotes_filter. Qed.

(** For a transaction that has a record, the submitted sequence of the
    status is never read: observing it as pending does what observing it
    with the empty status does, and is a removal exactly when the record
    holds no submitted sequence. *)
Theorem syncTransaction_pending_recorded T ds s a record :
  transactions a !! unsignedHash T = Some record →
  syncTransaction noteValue T ds (ParamsPending s) a
  = syncTransaction noteValue T ds ParamsNone a
  ∧ isRemovingTransaction a T (ParamsPending s)
    = bool_decide (submittedSequence record = None).
Proof.
  intros Hrec.
  assert (Hm : ∀ p, mergedSubmittedSequence a T p = submittedSequence record)
    by (intros p; unfold mergedSubmittedSequence; by rewrite Hrec).
  assert (Hrem : ∀ p, params_blockHash p = None →
            isRemovingTransaction a T p
            = bool_decide (submittedSequence record = None)).
  { intros p Hp. unfold isRemovingTransaction. rewrite Hm, Hp.
    rewrite (bool_decide_eq_true_2 (None = None)) by done.
    apply andb_true_r. }
  split; [|by apply Hrem].
  unfold syncTransaction, upsertTransaction, shouldUpdateTransaction.
  by rewrite !Hm, !Hrem.
Qed.

End Status.

Lemma syncTransaction_pending_recorded_witness :
  let record := {| transaction := spendTx; blockHash := Some blockB;
                   sequence := Some 11; submittedSequence := None |} in
  transactions account2 !! unsignedHash spendTx = Some record
  ∧ syncTransaction firstByteValue spendTx [] (ParamsPending 12) account2
    = syncTransaction firstByteValue spendTx [] ParamsNone account2
  ∧ isRemovingTransaction account2 spendTx (ParamsPending 12) = true.
Proof.
  intros record.
  assert (Hrec : transactions account2 !! unsignedHash spendTx = Some record)
    by (vm_compute; reflexivity).
  split; [exact Hrec|].
  exact (syncTransaction_pending_recorded firstByteValue spendTx [] 12 account2
           record Hrec).
Defined.


(** ** When no assertion fires *)

Section Soundness.
Variable noteValue : Buffer → Z.

(** A loop whose every iteration completes and keeps an invariant completes
    and keeps it. *)
Lemma forOf_completes {A S : Type} (body : A → S → Result S) (P : S → Prop)
    (xs : list A) :
  (∀ x s, x ∈ xs → P s → ∃ s', body x s = Ok s' ∧ P s') →
  ∀ s, P s → ∃ s', forOf body xs s = Ok s' ∧ P s'.
Proof.
  induction xs as [|x xs IH]; intros Hbody s HP; [by exists s|].
  rewrite forOf_cons. destruct (Hbody x s) as (s1 & -> & HP1); [by left|done|].
  rewrite bind_Ok_l. apply IH; [|done].
  intros y t Hy. apply Hbody. by right.
Qed.

Lemma ledgerSound_indexable a h note :
  ledgerSound a → decryptedNotes a !! h = Some note →
  indexable (transactions a) (transactionHash note).
Proof.
  intros (_ & Hseq & Hown) Hnote. destruct (Hown h note Hnote) as [r Hr].
  unfold indexable. rewrite Hr. by eapply Hseq.
Qed.

Lemma updateDecryptedNote_ledgerSound h note a :
  ledgerSound a →
  is_Some (transactions a !! transactionHash note) →
  ∃ a', updateDecryptedNote noteValue h note a = Ok a' ∧ ledgerSound a'.
Proof.
  intros (Hres & Hseq & Hown) [r Hr].
  destruct (updateDecryptedNote_is_Ok noteValue h note a) as [a' Ha'].
  { unfold indexable. rewrite Hr. by eapply Hseq. }
  exists a'. split; [done|].
  pose proof (updateDecryptedNote_nullifiersResolve _ _ _ _ _ Ha' Hres) as Hres'.
  apply updateDecryptedNote_Ok in Ha' as (_ & _ & Htx & _ & Hnotes & _).
  split; [done|]. split.
  - intros k rec. rewrite Htx. apply Hseq.
  - intros k n. rewrite Hnotes, Htx. intros Hk.
    destruct (decide (h = k)) as [->|Hne].
    + rewrite lookup_insert_eq in Hk. injection Hk as <-. by exists r.
    + rewrite lookup_insert_ne in Hk by done. by eapply Hown.
Qed.

Lemma upsertTransaction_ledgerSound T p a :
  ledgerSound a → ledgerSound (upsertTransaction T p a).
Proof.
  intros (Hres & Hseq & Hown). unfold upsertTransaction.
  destruct (shouldUpdateTransaction a T p); [|done].
  split; [done|]. split.
  - intros h rec. simpl. destruct (decide (unsignedHash T = h)) as [->|Hne].
    + rewrite lookup_insert_eq. intros [= <-]. simpl.
      destruct p; simpl; eauto.
    + rewrite lookup_insert_ne by done. apply Hseq.
  - intros h note Hnote. simpl.
    destruct (decide (unsignedHash T = transactionHash note)) as [->|Hne].
    + rewrite lookup_insert_eq. by eexists.
    + rewrite lookup_insert_ne by done. by eapply Hown.
Qed.

Lemma bulkUpdateDecryptedNote_ledgerSound th d a :
  ledgerSound a →
  is_Some (transactions a !! th) →
  ∃ a', bulkUpdateDecryptedNote noteValue th d a = Ok a'
    ∧ ledgerSound a' ∧ transactions a' = transactions a.
Proof.
  intros Hsound [r Hr]. destruct (dn_forSpender d) eqn:Hd.
  { rewrite bulkUpdateDecryptedNote_forSpender by done. by exists a. }
  assert (Hstep : ∃ a', bulkUpdateDecryptedNote noteValue th d a = Ok a').
  { rewrite bulkUpdateDecryptedNote_received by done.
    apply updateDecryptedNote_is_Ok. simpl.
    assert (Hix : indexable (transactions a) th).
    { unfold indexable. rewrite Hr. destruct Hsound as (_ & Hseq & _).
      by eapply Hseq. }
    by destruct (dn_nullifier d). }
  destruct Hstep as [a' Ha']. exists a'. split; [done|].
  destruct Hsound as (Hres & Hseq & Hown).
  pose proof (bulkUpdateDecryptedNote_nullifiersResolve _ _ _ _ _ Ha' Hres) as Hres'.
  pose proof (bulkUpdateDecryptedNote_noteStep _ _ _ _ _ Ha') as (_ & Htx & _).
  rewrite bulkUpdateDecryptedNote_received in Ha' by done.
  apply updateDecryptedNote_Ok in Ha' as (_ & _ & _ & _ & Hnotes & _).
  assert (Hnotes' : decryptedNotes a'
                    = <[dn_merkleHash d :=
                          {| accountId := id a; nullifierHash := dn_nullifier d;
                             noteIndex := dn_noteIndex d;
                             serializedNote := dn_serializedNote d;
                             spent := false; transactionHash := th |}]>
                        (decryptedNotes a))
    by (rewrite Hnotes; by destruct (dn_nullifier d)).
  clear Hnotes. split; [|done]. split; [done|]. split.
  - intros k rec. rewrite Htx. apply Hseq.
  - intros k n. rewrite Hnotes', Htx. intros Hk.
    destruct (decide (dn_merkleHash d = k)) as [<-|Hne].
    + rewrite lookup_insert_eq in Hk. injection Hk as <-. by exists r.
    + rewrite lookup_insert_ne in Hk by done. by eapply Hown.
Qed.

Lemma processTransactionSpend_ledgerSound rem sp a :
  ledgerSound a →
  ∃ a', processTransactionSpend noteValue rem sp a = Ok a' ∧ ledgerSound a'.
Proof.
  intros Hsound. unfold processTransactionSpend, getNoteHash, getDecryptedNote.
  destruct (nullifierToNoteHash a !! spend_nullifier sp) as [h|] eqn:Hn;
    [|by exists a].
  destruct Hsound as (Hres & Hseq & Hown).
  destruct (Hres _ _ Hn) as [note Hnote]. rewrite Hnote.
  apply updateDecryptedNote_ledgerSound; [done|]. simpl. by eapply Hown.
Qed.

(** The three conditions are kept, and under them the call completes. *)
Lemma syncTransaction_ledgerSound T ds p a :
  ledgerSound a →
  ∃ a', syncTransaction noteValue T ds p a = Ok a' ∧ ledgerSound a'.
Proof.
  intros Hsound. unfold syncTransaction.
  apply (upsertTransaction_ledgerSound T p) in Hsound.
  destruct (upsertTransaction_record T p a) as (r & Hrec & _).
  set (a0 := upsertTransaction T p a) in *.
  destruct (forOf_completes (bulkUpdateDecryptedNote noteValue (unsignedHash T))
              (λ s, ledgerSound s ∧ transactions s = transactions a0) ds)
    with (s := a0) as (a1 & Hbulk & Hsound1 & _); [|done|].
  { intros d s _ [Hs Htx].
    destruct (bulkUpdateDecryptedNote_ledgerSound (unsignedHash T) d s)
      as (s' & Hs' & Hsound' & Htx'); [done|by rewrite Htx, Hrec|].
    exists s'. split; [done|]. split; [done|congruence]. }
  unfold bulkUpdateDecryptedNotes. rewrite Hbulk, bind_Ok_l.
  apply (forOf_completes _ ledgerSound); [|done].
  intros sp s _ Hs. by apply processTransactionSpend_ledgerSound.
Qed.

(** On an account where every entry of the Nullifier Index points at a
    stored note, every stored note belongs to a recorded transaction and
    every recorded transaction with a block hash has a sequence,
    [syncTransaction] completes whatever it is given, and the account it
    leaves satisfies the same three conditions. *)
Theorem syncTransaction_completes T ds p a :
  ledgerSound a →
  ∃ a', syncTransaction noteValue T ds p a = Ok a' ∧ ledgerSound a'.
Proof. exact (syncTransaction_ledgerSound T ds p a). Qed.

(** The empty account satisfies the three conditions, so every account
    reached from it by completed calls of [syncTransaction] does. *)
Lemma newAccount_ledgerSound i db : ledgerSound (newAccount i db).
Proof. repeat split; intros ??; simpl; by rewrite lookup_empty. Qed.

(** No sequence of observations on a new account trips an assertion: every
    one of them completes, and the account reached satisfies the three
    conditions. *)
Theorem syncAll_completes calls i db :
  ∃ a', syncAll noteValue calls (newAccount i db) = Ok a' ∧ ledgerSound a'.
Proof.
  apply (forOf_completes _ ledgerSound); [|apply newAccount_ledgerSound].
  intros call s _ Hs. by apply syncTransaction_ledgerSound.
Qed.
End Soundness.

Lemma syncTransaction_completes_witness :
  ledgerSound account0
  ∧ ∃ a', syncTransaction firstByteValue receiveTx [receivedNote]
            (ParamsMined blockA 10) account0 = Ok a'
      ∧ ledgerSound a'.
Proof.
  split; [apply newAccount_ledgerSound|].
  exact (syncTransaction_completes firstByteValue receiveTx [receivedNote]
           (ParamsMined blockA 10) account0
           (newAccount_ledgerSound "account" AccountsDb.empty)).
Defined.

(** ** The balance and the unspent notes *)

Section Balance.
Variable noteValue : Buffer → Z.

Lemma unspentTotal_insert_None (m : gmap Buffer DecryptedNoteValue) h note :
  m !! h = None →
  unspentTotal noteValue (<[h := note]> m)
  = unspentValue noteValue note + unspentTotal noteValue m.
Proof.
  intros Hnone. unfold unspentTotal.
  rewrite (sumZ_Permutation _ _
             (fmap_Permutation _ _ _ (map_to_list_insert m h note Hnone))).
  by rewrite fmap_cons.
Qed.

Lemma unspentTotal_insert (m : gmap Buffer DecryptedNoteValue) h note :
  unspentTotal noteValue (<[h := note]> m)
  = unspentTotal noteValue m
    - from_option (unspentValue noteValue) 0 (m !! h)
    + unspentValue noteValue note.
Proof.
  destruct (m !! h) as [old|] eqn:Hold; simpl.
  - rewrite <- (insert_delete_eq m h note).
    rewrite <- (insert_delete_id m h old Hold) at 2.
    rewrite !unspentTotal_insert_None by apply lookup_delete_eq. lia.
  - rewrite unspentTotal_insert_None by done. lia.
Qed.

Lemma unspentTotal_delete (m : gmap Buffer DecryptedNoteValue) h :
  unspentTotal noteValue (delete h m)
  = unspentTotal noteValue m - from_option (unspentValue noteValue) 0 (m !! h).
Proof.
  destruct (m !! h) as [old|] eqn:Hold; simpl.
  - rewrite <- (insert_delete_id m h old Hold) at 2.
    rewrite unspentTotal_insert_None by apply lookup_delete_eq. lia.
  - rewrite delete_id by done. lia.
Qed.

(** [updateDecryptedNote] keeps the balance equal to the sum of the unspent
    values when a new hash comes unspent and a stored hash keeps its value. *)
Lemma updateDecryptedNote_balanced h note a a' :
  updateDecryptedNote noteValue h note a = Ok a' →
  balanced noteValue a →
  match decryptedNotes a !! h with
  | Some old => noteValue (serializedNote old) = noteValue (serializedNote note)
  | None => spent note = false
  end →
  balanced noteValue a'.
Proof.
  intros (_ & _ & _ & _ & Hnotes & Hbal & _)%updateDecryptedNote_Ok Hb Hcond.
  unfold balanced in *. rewrite Hbal, Hnotes, unspentTotal_insert, Hb.
  unfold balanceChange, unspentValue.
  destruct (decryptedNotes a !! h) as [old|]; simpl.
  - rewrite Hcond. destruct (spent old), (spent note); simpl; lia.
  - rewrite Hcond. lia.
Qed.

Lemma bulkUpdateDecryptedNote_balanced valueOf th d a a' :
  bulkUpdateDecryptedNote noteValue th d a = Ok a' →
  (dn_forSpender d = false →
   noteValue (dn_serializedNote d) = valueOf (dn_merkleHash d)) →
  balanced noteValue a ∧ storedValues noteValue valueOf a →
  balanced noteValue a' ∧ storedValues noteValue valueOf a'.
Proof.
  intros Hstep Hd [Hb Hv]. destruct (dn_forSpender d) eqn:Hfor.
  { rewrite bulkUpdateDecryptedNote_forSpender in Hstep by done.
    by injection Hstep as <-. }
  specialize (Hd eq_refl).
  rewrite bulkUpdateDecryptedNote_received in Hstep by done.
  set (a0 := match dn_nullifier d with
             | Some n => updateNullifierNoteHash n (dn_merkleHash d) a
             | None => a
             end) in *.
  assert (Ha0 : decryptedNotes a0 = decryptedNotes a
                ∧ getUnconfirmedBalance a0 = getUnconfirmedBalance a)
    by (subst a0; by destruct (dn_nullifier d)).
  destruct Ha0 as [Hnotes0 Hbal0].
  split.
  - eapply updateDecryptedNote_balanced; [exact Hstep| |].
    + unfold balanced. by rewrite Hbal0, Hnotes0.
    + rewrite Hnotes0. destruct (decryptedNotes a !! dn_merkleHash d) as [old|] eqn:Hold;
        [|done]. simpl. rewrite Hd. by eapply Hv.
  - apply updateDecryptedNote_Ok in Hstep as (_ & _ & _ & _ & Hnotes & _).
    intros k n. rewrite Hnotes, Hnotes0. intros Hk.
    destruct (decide (dn_merkleHash d = k)) as [<-|Hne].
    + rewrite lookup_insert_eq in Hk. by injection Hk as <-.
    + rewrite lookup_insert_ne in Hk by done. by eapply Hv.
Qed.

Lemma processTransactionSpend_balanced valueOf rem sp a a' :
  processTransactionSpend noteValue rem sp a = Ok a' →
  balanced noteValue a ∧ storedValues noteValue valueOf a →
  balanced noteValue a' ∧ storedValues noteValue valueOf a'.
Proof.
  unfold processTransactionSpend, getNoteHash, getDecryptedNote.
  intros Hstep [Hb Hv].
  destruct (nullifierToNoteHash a !! spend_nullifier sp) as [h|];
    [|by injection Hstep as <-].
  destruct (decryptedNotes a !! h) as [old|] eqn:Hold; [|done].
  split.
  - eapply updateDecryptedNote_balanced; [exact Hstep|done|]. by rewrite Hold.
  - apply updateDecryptedNote_Ok in Hstep as (_ & _ & _ & _ & Hnotes & _).
    intros k n. rewrite Hnotes. intros Hk.
    destruct (decide (h = k)) as [<-|Hne].
    + rewrite lookup_insert_eq in Hk. injection Hk as <-. simpl. by eapply Hv.
    + rewrite lookup_insert_ne in Hk by done. by eapply Hv.
Qed.

(** The balance stays the sum of the unspent values across a call. *)
Lemma syncTransaction_keeps_balanced valueOf T ds p a a' :
  syncTransaction noteValue T ds p a = Ok a' →
  balanced noteValue a →
  storedValues noteValue valueOf a →
  deliveredValues noteValue valueOf ds →
  balanced noteValue a' ∧ storedValues noteValue valueOf a'.
Proof.
  unfold syncTransaction. intros (a1 & Hbulk & Hspends)%bind_Ok Hb Hv Hd.
  assert (H0 : balanced noteValue (upsertTransaction T p a)
               ∧ storedValues noteValue valueOf (upsertTransaction T p a)).
  { unfold upsertTransaction. by destruct (shouldUpdateTransaction a T p). }
  assert (H1 : balanced noteValue a1 ∧ storedValues noteValue valueOf a1).
  { eapply (forOf_invariant _ (λ s, balanced noteValue s ∧ storedValues noteValue valueOf s) ds); [|exact H0|exact Hbulk].
    intros d s s' Hin Hs Hstep.
    eapply bulkUpdateDecryptedNote_balanced; [exact Hstep| |exact Hs].
    by apply Hd. }
  eapply (forOf_invariant _ (λ s, balanced noteValue s ∧ storedValues noteValue valueOf s) (spends T)); [|exact H1|exact Hspends].
  intros sp s s' _ Hs Hstep. by eapply processTransactionSpend_balanced.
Qed.

(** When the value of a note is a function of its hash, for the stored notes
    and for the delivered ones, a completed [syncTransaction] keeps the
    unconfirmed balance equal to the sum of the values of the unspent
    notes. *)
Theorem syncTransaction_balanced valueOf T ds p a a' :
  syncTransaction noteValue T ds p a = Ok a' →
  balanced noteValue a →
  storedValues noteValue valueOf a →
  deliveredValues noteValue valueOf ds →
  balanced noteValue a' ∧ storedValues noteValue valueOf a'.
Proof. exact (syncTransaction_keeps_balanced valueOf T ds p a a'). Qed.

(** The sum of the values of the notes [getUnspentNotes] lists. *)
Lemma unspentTotal_getUnspentNotes a :
  unspentTotal noteValue (decryptedNotes a)
  = sumZ ((λ entry, noteValue (ne_note entry)) <$> getUnspentNotes a).
Proof.
  unfold unspentTotal, getUnspentNotes, getNotes.
  induction (map_to_list (decryptedNotes a)) as [|[h n] l IH]; [done|].
  rewrite !fmap_cons, filter_cons.
  destruct (decide (ne_spent (noteEntry (h, n)) = false)) as [Hs|Hs];
    simpl in Hs; unfold sumZ in *; rewrite ?fmap_cons; simpl;
    unfold unspentValue at 1; simpl.
  - rewrite Hs. by rewrite IH.
  - apply not_false_is_true in Hs. rewrite Hs. by rewrite IH.
Qed.

(** On a new account over a store whose balance is zero, after any sequence
    of observations in which the value of a note is a function of its hash,
    the unconfirmed balance is the sum of the values of the notes
    [getUnspentNotes] lists. *)
Theorem syncAll_balance valueOf calls i db a' :
  db_unconfirmedBalance db = 0 →
  (∀ call, call ∈ calls → deliveredValues noteValue valueOf call.1.2) →
  syncAll noteValue calls (newAccount i db) = Ok a' →
  getUnconfirmedBalance a'
  = sumZ ((λ entry, noteValue (ne_note entry)) <$> getUnspentNotes a').
Proof.
  intros Hzero Hcalls Hall. rewrite <- unspentTotal_getUnspentNotes.
  assert (H : balanced noteValue a' ∧ storedValues noteValue valueOf a').
  { eapply (forOf_invariant _ (λ s, balanced noteValue s ∧ storedValues noteValue valueOf s) calls); [| |exact Hall].
    - intros call s s' Hin [Hb Hv] Hstep.
      eapply syncTransaction_keeps_balanced; [exact Hstep|done|done|by apply Hcalls].
    - split; [|intros h n; simpl; by rewrite lookup_empty].
      unfold balanced, getUnconfirmedBalance, AccountsDb.getUnconfirmedBalance.
      simpl. by rewrite Hzero. }
  apply H.
Qed.
End Balance.

Lemma syncTransaction_balanced_witness :
  let valueOf := λ _ : Buffer, 5 in
  syncTransaction firstByteValue receiveTx [receivedNote] (ParamsMined blockA 10)
    account0 = Ok account1
  ∧ balanced firstByteValue account0
  ∧ storedValues firstByteValue valueOf account0
  ∧ deliveredValues firstByteValue valueOf [receivedNote]
  ∧ balanced firstByteValue account1
  ∧ storedValues firstByteValue valueOf account1.
Proof.
  intros valueOf.
  assert (Hok : syncTransaction firstByteValue receiveTx [receivedNote]
                  (ParamsMined blockA 10) account0 = Ok account1)
    by (apply after_Ok; vm_compute; reflexivity).
  assert (Hb : balanced firstByteValue account0) by (vm_compute; reflexivity).
  assert (Hv : storedValues firstByteValue valueOf account0)
    by (intros h n; simpl; by rewrite lookup_empty).
  assert (Hd : deliveredValues firstByteValue valueOf [receivedNote])
    by (intros d ->%list_elem_of_singleton _; reflexivity).
  split; [exact Hok|]. split; [exact Hb|]. split; [exact Hv|].
  split; [exact Hd|].
  exact (syncTransaction_balanced firstByteValue valueOf receiveTx
           [receivedNote] (ParamsMined blockA 10) account0 account1
           Hok Hb Hv Hd).
Defined.

Lemma syncAll_balance_witness :
  let calls := [ (receiveTx, [receivedNote], ParamsMined blockA 10);
                 (spendTx, [], ParamsMined blockB 11) ] in
  let a' := after account0 (syncAll firstByteValue calls account0) in
  db_unconfirmedBalance AccountsDb.empty = 0
  ∧ (∀ call, call ∈ calls →
       deliveredValues firstByteValue (λ _, 5) call.1.2)
  ∧ syncAll firstByteValue calls (newAccount "account" AccountsDb.empty) = Ok a'
  ∧ getUnconfirmedBalance a'
    = sumZ ((λ entry, firstByteValue (ne_note entry)) <$> getUnspentNotes a').
Proof.
  intros calls a'.
  assert (Hcalls : ∀ call, call ∈ calls →
                     deliveredValues firstByteValue (λ _, 5) call.1.2).
  { intros call Hin d Hd _.
    apply elem_of_cons in Hin as [->|Hin].
    - apply list_elem_of_singleton in Hd as ->. reflexivity.
    - apply list_elem_of_singleton in Hin as ->. by apply elem_of_nil in Hd. }
  assert (Hok : syncAll firstByteValue calls (newAccount "account" AccountsDb.empty)
                = Ok a')
    by (apply after_Ok; vm_compute; reflexivity).
  split; [reflexivity|]. split; [exact Hcalls|]. split; [exact Hok|].
  exact (syncAll_balance firstByteValue (λ _, 5) calls "account"
           AccountsDb.empty a' eq_refl Hcalls Hok).
Defined.

(** ** The indices after an observation *)

Section AfterSync.
Variable noteValue : Buffer → Z.

Lemma insertAll_snoc l n h m :
  insertAll (l ++ [(n, h)]) m = <[n := h]> (insertAll l m).
Proof. unfold insertAll. by rewrite foldl_snoc. Qed.

Lemma insertAll_lookup_in l m n :
  n ∈ l.*1 → ∃ h, (n, h) ∈ l ∧ insertAll l m !! n = Some h.
Proof.
  induction l as [|[n' h'] l IH] using rev_ind; intros Hin.
  - by apply elem_of_nil in Hin.
  - rewrite insertAll_snoc. destruct (decide (n' = n)) as [->|Hne].
    + exists h'. rewrite lookup_insert_eq. split; [|done].
      apply elem_of_app. right. by left.
    + rewrite fmap_app, elem_of_app in Hin. destruct Hin as [Hin|Hin].
      * destruct (IH Hin) as (h & Hh & Hl). exists h.
        rewrite lookup_insert_ne by done. split; [|done].
        apply elem_of_app. by left.
      * simpl in Hin. apply list_elem_of_singleton in Hin. congruence.
Qed.

(** What a completed [syncTransaction] does to the Nullifier Index: it
    registers the nullifiers of the delivered notes, in order, and nothing
    else.  No entry is ever removed, an entry under another nullifier is
    left as it was, and the entry under a delivered nullifier points at a
    note delivered with that nullifier. *)
Theorem syncTransaction_nullifiers T ds p a a' :
  syncTransaction noteValue T ds p a = Ok a' →
  nullifierToNoteHash a'
  = insertAll (receivedNullifiers ds) (nullifierToNoteHash a)
  ∧ (∀ n, is_Some (nullifierToNoteHash a !! n) →
          is_Some (nullifierToNoteHash a' !! n))
  ∧ (∀ n, n ∉ (receivedNullifiers ds).*1 →
          nullifierToNoteHash a' !! n = nullifierToNoteHash a !! n)
  ∧ (∀ n, n ∈ (receivedNullifiers ds).*1 →
          ∃ h, (n, h) ∈ receivedNullifiers ds
            ∧ nullifierToNoteHash a' !! n = Some h).
Proof.
  unfold syncTransaction. intros (a1 & Hbulk & Hspends)%bind_Ok.
  pose proof (processTransactionSpends_noteStep _ _ _ _ _ Hspends) as [_ Hnulls].
  destruct (bulkUpdateDecryptedNotes_Ok _ _ _ _ _ Hbulk) as (_ & Hnullb & _).
  assert (Heq : nullifierToNoteHash a'
                = insertAll (receivedNullifiers ds) (nullifierToNoteHash a)).
  { rewrite Hnulls, Hnullb. f_equal. unfold upsertTransaction.
    by destruct (shouldUpdateTransaction a T p). }
  split; [done|]. rewrite Heq. split; [|split].
  - intros n Hn. destruct (decide (n ∈ (receivedNullifiers ds).*1)) as [Hin|Hout].
    + destruct (insertAll_lookup_in _ (nullifierToNoteHash a) n Hin) as (h & _ & ->).
      by eexists.
    + by rewrite insertAll_outside.
  - intros n Hout. by apply insertAll_outside.
  - intros n Hin. by apply insertAll_lookup_in.
Qed.

(** *** Where the touched notes are filed *)

Lemma updateDecryptedNote_index h note a a' :
  updateDecryptedNote noteValue h note a = Ok a' →
  ∃ record, transactions a !! transactionHash note = Some record
    ∧ match blockHash record, sequence record with
      | Some _, Some s =>
          filedAt a' s h ∧ (h ∉ nonChainNoteHashes a')
          ∧ (∀ s' h', filedAt a s' h' → filedAt a' s' h')
          ∧ (∀ h', h' ∈ nonChainNoteHashes a'
                   ↔ (h' ≠ h ∧ h' ∈ nonChainNoteHashes a))
      | _, _ =>
          h ∈ nonChainNoteHashes a'
          ∧ noteHashesBySequence a' = noteHashesBySequence a
          ∧ (∀ h', h' ∈ nonChainNoteHashes a'
                   ↔ (h' = h ∨ h' ∈ nonChainNoteHashes a))
      end.
Proof.
  intros Hok.
  pose proof (updateDecryptedNote_Ok _ _ _ _ _ Hok) as (Hix & _).
  unfold indexable in Hix.
  destruct (transactions a !! transactionHash note) as [record|] eqn:Hrec;
    [|done].
  exists record. split; [done|].
  unfold updateDecryptedNote in Hok. apply bind_Ok in Hok as (a1 & Hseq & [= <-]).
  assert (Hrec1 : ∃ a0, saveDecryptedNoteSequence (transactionHash note) h a0 = Ok a1
                    ∧ transactions a0 !! transactionHash note = Some record
                    ∧ noteHashesBySequence a0 = noteHashesBySequence a
                    ∧ nonChainNoteHashes a0 = nonChainNoteHashes a).
  { eexists. split; [exact Hseq|]. by repeat case_match. }
  destruct Hrec1 as (a0 & Hseq0 & Hrec0 & Hb0 & Hn0).
  pose proof (saveDecryptedNoteSequence_files _ _ _ _ _ Hseq0 Hrec0) as Hf.
  unfold filedAt in *. simpl. rewrite <- Hb0, <- Hn0.
  by destruct (blockHash record), (sequence record).
Qed.

Lemma updateDecryptedNote_filed_new h note a a' :
  updateDecryptedNote noteValue h note a = Ok a' → filedByStatus a' h.
Proof.
  intros Hok.
  destruct (updateDecryptedNote_index _ _ _ _ Hok) as (record & Hrec & Hf).
  apply updateDecryptedNote_Ok in Hok as (_ & _ & Htx & _ & Hnotes & _).
  exists note, record. rewrite Hnotes, Htx, lookup_insert_eq.
  split; [done|]. split; [done|].
  destruct (blockHash record), (sequence record); tauto.
Qed.

Lemma updateDecryptedNote_filed_keep h0 h note a a' :
  updateDecryptedNote noteValue h note a = Ok a' →
  filedByStatus a h0 → filedByStatus a' h0.
Proof.
  intros Hok Hfiled. destruct (decide (h0 = h)) as [->|Hne];
    [by eapply updateDecryptedNote_filed_new|].
  destruct Hfiled as (n0 & r0 & Hn0 & Hr0 & Hf0).
  destruct (updateDecryptedNote_index _ _ _ _ Hok) as (record & Hrec & Hf).
  apply updateDecryptedNote_Ok in Hok as (_ & _ & Htx & _ & Hnotes & _).
  exists n0, r0. rewrite Hnotes, Htx, lookup_insert_ne by done.
  split; [done|]. split; [done|]. unfold filedAt in *.
  destruct (blockHash record), (sequence record);
    destruct (blockHash r0), (sequence r0);
    repeat match goal with H : _ ∧ _ |- _ => destruct H end;
    repeat match goal with
           | H : noteHashesBySequence a' = _ |- _ => rewrite H
           | H : ∀ h', h' ∈ nonChainNoteHashes a' ↔ _ |- _ => rewrite H
           end;
    try tauto; split; auto; tauto.
Qed.

Lemma bulkUpdateDecryptedNote_filed th d a a' :
  bulkUpdateDecryptedNote noteValue th d a = Ok a' →
  (dn_forSpender d = false → filedByStatus a' (dn_merkleHash d))
  ∧ ∀ h, filedByStatus a h → filedByStatus a' h.
Proof.
  intros Hstep. destruct (dn_forSpender d) eqn:Hd.
  { rewrite bulkUpdateDecryptedNote_forSpender in Hstep by done.
    injection Hstep as <-. done. }
  rewrite bulkUpdateDecryptedNote_received in Hstep by done. split.
  - intros _. by eapply updateDecryptedNote_filed_new.
  - intros h Hh. eapply updateDecryptedNote_filed_keep; [exact Hstep|].
    by destruct (dn_nullifier d).
Qed.

Lemma processTransactionSpend_filed rem sp a a' :
  processTransactionSpend noteValue rem sp a = Ok a' →
  (∀ h, nullifierToNoteHash a !! spend_nullifier sp = Some h → filedByStatus a' h)
  ∧ ∀ h, filedByStatus a h → filedByStatus a' h.
Proof.
  unfold processTransactionSpend, getNoteHash, getDecryptedNote. intros Hstep.
  destruct (nullifierToNoteHash a !! spend_nullifier sp) as [h|];
    [|by injection Hstep as <-].
  destruct (decryptedNotes a !! h) as [note|]; [|done]. split.
  - intros ? [= <-]. by eapply updateDecryptedNote_filed_new.
  - intros h0. by eapply updateDecryptedNote_filed_keep.
Qed.

(** Every note a completed [syncTransaction] touches, delivered or spent, is
    filed afterwards where the status of its transaction says. *)
Theorem syncTransaction_files T ds p a a' :
  syncTransaction noteValue T ds p a = Ok a' →
  (∀ h, h ∈ receivedHashes ds → filedByStatus a' h)
  ∧ (∀ sp h, sp ∈ spends T →
       nullifierToNoteHash a' !! spend_nullifier sp = Some h →
       filedByStatus a' h).
Proof.
  unfold syncTransaction. intros (a1 & Hbulk & Hspends)%bind_Ok.
  assert (Hkeep : ∀ h, filedByStatus a1 h → filedByStatus a' h).
  { intros h Hh.
    eapply (forOf_invariant _ (λ s, filedByStatus s h) (spends T));
      [|exact Hh|exact Hspends].
    intros sp s s' _ Hs Hstep.
    by apply (processTransactionSpend_filed _ _ _ _ Hstep). }
  split.
  - intros h Hh. apply Hkeep. clear Hkeep Hspends. revert Hbulk.
    unfold bulkUpdateDecryptedNotes. generalize (upsertTransaction T p a).
    induction ds as [|d ds IH]; intros s Hloop; [by apply elem_of_nil in Hh|].
    rewrite forOf_cons in Hloop. apply bind_Ok in Hloop as (s1 & Hstep & Hrest).
    rewrite receivedHashes_cons in Hh.
    destruct (bulkUpdateDecryptedNote_filed _ _ _ _ Hstep) as [Hnew _].
    destruct (dn_forSpender d); [by eapply IH|].
    apply elem_of_cons in Hh as [->|Hh]; [|by eapply IH].
    eapply (forOf_invariant _ (λ s, filedByStatus s (dn_merkleHash d)) ds);
      [|by apply Hnew|exact Hrest].
    intros d' t t' _ Ht Hd'.
    by apply (bulkUpdateDecryptedNote_filed _ _ _ _ Hd').
  - clear Hkeep Hbulk. revert Hspends. unfold processTransactionSpends.
    generalize (spends T) as l. intros l. revert a1.
    induction l as [|sp0 l IH]; intros s Hloop sp h Hin Hn;
      [by apply elem_of_nil in Hin|].
    rewrite forOf_cons in Hloop. apply bind_Ok in Hloop as (s1 & Hstep & Hrest).
    apply elem_of_cons in Hin as [->|Hin]; [|by eapply IH].
    assert (Hnull : nullifierToNoteHash a' = nullifierToNoteHash s).
    { pose proof (processTransactionSpend_noteStep _ _ _ _ _ Hstep) as [_ H1].
      rewrite <- H1.
      by apply (processTransactionSpends_noteStep noteValue
                  {| unsignedHash := []; spends := l; notes := [];
                     tx_body := [] |} (isRemovingTransaction a T p)). }
    rewrite Hnull in Hn.
    destruct (processTransactionSpend_filed _ _ _ _ Hstep) as [Hnew _].
    eapply (forOf_invariant _ (λ s, filedByStatus s h) l);
      [|by apply Hnew|exact Hrest].
    intros sp' t t' _ Ht Hsp'.
    by apply (processTransactionSpend_filed _ _ _ _ Hsp').
Qed.
End AfterSync.

Lemma syncTransaction_nullifiers_witness :
  let ds := [receivedNote] in
  syncTransaction firstByteValue receiveTx ds (ParamsMined blockA 10) account0
  = Ok account1
  ∧ nullifierToNoteHash account1
    = insertAll (receivedNullifiers ds) (nullifierToNoteHash account0)
  ∧ (∀ n, is_Some (nullifierToNoteHash account0 !! n) →
          is_Some (nullifierToNoteHash account1 !! n))
  ∧ (∀ n, n ∉ (receivedNullifiers ds).*1 →
          nullifierToNoteHash account1 !! n = nullifierToNoteHash account0 !! n)
  ∧ (∀ n, n ∈ (receivedNullifiers ds).*1 →
          ∃ h, (n, h) ∈ receivedNullifiers ds
            ∧ nullifierToNoteHash account1 !! n = Some h).
Proof.
  assert (Hok : syncTransaction firstByteValue receiveTx [receivedNote]
                  (ParamsMined blockA 10) account0 = Ok account1)
    by (apply after_Ok; vm_compute; reflexivity).
  split; [exact Hok|].
  exact (syncTransaction_nullifiers firstByteValue receiveTx [receivedNote]
           (ParamsMined blockA 10) account0 account1 Hok).
Defined.

Lemma syncTransaction_files_witness :
  let ds := [receivedNote] in
  syncTransaction firstByteValue selfSpendTx ds (ParamsMined blockA 10) account0
  = Ok accountSelfSpend
  ∧ (∀ h, h ∈ receivedHashes ds → filedByStatus accountSelfSpend h)
  ∧ (∀ sp h, sp ∈ spends selfSpendTx →
       nullifierToNoteHash accountSelfSpend !! spend_nullifier sp = Some h →
       filedByStatus accountSelfSpend h).
Proof.
  assert (Hok : syncTransaction firstByteValue selfSpendTx [receivedNote]
                  (ParamsMined blockA 10) account0 = Ok accountSelfSpend)
    by (apply after_Ok; vm_compute; reflexivity).
  split; [exact Hok|].
  exact (syncTransaction_files firstByteValue selfSpendTx [receivedNote]
           (ParamsMined blockA 10) account0 accountSelfSpend Hok).
Defined.

(** ** Forgetting a transaction *)

Section Forgetting.
Variable noteValue : Buffer → Z.

Lemma deleteTransactionNote_spec hash a x :
  let a1 := deleteTransactionNote noteValue hash a x in
  transactions a1 = transactions a
  ∧ decryptedNotes a1 = delete (note_merkleHash x) (decryptedNotes a)
  ∧ (∀ k h, nullifierToNoteHash a1 !! k = Some h →
            nullifierToNoteHash a !! k = Some h)
  ∧ (∀ note k, decryptedNotes a !! note_merkleHash x = Some note →
       nullifierHash note = Some k → nullifierToNoteHash a1 !! k = None)
  ∧ getUnconfirmedBalance a1
    = match decryptedNotes a !! note_merkleHash x with
      | Some note =>
          if spent note
          then getUnconfirmedBalance a + noteValue (serializedNote note)
          else getUnconfirmedBalance a - noteValue (serializedNote note)
      | None => getUnconfirmedBalance a
      end.
Proof.
  unfold deleteTransactionNote, getDecryptedNote.
  pose proof (deleteDecryptedNote_spec noteValue (note_merkleHash x) hash a)
    as (_ & Hnotes & Hnull & Htx & Hbal).
  destruct (decryptedNotes a !! note_merkleHash x) as [note|] eqn:Hnote;
    cbv zeta.
  - destruct (nullifierHash note) as [k|] eqn:Hk.
    + destruct (deleteNullifier_spec k
                  (deleteDecryptedNote noteValue (note_merkleHash x) hash a))
        as (Hnotes' & Hnull' & Htx' & Hbal').
      rewrite Htx', Hnotes', Hnull', Hbal', Htx, Hnotes, Hnull.
      repeat split; [| |done].
      * intros k' h Hl. by apply lookup_delete_Some in Hl as [_ ?].
      * intros ? k' [= <-] Hk'. assert (k' = k) as -> by congruence.
        apply lookup_delete_eq.
    + rewrite Htx, Hnotes, Hnull.
      split; [done|]. split; [done|]. split; [done|]. split; [|done].
      intros ? ? [= <-]. congruence.
  - rewrite delete_id by done. repeat split; done.
Qed.

(** The first loop of [deleteTransaction]. *)
Lemma deleteTransactionNotes_spec hash l a :
  let a1 := foldl (deleteTransactionNote noteValue hash) a l in
  transactions a1 = transactions a
  ∧ (∀ h, decryptedNotes a1 !! h
          = if decide (h ∈ note_merkleHash <$> l) then None
            else decryptedNotes a !! h)
  ∧ (∀ k h, nullifierToNoteHash a1 !! k = Some h →
            nullifierToNoteHash a !! k = Some h)
  ∧ (∀ h note k, h ∈ note_merkleHash <$> l →
       decryptedNotes a !! h = Some note →
       nullifierHash note = Some k → nullifierToNoteHash a1 !! k = None).
Proof.
  revert a. induction l as [|x l IH]; intros a; simpl.
  - repeat split; [done|]. intros h note k Hin. by apply elem_of_nil in Hin.
  - destruct (deleteTransactionNote_spec hash a x)
      as (Htx & Hnotes & Hsub & Hgone & _).
    destruct (IH (deleteTransactionNote noteValue hash a x))
      as (Htx' & Hnotes' & Hsub' & Hgone').
    split; [congruence|]. split; [|split].
    + intros h. rewrite Hnotes', Hnotes.
      destruct (decide (h = note_merkleHash x)) as [->|Hne].
      * rewrite lookup_delete_eq. rewrite (decide_True (P := _ ∈ _ :: _));
          [by case_decide|by left].
      * rewrite lookup_delete_ne by done.
        destruct (decide (h ∈ note_merkleHash <$> l)) as [Hin|Hout].
        -- rewrite decide_True; [done|by right].
        -- rewrite decide_False; [done|].
           intros [?|?]%elem_of_cons; done.
    + intros k h Hk. by apply Hsub, Hsub'.
    + intros h note k Hin Hnote Hk.
      destruct (decide (h = note_merkleHash x)) as [->|Hne].
      * destruct (nullifierToNoteHash
                    (foldl (deleteTransactionNote noteValue hash)
                       (deleteTransactionNote noteValue hash a x) l) !! k)
          as [h'|] eqn:Hlook; [|done].
        apply Hsub' in Hlook. by rewrite (Hgone note k Hnote Hk) in Hlook.
      * apply elem_of_cons in Hin as [?|Hin]; [done|].
        eapply Hgone'; [exact Hin| |exact Hk].
        rewrite Hnotes, lookup_delete_ne by done. exact Hnote.
Qed.

Lemma processTransactionSpend_same_notes rem sp a a' :
  processTransactionSpend noteValue rem sp a = Ok a' →
  ∀ h, with_spent false <$> decryptedNotes a' !! h
       = with_spent false <$> decryptedNotes a !! h.
Proof.
  unfold processTransactionSpend, getNoteHash, getDecryptedNote. intros Hstep h.
  destruct (nullifierToNoteHash a !! spend_nullifier sp) as [h'|];
    [|by injection Hstep as <-].
  destruct (decryptedNotes a !! h') as [note|] eqn:Hnote; [|done].
  apply updateDecryptedNote_Ok in Hstep as (_ & _ & _ & _ & -> & _).
  destruct (decide (h' = h)) as [->|Hne].
  - by rewrite lookup_insert_eq, Hnote.
  - by rewrite lookup_insert_ne.
Qed.

(** What a completed [deleteTransaction] forgets: the record of the
    transaction, every stored note whose hash is among its outputs, and the
    Nullifier Index entry of the nullifier recorded on each of them.  It
    adds no entry to the Nullifier Index, and a note that is not among the
    outputs stays stored or absent as it was, its spent flag apart. *)
Theorem deleteTransaction_forgets hash T a a' :
  deleteTransaction noteValue hash T a = Ok a' →
  transactions a' = delete hash (transactions a)
  ∧ (∀ h, h ∈ note_merkleHash <$> notes T → decryptedNotes a' !! h = None)
  ∧ (∀ h, h ∉ note_merkleHash <$> notes T →
          with_spent false <$> decryptedNotes a' !! h
          = with_spent false <$> decryptedNotes a !! h)
  ∧ (∀ k h, nullifierToNoteHash a' !! k = Some h →
            nullifierToNoteHash a !! k = Some h)
  ∧ (∀ h note k, h ∈ note_merkleHash <$> notes T →
       decryptedNotes a !! h = Some note →
       nullifierHash note = Some k → nullifierToNoteHash a' !! k = None).
Proof.
  unfold deleteTransaction. intros (a2 & Hspends & [= <-])%bind_Ok. simpl.
  destruct (deleteTransactionNotes_spec hash (notes T) a)
    as (Htx & Hnotes & Hsub & Hgone).
  set (a1 := foldl _ a (notes T)) in *.
  assert (Hsame : ∀ h, with_spent false <$> decryptedNotes a2 !! h
                       = with_spent false <$> decryptedNotes a1 !! h).
  { eapply (forOf_invariant _
              (λ s, ∀ h, with_spent false <$> decryptedNotes s !! h
                         = with_spent false <$> decryptedNotes a1 !! h)
              (spends T)); [|done|exact Hspends].
    intros sp s s' _ Hs Hstep h. rewrite deleteTransactionSpend_eq in Hstep.
    rewrite <- Hs. by eapply processTransactionSpend_same_notes. }
  pose proof (processTransactionSpends_noteStep noteValue T true a1 a2 Hspends)
    as [(_ & Htx2 & _) Hnull2].
  rewrite Htx2, Htx, Hnull2. split; [done|]. split; [|split; [|split]].
  - intros h Hin. specialize (Hsame h). rewrite Hnotes, decide_True in Hsame by done.
    by destruct (decryptedNotes a2 !! h).
  - intros h Hout. by rewrite Hsame, Hnotes, decide_False.
  - exact Hsub.
  - exact Hgone.
Qed.

(** After a completed [deleteTransaction], every note a spend of the
    transaction resolves to is stored unspent. *)
Theorem deleteTransaction_unspends hash T a a' :
  deleteTransaction noteValue hash T a = Ok a' →
  ∀ sp h, sp ∈ spends T →
    nullifierToNoteHash a' !! spend_nullifier sp = Some h →
    ∃ note, decryptedNotes a' !! h = Some note ∧ spent note = false.
Proof.
  unfold deleteTransaction. intros (a2 & Hspends & [= <-])%bind_Ok sp h Hin Hn.
  simpl in *.
  destruct (processTransactionSpends_settled noteValue T true _ a2 Hspends
              sp h Hin Hn) as (note & Hnote & Hspent & _).
  by exists note.
Qed.

Lemma deleteTransactionNote_balanced hash a x :
  balanced noteValue a →
  (∀ note, decryptedNotes a !! note_merkleHash x = Some note →
           spent note = false) →
  balanced noteValue (deleteTransactionNote noteValue hash a x).
Proof.
  intros Hb Hunspent.
  destruct (deleteTransactionNote_spec hash a x) as (_ & Hnotes & _ & _ & Hbal).
  unfold balanced in *. rewrite Hbal, Hnotes, unspentTotal_delete, Hb.
  destruct (decryptedNotes a !! note_merkleHash x) as [note|]; simpl; [|lia].
  unfold unspentValue. by rewrite (Hunspent note eq_refl).
Qed.

(** Forgetting a transaction whose stored outputs are all unspent keeps the
    unconfirmed balance equal to the sum of the values of the unspent
    notes. *)
Theorem deleteTransaction_balanced hash T a a' :
  deleteTransaction noteValue hash T a = Ok a' →
  balanced noteValue a →
  (∀ h note, h ∈ note_merkleHash <$> notes T →
     decryptedNotes a !! h = Some note → spent note = false) →
  balanced noteValue a'.
Proof.
  unfold deleteTransaction. intros (a2 & Hspends & [= <-])%bind_Ok Hb Hunspent.
  assert (Hb1 : balanced noteValue
                  (foldl (deleteTransactionNote noteValue hash) a (notes T))).
  { clear Hspends. revert a Hb Hunspent. induction (notes T) as [|x l IH];
      intros a Hb Hunspent; [done|]. simpl. apply IH.
    - apply deleteTransactionNote_balanced; [done|].
      intros note. apply Hunspent. rewrite fmap_cons. by left.
    - intros h note Hin.
      destruct (deleteTransactionNote_spec hash a x) as (_ & -> & _).
      intros [_ Hnote]%lookup_delete_Some. eapply Hunspent; [|exact Hnote].
      rewrite fmap_cons. by right. }
  assert (Hb2 : balanced noteValue a2).
  { eapply (forOf_invariant _ (balanced noteValue) (spends T));
      [|exact Hb1|exact Hspends].
    intros sp s s' _ Hs Hstep.
    unfold deleteTransactionSpend, getNoteHash, getDecryptedNote in Hstep.
    destruct (nullifierToNoteHash s !! spend_nullifier sp) as [h|];
      [|by injection Hstep as <-].
    destruct (decryptedNotes s !! h) as [old|] eqn:Hold; [|done].
    eapply updateDecryptedNote_balanced; [exact Hstep|done|]. by rewrite Hold. }
  exact Hb2.
Qed.
End Forgetting.

Lemma deleteTransaction_forgets_witness :
  let hash := unsignedHash receiveTx in
  let a' := accountForgotten in
  deleteTransaction firstByteValue hash receiveTx account2 = Ok a'
  ∧ transactions a' = delete hash (transactions account2)
  ∧ (∀ h, h ∈ note_merkleHash <$> notes receiveTx →
          decryptedNotes a' !! h = None)
  ∧ (∀ h, h ∉ note_merkleHash <$> notes receiveTx →
          with_spent false <$> decryptedNotes a' !! h
          = with_spent false <$> decryptedNotes account2 !! h)
  ∧ (∀ k h, nullifierToNoteHash a' !! k = Some h →
            nullifierToNoteHash account2 !! k = Some h)
  ∧ (∀ h note k, h ∈ note_merkleHash <$> notes receiveTx →
       decryptedNotes account2 !! h = Some note →
       nullifierHash note = Some k → nullifierToNoteHash a' !! k = None).
Proof.
  intros hash a'.
  assert (Hok : deleteTransaction firstByteValue hash receiveTx account2 = Ok a')
    by (apply after_Ok; vm_compute; reflexivity).
  split; [exact Hok|].
  exact (deleteTransaction_forgets firstByteValue hash receiveTx account2 a' Hok).
Defined.

Lemma deleteTransaction_unspends_witness :
  let hash := unsignedHash spendTx in
  let a' := after account2 (deleteTransaction firstByteValue hash spendTx account2) in
  deleteTransaction firstByteValue hash spendTx account2 = Ok a'
  ∧ ∀ sp h, sp ∈ spends spendTx →
      nullifierToNoteHash a' !! spend_nullifier sp = Some h →
      ∃ note, decryptedNotes a' !! h = Some note ∧ spent note = false.
Proof.
  intros hash a'.
  assert (Hok : deleteTransaction firstByteValue hash spendTx account2 = Ok a')
    by (apply after_Ok; vm_compute; reflexivity).
  split; [exact Hok|].
  exact (deleteTransaction_unspends firstByteValue hash spendTx account2 a' Hok).
Defined.

Lemma deleteTransaction_balanced_witness :
  let hash := unsignedHash receiveTx in
  let a' := after account1 (deleteTransaction firstByteValue hash receiveTx account1) in
  deleteTransaction firstByteValue hash receiveTx account1 = Ok a'
  ∧ balanced firstByteValue account1
  ∧ (∀ h note, h ∈ note_merkleHash <$> notes receiveTx →
       decryptedNotes account1 !! h = Some note → spent note = false)
  ∧ balanced firstByteValue a'.
Proof.
  intros hash a'.
  assert (Hok : deleteTransaction firstByteValue hash receiveTx account1 = Ok a')
    by (apply after_Ok; vm_compute; reflexivity).
  assert (Hb : balanced firstByteValue account1) by (vm_compute; reflexivity).
  assert (Hnote : decryptedNotes account1 !! noteHash = Some (storedNote false))
    by (vm_compute; reflexivity).
  assert (Hunspent : ∀ h note, h ∈ note_merkleHash <$> notes receiveTx →
            decryptedNotes account1 !! h = Some note → spent note = false).
  { intros h note Hin Hl.
    assert (h = noteHash) as -> by (by apply list_elem_of_singleton in Hin).
    rewrite Hnote in Hl. by injection Hl as <-. }
  split; [exact Hok|]. split; [exact Hb|]. split; [exact Hunspent|].
  exact (deleteTransaction_balanced firstByteValue hash receiveTx account1 a'
           Hok Hb Hunspent).
Defined.

(** ** Reading the balance *)

Section ReadingBalance.
Variable noteValue : Buffer → Z.

Lemma subtractUnspent_loop_outcome a hs c :
  ((∃ h, h ∈ hs ∧ decryptedNotes a !! h = None)
   ∧ forOf (subtractUnspent noteValue a) hs c = Throw NoteUndefined)
  ∨ ((∀ h, h ∈ hs → is_Some (decryptedNotes a !! h))
     ∧ ∃ c', forOf (subtractUnspent noteValue a) hs c = Ok c').
Proof.
  revert c. induction hs as [|h hs IH]; intros c.
  - right. split; [by intros h ?%elem_of_nil|by exists c].
  - rewrite forOf_cons.
    destruct (decryptedNotes a !! h) as [note|] eqn:Hnote.
    + rewrite (subtractUnspent_stored _ _ _ _ c Hnote), bind_Ok_l.
      destruct (IH (c - unspentValue noteValue note))
        as [[(h' & Hin & Hnone) Hthrow]|[Hall Hok]].
      * left. split; [|done]. exists h'. split; [by right|done].
      * right. split; [|done]. intros h' [->|Hin]%elem_of_cons; [by eexists|eauto].
    + left. split; [exists h; split; [by left|done]|].
      unfold subtractUnspent. by rewrite Hnote.
Qed.

Lemma subtractSequence_loop_outcome a seqs c :
  ((∃ s h, s ∈ seqs ∧ filedAt a s h ∧ decryptedNotes a !! h = None)
   ∧ forOf (subtractSequence noteValue a) seqs c = Throw NoteUndefined)
  ∨ ((∀ s h, s ∈ seqs → filedAt a s h → is_Some (decryptedNotes a !! h))
     ∧ ∃ c', forOf (subtractSequence noteValue a) seqs c = Ok c').
Proof.
  revert c. induction seqs as [|s seqs IH]; intros c.
  - right. split; [by intros s h ?%elem_of_nil|by exists c].
  - rewrite forOf_cons. unfold filedAt in *.
    assert (Hstep : subtractSequence noteValue a s c
                    = match noteHashesBySequence a !! s with
                      | Some hs => forOf (subtractUnspent noteValue a) hs c
                      | None => Ok c
                      end) by reflexivity.
    rewrite Hstep. clear Hstep.
    destruct (noteHashesBySequence a !! s) as [hs|] eqn:Hb.
    + destruct (subtractUnspent_loop_outcome a hs c)
        as [[(h & Hin & Hnone) ->]|[Hall [c1 ->]]].
      { left. split; [|done]. exists s, h. split; [by left|]. split; [|done].
        by exists hs. }
      rewrite bind_Ok_l.
      destruct (IH c1) as [[(s' & h & Hin & Hf & Hnone) Hthrow]|[Hall' Hok]].
      * left. split; [|done]. exists s', h. split; [by right|done].
      * right. split; [|done].
        intros s' h [->|Hin]%elem_of_cons; [|by apply Hall'].
        intros (hs' & Hb' & Hh). rewrite Hb in Hb'. injection Hb' as <-.
        by apply Hall.
    + rewrite bind_Ok_l.
      destruct (IH c) as [[(s' & h & Hin & Hf & Hnone) Hthrow]|[Hall' Hok]].
      * left. split; [|done]. exists s', h. split; [by right|done].
      * right. split; [|done].
        intros s' h [->|Hin]%elem_of_cons; [|by apply Hall'].
        intros (hs' & Hb' & _). by rewrite Hb in Hb'.
Qed.

(** The two ways [getBalance] can end. *)
Lemma getBalance_cases start head a :
  ((∃ h, scanned start head a h ∧ decryptedNotes a !! h = None)
   ∧ getBalance noteValue start head a = Throw NoteUndefined)
  ∨ ((∀ h, scanned start head a h → is_Some (decryptedNotes a !! h))
     ∧ ∃ confirmed,
         getBalance noteValue start head a
         = Ok (getUnconfirmedBalance a, confirmed)).
Proof.
  unfold getBalance, scanned.
  destruct (subtractSequence_loop_outcome a (seqZ start (head - start))
              (getUnconfirmedBalance a))
    as [[(s & h & Hin & Hf & Hnone) ->]|[Hall [c1 ->]]].
  { left. split; [|done]. exists h. split; [|done]. left. exists s.
    apply elem_of_seqZ in Hin. split; [lia|done]. }
  rewrite bind_Ok_l.
  destruct (subtractUnspent_loop_outcome a (nonChainNoteHashes a) c1)
    as [[(h & Hin & Hnone) ->]|[Hall' [c2 ->]]].
  { left. split; [|done]. exists h. split; [by right|done]. }
  right. split; [|by exists c2].
  intros h [(s & Hs & Hf)|Hin]; [|by apply Hall'].
  apply (Hall s); [|done]. apply elem_of_seqZ. lia.
Qed.

(** How [getBalance] ends.  It throws, on the assertion that a note is
    defined, exactly when one of the hashes it meets is not stored; otherwise
    it returns, and the unconfirmed amount of its result is the unconfirmed
    balance. *)
Theorem getBalance_outcome start head a :
  ((∃ h, scanned start head a h ∧ decryptedNotes a !! h = None)
   ∧ getBalance noteValue start head a = Throw NoteUndefined)
  ∨ ((∀ h, scanned start head a h → is_Some (decryptedNotes a !! h))
     ∧ ∃ confirmed,
         getBalance noteValue start head a
         = Ok (getUnconfirmedBalance a, confirmed)).
Proof. exact (getBalance_cases start head a). Qed.

(** When no stored note has a negative value, the confirmed amount
    [getBalance] returns is at most the unconfirmed one. *)
Theorem getBalance_confirmed_le start head a unconfirmed confirmed :
  (∀ h note, decryptedNotes a !! h = Some note →
             0 ≤ noteValue (serializedNote note)) →
  getBalance noteValue start head a = Ok (unconfirmed, confirmed) →
  confirmed ≤ unconfirmed.
Proof.
  intros Hpos. unfold getBalance.
  intros (c1 & H1 & (c2 & H2 & [= <- <-])%bind_Ok)%bind_Ok.
  assert (Hstep : ∀ h c c', c ≤ getUnconfirmedBalance a →
            subtractUnspent noteValue a h c = Ok c' →
            c' ≤ getUnconfirmedBalance a).
  { intros h c c' Hc. unfold subtractUnspent.
    destruct (decryptedNotes a !! h) as [note|] eqn:Hnote; [|done].
    specialize (Hpos h note Hnote).
    destruct (spent note); intros [= <-]; lia. }
  eapply (forOf_invariant _ (λ c, c ≤ getUnconfirmedBalance a)
            (nonChainNoteHashes a)); [| |exact H2].
  { intros h c c' _. apply Hstep. }
  eapply (forOf_invariant _ (λ c, c ≤ getUnconfirmedBalance a)
            (seqZ start (head - start))); [|reflexivity|exact H1].
  intros s c c' _ Hc. unfold subtractSequence.
  destruct (noteHashesBySequence a !! s) as [hs|]; [|by intros [= <-]].
  apply (forOf_invariant _ (λ c, c ≤ getUnconfirmedBalance a) hs); [|done].
  intros h d d' _. apply Hstep.
Qed.

(** [reset] empties the note table and leaves the Sequence Index and the
    non-chain set as they are: if [getBalance] meets a hash at all on the
    account after a reset, it throws. *)
Theorem getBalance_after_reset start head a h :
  scanned start head a h →
  getBalance noteValue start head (reset a) = Throw NoteUndefined.
Proof.
  intros Hscan.
  destruct (getBalance_cases start head (reset a)) as [[_ ?]|[Hall _]]; [done|].
  destruct (Hall h) as [note Hnote]; [exact Hscan|].
  simpl in Hnote. by rewrite lookup_empty in Hnote.
Qed.

(** *** The indices list stored notes only *)

Lemma updateDecryptedNote_indexed h note a a' :
  updateDecryptedNote noteValue h note a = Ok a' →
  ∀ h', (h' ∈ nonChainNoteHashes a' → h' = h ∨ h' ∈ nonChainNoteHashes a)
        ∧ (∀ s, filedAt a' s h' → h' = h ∨ filedAt a s h').
Proof.
  unfold updateDecryptedNote. intros (a1 & Hseq & [= <-])%bind_Ok h'. simpl.
  assert (Hgen : ∀ a0, saveDecryptedNoteSequence (transactionHash note) h a0 = Ok a1 →
            (h' ∈ nonChainNoteHashes a1 → h' = h ∨ h' ∈ nonChainNoteHashes a0)
            ∧ (∀ s, filedAt a1 s h' → h' = h ∨ filedAt a0 s h')).
  { intros a0. unfold saveDecryptedNoteSequence, filedAt.
    destruct (transactions a0 !! transactionHash note) as [record|]; [|done].
    destruct (blockHash record).
    - destruct (sequence record) as [s0|]; [|done]. intros [= <-]. simpl. split.
      + intros [_ ?]%BufferSet_elem_of_delete. by right.
      + intros s (hs & Hb & Hh). destruct (decide (s0 = s)) as [->|Hne].
        * rewrite lookup_insert_eq in Hb. injection Hb as <-.
          apply BufferSet_elem_of_add in Hh as [?|Hh]; [by left|right].
          destruct (noteHashesBySequence a0 !! s) as [hs0|]; [by exists hs0|].
          by apply elem_of_nil in Hh.
        * rewrite lookup_insert_ne in Hb by done. right. by exists hs.
    - intros [= <-]. simpl. split; [|by right].
      by intros ?%BufferSet_elem_of_add. }
  assert (H0 : ∃ a0, saveDecryptedNoteSequence (transactionHash note) h a0 = Ok a1
                 ∧ noteHashesBySequence a0 = noteHashesBySequence a
                 ∧ nonChainNoteHashes a0 = nonChainNoteHashes a).
  { eexists. split; [exact Hseq|]. by repeat case_match. }
  destruct H0 as (a0 & Hseq0 & Hb0 & Hn0).
  destruct (Hgen _ Hseq0) as [Hn Hf]. unfold filedAt in *.
  by rewrite Hb0, Hn0 in *.
Qed.

Lemma updateDecryptedNote_indexedStored h note a a' :
  updateDecryptedNote noteValue h note a = Ok a' →
  indexedStored a → indexedStored a'.
Proof.
  intros Hok Hall h' Hin.
  destruct (updateDecryptedNote_indexed _ _ _ _ Hok h') as [Hn Hf].
  apply updateDecryptedNote_Ok in Hok as (_ & _ & _ & _ & -> & _).
  destruct (decide (h = h')) as [->|Hne]; [by rewrite lookup_insert_eq|].
  rewrite lookup_insert_ne by done. apply Hall.
  destruct Hin as [Hin|[s Hs]].
  - destruct (Hn Hin) as [?|?]; [done|by left].
  - destruct (Hf s Hs) as [?|?]; [done|right; by exists s].
Qed.

(** A completed [syncTransaction] keeps the indices within the stored
    notes. *)
Lemma syncTransaction_indexedStored T ds p a a' :
  syncTransaction noteValue T ds p a = Ok a' →
  indexedStored a → indexedStored a'.
Proof.
  unfold syncTransaction. intros (a1 & Hbulk & Hspends)%bind_Ok Hall.
  assert (H0 : indexedStored (upsertTransaction T p a)).
  { unfold upsertTransaction. by destruct (shouldUpdateTransaction a T p). }
  assert (H1 : indexedStored a1).
  { eapply (forOf_invariant _ indexedStored ds); [|exact H0|exact Hbulk].
    intros d s s' _ Hs Hstep. destruct (dn_forSpender d) eqn:Hd.
    - rewrite bulkUpdateDecryptedNote_forSpender in Hstep by done.
      by injection Hstep as <-.
    - rewrite bulkUpdateDecryptedNote_received in Hstep by done.
      eapply updateDecryptedNote_indexedStored; [exact Hstep|].
      by destruct (dn_nullifier d). }
  eapply (forOf_invariant _ indexedStored (spends T)); [|exact H1|exact Hspends].
  intros sp s s' _ Hs. unfold processTransactionSpend, getNoteHash, getDecryptedNote.
  destruct (nullifierToNoteHash s !! spend_nullifier sp) as [h|];
    [|by intros [= <-]].
  destruct (decryptedNotes s !! h) as [note|]; [|done].
  intros Hstep. by eapply updateDecryptedNote_indexedStored.
Qed.

(** After any sequence of observations on a new account, [getBalance]
    returns for every pair of sequences: no hash it meets is missing from
    the note table. *)
Theorem syncAll_getBalance calls i db a' start head :
  syncAll noteValue calls (newAccount i db) = Ok a' →
  ∃ confirmed,
    getBalance noteValue start head a' = Ok (getUnconfirmedBalance a', confirmed).
Proof.
  intros Hall.
  assert (Hix : indexedStored a').
  { eapply (forOf_invariant _ indexedStored calls); [| |exact Hall].
    - intros call s s' _ Hs Hstep.
      eapply syncTransaction_indexedStored; [exact Hstep|exact Hs].
    - intros h [Hin|(s & hs & Hb & _)]; simpl in *.
      + by apply elem_of_nil in Hin.
      + by rewrite lookup_empty in Hb. }
  destruct (getBalance_cases start head a')
    as [[(h & Hscan & Hnone) _]|[_ Hok]]; [|done].
  destruct (Hix h) as [note Hnote]; [|congruence].
  destruct Hscan as [(s & _ & Hf)|Hin]; [right; by exists s|by left].
Qed.
End ReadingBalance.

Lemma getBalance_confirmed_le_witness :
  (∀ h note, decryptedNotes accountHolding !! h = Some note →
             0 ≤ firstByteValue (serializedNote note))
  ∧ getBalance firstByteValue 5 12 accountHolding = Ok (5, 0)
  ∧ 0 ≤ 5.
Proof.
  assert (Hpos : ∀ h note, decryptedNotes accountHolding !! h = Some note →
                   0 ≤ firstByteValue (serializedNote note)).
  { intros h note Hnote. unfold accountHolding in Hnote. simpl in Hnote.
    apply lookup_singleton_Some in Hnote as [_ <-]. by vm_compute. }
  assert (Hget : getBalance firstByteValue 5 12 accountHolding = Ok (5, 0))
    by (vm_compute; reflexivity).
  split; [exact Hpos|]. split; [exact Hget|].
  exact (getBalance_confirmed_le firstByteValue 5 12 accountHolding 5 0 Hpos Hget).
Defined.

Lemma getBalance_after_reset_witness :
  scanned 10 11 account1 noteHash
  ∧ getBalance firstByteValue 10 11 (reset account1) = Throw NoteUndefined.
Proof.
  assert (Hscan : scanned 10 11 account1 noteHash).
  { left. exists 10. split; [lia|]. exists [noteHash].
    split; [vm_compute; reflexivity|by left]. }
  split; [exact Hscan|].
  exact (getBalance_after_reset firstByteValue 10 11 account1 noteHash Hscan).
Defined.

Lemma syncAll_getBalance_witness :
  let calls := [ (receiveTx, [receivedNote], ParamsMined blockA 10);
                 (receiveTx, [receivedNoteOffChain], ParamsNone) ] in
  let a' := after account0 (syncAll firstByteValue calls account0) in
  syncAll firstByteValue calls (newAccount "account" AccountsDb.empty) = Ok a'
  ∧ ∃ confirmed,
      getBalance firstByteValue 10 11 a' = Ok (getUnconfirmedBalance a', confirmed).
Proof.
  intros calls a'.
  assert (Hok : syncAll firstByteValue calls (newAccount "account" AccountsDb.empty)
                = Ok a')
    by (apply after_Ok; vm_compute; reflexivity).
  split; [exact Hok|].
  exact (syncAll_getBalance firstByteValue calls "account" AccountsDb.empty a'
           10 11 Hok).
Defined.

(** ** Loading an account from the store *)

Section Loading.
Variable noteValue : Buffer → Z.

Lemma saveDecryptedNoteSequence_exact th h a a' :
  saveDecryptedNoteSequence th h a = Ok a' →
  ∃ record, transactions a !! th = Some record
    ∧ ((∀ s hs, noteHashesBySequence a !! s = Some hs → NoDup hs) →
       ∀ s hs, noteHashesBySequence a' !! s = Some hs → NoDup hs)
    ∧ match blockHash record with
      | Some _ =>
          ∃ s0, sequence record = Some s0
            ∧ (∀ s h', filedAt a' s h' ↔ ((s = s0 ∧ h' = h) ∨ filedAt a s h'))
            ∧ (∀ h', h' ∈ nonChainNoteHashes a'
                     ↔ (h' ≠ h ∧ h' ∈ nonChainNoteHashes a))
      | None =>
          (∀ s h', filedAt a' s h' ↔ filedAt a s h')
          ∧ (∀ h', h' ∈ nonChainNoteHashes a'
                   ↔ (h' = h ∨ h' ∈ nonChainNoteHashes a))
      end.
Proof.
  unfold saveDecryptedNoteSequence, filedAt.
  destruct (transactions a !! th) as [record|]; [|done].
  intros Hok. exists record. split; [done|].
  destruct (blockHash record) as [bh|].
  - destruct (sequence record) as [s0|]; [|done]. injection Hok as <-. simpl.
    split; [|exists s0; split; [done|split]].
    + intros Hnd s hs. destruct (decide (s0 = s)) as [->|Hne].
      * rewrite lookup_insert_eq. intros [= <-]. apply BufferSet_NoDup_add.
        destruct (noteHashesBySequence a !! s) as [hs0|] eqn:Hb; simpl;
          [by eapply Hnd|apply NoDup_nil_2].
      * rewrite lookup_insert_ne by done. apply Hnd.
    + intros s h'. destruct (decide (s0 = s)) as [->|Hne].
      * rewrite lookup_insert_eq. split.
        -- intros (hs & [= <-] & Hh).
           apply BufferSet_elem_of_add in Hh as [->|Hh]; [by left|right].
           destruct (noteHashesBySequence a !! s) as [hs0|]; [by exists hs0|].
           by apply elem_of_nil in Hh.
        -- intros [[_ ->]|(hs & Hb & Hh)]; eexists; (split; [done|]);
             apply BufferSet_elem_of_add; [by left|right]. by rewrite Hb.
      * rewrite lookup_insert_ne by done. split; [by right|].
        by intros [[? _]|?].
    + intros h'. apply BufferSet_elem_of_delete.
  - injection Hok as <-. simpl. split; [done|]. split; [done|].
    intros h'. apply BufferSet_elem_of_add.
Qed.

Lemma rebuiltFrom_skip i txs entries h note a :
  accountId note ≠ i →
  rebuiltFrom i txs entries a → rebuiltFrom i txs (entries ++ [(h, note)]) a.
Proof.
  intros Hother (Hnotes & Hfiled & Hnon & Hnd).
  assert (Hin : ∀ h' n', ((h', n') ∈ entries ++ [(h, note)] ∧ accountId n' = i)
                         ↔ ((h', n') ∈ entries ∧ accountId n' = i)).
  { intros h' n'. rewrite elem_of_app, list_elem_of_singleton. split.
    - intros [[?|[= -> ->]] ?]; done.
    - intros [? ?]. split; [by left|done]. }
  split; [|split; [|split; [|done]]].
  - intros h' n'. by rewrite Hin.
  - intros s h'. rewrite Hfiled. split.
    + intros (n' & r & H1 & H2 & H3). exists n', r.
      destruct (proj2 (Hin h' n') (conj H1 H2)) as [? ?]. done.
    + intros (n' & r & H1 & H2 & H3). exists n', r.
      destruct (proj1 (Hin h' n') (conj H1 H2)) as [? ?]. done.
  - intros h'. rewrite Hnon. split.
    + intros (n' & r & H1 & H2 & H3). exists n', r.
      destruct (proj2 (Hin h' n') (conj H1 H2)) as [? ?]. done.
    + intros (n' & r & H1 & H2 & H3). exists n', r.
      destruct (proj1 (Hin h' n') (conj H1 H2)) as [? ?]. done.
Qed.

Lemma rebuiltFrom_keys i txs entries a h :
  rebuiltFrom i txs entries a →
  (is_Some (decryptedNotes a !! h) ∨ h ∈ nonChainNoteHashes a
   ∨ ∃ s, filedAt a s h) →
  h ∈ entries.*1.
Proof.
  intros (Hnotes & Hfiled & Hnon & _) Hh.
  assert (∃ n, (h, n) ∈ entries) as [n Hn].
  { destruct Hh as [[n Hn]|[Hin|[s Hs]]].
    - apply Hnotes in Hn as [? _]. by exists n.
    - apply Hnon in Hin as (n & _ & ? & _). by exists n.
    - apply Hfiled in Hs as (n & _ & ? & _). by exists n. }
  apply list_elem_of_fmap. by exists (h, n).
Qed.

Lemma loadDecryptedNote_rebuilt i entries h note a b a' b' :
  h ∉ entries.*1 → id a = i →
  rebuiltFrom i (transactions a) entries a →
  loadDecryptedNote noteValue (h, note) (a, b) = Ok (a', b') →
  id a' = i ∧ transactions a' = transactions a
  ∧ nullifierToNoteHash a' = nullifierToNoteHash a
  ∧ accountsDb a' = accountsDb a
  ∧ rebuiltFrom i (transactions a) (entries ++ [(h, note)]) a'
  ∧ b' = b + (if decide (accountId note = i)
              then unspentValue noteValue note else 0).
Proof.
  intros Hnew Hid Hre. destruct (decide (accountId note = i)) as [Hown|Hother].
  - rewrite loadDecryptedNote_own by congruence.
    intros (a1 & Hsave & [= <- <-])%bind_Ok.
    pose proof (saveDecryptedNoteSequence_Ok _ _ _ _ Hsave)
      as (_ & Hid1 & Hnotes1 & Hnull1 & Htx1 & Hdb1).
    destruct (saveDecryptedNoteSequence_exact _ _ _ _ Hsave)
      as (record & Hrec & Hnd1 & Hix).
    simpl in Hid1, Hnotes1, Hnull1, Htx1, Hdb1, Hrec, Hnd1.
    split; [congruence|]. split; [done|]. split; [done|]. split; [done|].
    split; [|unfold unspentValue; destruct (spent note); lia].
    assert (Hfa : ∀ s h', filedAt (with_decryptedNotes (<[h := note]>) a) s h'
                          = filedAt a s h') by reflexivity.
    destruct Hre as (Hnotes & Hfiled & Hnon & Hnd).
    assert (Hfresh : ∀ h' n', (h', n') ∈ entries → h' ≠ h).
    { intros h' n' Hin ->. apply Hnew, list_elem_of_fmap. by exists (h, n'). }
    assert (Hin : ∀ h' n', (h', n') ∈ entries ++ [(h, note)]
                           ↔ ((h', n') ∈ entries ∨ (h' = h ∧ n' = note))).
    { intros h' n'. rewrite elem_of_app, list_elem_of_singleton. split.
      - intros [?|[= -> ->]]; [by left|by right].
      - intros [?|[-> ->]]; [by left|by right]. }
    split; [|split; [|split]].
    + intros h' n'. rewrite Hnotes1, Hin. destruct (decide (h = h')) as [<-|Hne].
      * rewrite lookup_insert_eq. split.
        -- intros [= <-]. split; [by right|done].
        -- intros [[Hold|[_ ->]] _]; [|done]. by destruct (Hfresh _ _ Hold).
      * rewrite lookup_insert_ne by done. rewrite Hnotes. split.
        -- intros [? ?]. split; [by left|done].
        -- intros [[?|[? _]] ?]; done.
    + intros s h'. destruct (blockHash record) as [bh|] eqn:Hbh.
      * destruct Hix as (s0 & Hs0 & Hf & _). rewrite Hf, Hfa, Hfiled.
        split.
        -- intros [[-> ->]|(n' & r & H1 & H2 & H3)].
           ++ exists note, record. rewrite Hin, Hbh.
              split; [by right|]. split; [done|]. split; [done|].
              split; [by eexists|done].
           ++ exists n', r. rewrite Hin. split; [by left|done].
        -- intros (n' & r & [Hold|[-> ->]]%Hin & H2 & H3 & H4 & H5).
           ++ right. by exists n', r.
           ++ left. rewrite Hrec in H3. injection H3 as <-.
              split; [congruence|done].
      * destruct Hix as (Hf & _). rewrite Hf, Hfa, Hfiled. split.
        -- intros (n' & r & H1 & H2 & H3). exists n', r. rewrite Hin.
           split; [by left|done].
        -- intros (n' & r & [Hold|[-> ->]]%Hin & H2 & H3 & H4 & H5).
           ++ by exists n', r.
           ++ rewrite Hrec in H3. injection H3 as <-. rewrite Hbh in H4.
              by destruct H4.
    + intros h'. destruct (blockHash record) as [bh|] eqn:Hbh.
      * destruct Hix as (s0 & Hs0 & _ & Hn). rewrite Hn. simpl. rewrite Hnon.
        split.
        -- intros [Hne (n' & r & H1 & H2 & H3)]. exists n', r. rewrite Hin.
           split; [by left|done].
        -- intros (n' & r & [Hold|[-> ->]]%Hin & H2 & H3 & H4).
           ++ split; [by eapply Hfresh|]. by exists n', r.
           ++ rewrite Hrec in H3. injection H3 as <-. congruence.
      * destruct Hix as (_ & Hn). rewrite Hn. simpl. rewrite Hnon. split.
        -- intros [->|(n' & r & H1 & H2 & H3)].
           ++ exists note, record. rewrite Hin. split; [by right|done].
           ++ exists n', r. rewrite Hin. split; [by left|done].
        -- intros (n' & r & [Hold|[-> ->]]%Hin & H2 & H3 & H4).
           ++ right. by exists n', r.
           ++ by left.
    + apply Hnd1. exact Hnd.
  - unfold loadDecryptedNote. rewrite decide_False by congruence.
    intros [= <- <-]. split; [done|]. split; [done|]. split; [done|].
    split; [done|]. split; [by apply rebuiltFrom_skip|lia].
Qed.

Lemma loadDecryptedNotes_rebuilt i l entries a b a' b' :
  NoDup (entries ++ l).*1 → id a = i →
  rebuiltFrom i (transactions a) entries a →
  forOf (loadDecryptedNote noteValue) l (a, b) = Ok (a', b') →
  transactions a' = transactions a
  ∧ nullifierToNoteHash a' = nullifierToNoteHash a
  ∧ accountsDb a' = accountsDb a
  ∧ rebuiltFrom i (transactions a) (entries ++ l) a'
  ∧ b' = b + sumZ ((λ entry, if decide (accountId entry.2 = i)
                             then unspentValue noteValue entry.2 else 0)
                     <$> l).
Proof.
  revert entries a b. induction l as [|[h note] l IH]; intros entries a b Hnd Hid Hre.
  - intros [= <- <-]. rewrite app_nil_r. unfold sumZ. simpl.
    split; [done|]. split; [done|]. split; [done|]. split; [done|lia].
  - rewrite forOf_cons. intros ([a1 b1] & Hstep & Hrest)%bind_Ok.
    assert (Hnew : h ∉ entries.*1).
    { rewrite fmap_app, fmap_cons in Hnd. apply NoDup_app in Hnd as (_ & Hdis & _).
      intros Hin. apply (Hdis h Hin). by left. }
    destruct (loadDecryptedNote_rebuilt i entries h note a b a1 b1 Hnew Hid Hre Hstep)
      as (Hid1 & Htx1 & Hnull1 & Hdb1 & Hre1 & Hb1).
    rewrite <- Htx1 in Hre1.
    destruct (IH (entries ++ [(h, note)]) a1 b1) as (Htx' & Hnull' & Hdb' & Hre' & Hb');
      [by rewrite <- app_assoc|done|done|exact Hrest|].
    rewrite <- app_assoc in Hre'. simpl in Hre'. rewrite Htx1 in Hre', Htx'.
    split; [done|]. split; [congruence|]. split; [congruence|]. split; [done|].
    rewrite Hb', Hb1, fmap_cons. unfold sumZ. simpl. lia.
Qed.

Lemma unspentTotal_filter (P : Buffer * DecryptedNoteValue → Prop)
    `{∀ x, Decision (P x)} (m : gmap Buffer DecryptedNoteValue) :
  unspentTotal noteValue (filter P m)
  = sumZ ((λ entry, if decide (P entry) then unspentValue noteValue entry.2 else 0)
            <$> map_to_list m).
Proof.
  assert (Hnd : NoDup (filter P (map_to_list m)).*1).
  { apply (sublist_NoDup _ (map_to_list m).*1);
      [apply NoDup_fst_map_to_list|apply fmap_sublist, sublist_filter]. }
  unfold unspentTotal. rewrite map_filter_alt.
  rewrite (sumZ_Permutation _ _
             (fmap_Permutation _ _ _
                (map_to_list_to_map (filter P (map_to_list m)) Hnd))).
  apply (sumZ_filter P (λ entry, unspentValue noteValue entry.2)).
Qed.

(** The tables and indices a completed [load] leaves. *)
Lemma load_rebuiltFrom i db a' :
  load noteValue (newAccount i db) = Ok a' →
  decryptedNotes a'
  = filter (λ entry, accountId entry.2 = i) (db_decryptedNotes db)
  ∧ nullifierToNoteHash a' = db_nullifierToNoteHash db
  ∧ transactions a' = db_transactions db
  ∧ balanced noteValue a'
  ∧ rebuiltFrom i (db_transactions db) (map_to_list (db_decryptedNotes db)) a'
  ∧ indexedStored a'.
Proof.
  unfold load, loadDecryptedNotesAndBalance.
  intros ([a1 b1] & Hloop & [= <-])%bind_Ok.
  eapply (loadDecryptedNotes_rebuilt i _ []) in Hloop
    as (Htx & Hnull & Hdb & Hre & Hb); [|apply NoDup_fst_map_to_list|done|].
  2:{ split; [|split; [|split]]; simpl.
      - intros h n. rewrite lookup_empty. split; [done|]. by intros [?%elem_of_nil _].
      - intros s h. unfold filedAt. simpl. split.
        + intros (hs & Hl & _). by rewrite lookup_empty in Hl.
        + intros (n & r & ?%elem_of_nil & _). done.
      - intros h. split; [by intros ?%elem_of_nil|].
        intros (n & r & ?%elem_of_nil & _). done.
      - intros s hs. by rewrite lookup_empty. }
  simpl in Htx, Hnull, Hdb, Hre, Hb.
  unfold AccountsDb.loadTransactions, AccountsDb.loadNullifierToNoteHash,
    AccountsDb.loadDecryptedNotes in *. simpl in *.
  rewrite !(right_id_L ∅ (∪)) in *.
  assert (Hnotes : decryptedNotes a1
                   = filter (λ entry, accountId entry.2 = i) (db_decryptedNotes db)).
  { apply map_eq. intros h. apply option_eq. intros n.
    destruct Hre as (Hnotes & _). rewrite Hnotes, map_lookup_filter_Some.
    by rewrite elem_of_map_to_list. }
  split; [done|]. split; [done|]. split; [done|]. split; [|split; [done|]].
  - unfold balanced, getUnconfirmedBalance, AccountsDb.getUnconfirmedBalance.
    simpl. rewrite Hnotes, Hb.
    rewrite (unspentTotal_filter (λ entry, accountId entry.2 = i)). lia.
  - intros h Hh. unfold filedAt in *. simpl in *.
    destruct Hre as (Hn & Hf & Hnon & _).
    destruct Hh as [Hin|[s Hs]].
    + apply Hnon in Hin as (n & r & H1 & H2 & _). exists n. by apply Hn.
    + apply Hf in Hs as (n & r & H1 & H2 & _). exists n. by apply Hn.
Qed.

(** What a completed [load] on a new account brings in from a store that
    may hold the notes of several accounts: exactly the stored notes that
    carry the id of the account, the whole stored Nullifier Index and
    transaction table, and a balance recomputed as the sum of the values of
    the unspent notes it kept.  The Sequence Index and the non-chain set it
    rebuilds list stored notes only, each bucket without repetition. *)
Theorem load_rebuilds i db a' :
  load noteValue (newAccount i db) = Ok a' →
  decryptedNotes a'
  = filter (λ entry, accountId entry.2 = i) (db_decryptedNotes db)
  ∧ nullifierToNoteHash a' = db_nullifierToNoteHash db
  ∧ transactions a' = db_transactions db
  ∧ balanced noteValue a'
  ∧ rebuiltFrom i (db_transactions db) (map_to_list (db_decryptedNotes db)) a'
  ∧ indexedStored a'.
Proof. exact (load_rebuiltFrom i db a'). Qed.

Lemma loadDecryptedNote_step i txs entry (s : Account * Z) :
  id s.1 = i → transactions s.1 = txs →
  (accountId entry.2 = i → indexable txs (transactionHash entry.2))
  ↔ (∃ s', loadDecryptedNote noteValue entry s = Ok s'
           ∧ id s'.1 = i ∧ transactions s'.1 = txs).
Proof.
  destruct entry as [h note], s as [a b]. cbn [fst snd]. intros Hid Htx.
  destruct (decide (accountId note = i)) as [Hown|Hother].
  - rewrite loadDecryptedNote_own by congruence. split.
    + intros Hix.
      destruct (saveDecryptedNoteSequence_is_Ok (transactionHash note) h
                  (with_decryptedNotes (<[h := note]>) a)) as [a1 Ha1].
      { simpl. rewrite Htx. by apply Hix. }
      rewrite Ha1, bind_Ok_l. eexists. split; [done|]. simpl.
      apply saveDecryptedNoteSequence_Ok in Ha1 as (_ & -> & _ & _ & -> & _).
      done.
    + intros (s' & (a1 & Ha1 & _)%bind_Ok & _) _.
      apply saveDecryptedNoteSequence_Ok in Ha1 as (Hix & _). simpl in Hix.
      by rewrite Htx in Hix.
  - unfold loadDecryptedNote. rewrite decide_False by congruence. split; [|done].
    intros _. by exists (a, b).
Qed.

Lemma loadDecryptedNotes_outcome i txs l (s : Account * Z) :
  id s.1 = i → transactions s.1 = txs →
  (∀ entry, entry ∈ l → accountId entry.2 = i →
            indexable txs (transactionHash entry.2))
  ↔ (∃ s', forOf (loadDecryptedNote noteValue) l s = Ok s').
Proof.
  revert s. induction l as [|entry l IH]; intros s Hid Htx.
  - split; [by exists s|]. by intros _ entry ?%elem_of_nil.
  - rewrite forOf_cons. split.
    + intros Hall.
      destruct (proj1 (loadDecryptedNote_step i txs entry s Hid Htx))
        as (s1 & -> & Hid1 & Htx1); [apply Hall; by left|].
      rewrite bind_Ok_l. apply (IH s1 Hid1 Htx1).
      intros e He. apply Hall. by right.
    + intros (s' & (s1 & Hstep & Hrest)%bind_Ok).
      assert (Hs1 : id s1.1 = i ∧ transactions s1.1 = txs).
      { destruct entry as [h note], s as [a b]. cbn [fst snd] in *.
        destruct (decide (accountId note = i)) as [Hown|Hother].
        - rewrite loadDecryptedNote_own in Hstep by congruence.
          apply bind_Ok in Hstep as (a1 & Ha1 & [= <-]). simpl.
          apply saveDecryptedNoteSequence_Ok in Ha1 as (_ & -> & _ & _ & -> & _).
          done.
        - unfold loadDecryptedNote in Hstep.
          rewrite decide_False in Hstep by congruence. by injection Hstep as <-. }
      destruct Hs1 as [Hid1 Htx1].
      intros e [->|He]%elem_of_cons.
      * apply (proj2 (loadDecryptedNote_step i txs entry s Hid Htx)).
        by exists s1.
      * apply (proj2 (IH s1 Hid1 Htx1)); [by exists s'|done].
Qed.

(** The condition under which [load] completes. *)
Lemma load_Ok_iff i db :
  (∃ a', load noteValue (newAccount i db) = Ok a')
  ↔ (∀ h note, db_decryptedNotes db !! h = Some note → accountId note = i →
               indexable (db_transactions db) (transactionHash note)).
Proof.
  unfold load, loadDecryptedNotesAndBalance.
  set (a0 := with_transactions _ _).
  assert (Htx : transactions a0 = db_transactions db).
  { subst a0. unfold AccountsDb.loadTransactions. simpl.
    by rewrite (right_id_L ∅ (∪)). }
  pose proof (loadDecryptedNotes_outcome i (db_transactions db)
                (AccountsDb.loadDecryptedNotes (accountsDb a0)) (a0, 0)
                eq_refl Htx) as Hiff.
  split.
  - intros (a' & (s & Hloop & _)%bind_Ok) h note Hnote Hown.
    apply (proj2 Hiff (ex_intro _ s Hloop) (h, note)); [|done].
    by apply elem_of_map_to_list.
  - intros Hall. destruct (proj1 Hiff) as [s ->]; [|by eexists].
    intros [h note] Hin Hown. apply elem_of_map_to_list in Hin.
    by apply (Hall h note).
Qed.


(** When [load] on a new account completes: exactly when every stored note
    that carries the id of the account belongs to a stored transaction that
    has a sequence whenever it has a block hash.  The notes of other
    accounts are not looked at. *)
Theorem load_completes_iff i db :
  (∃ a', load noteValue (newAccount i db) = Ok a')
  ↔ (∀ h note, db_decryptedNotes db !! h = Some note → accountId note = i →
               indexable (db_transactions db) (transactionHash note)).
Proof. exact (load_Ok_iff i db). Qed.

(** When no stored transaction has a sequence without a block hash, the
    indices a completed [load] rebuilds are consistent, and [getBalance] on
    the loaded account returns the confirmed balance as the specification
    words it. *)
Theorem load_getBalance i db a' start head :
  (∀ th record, db_transactions db !! th = Some record →
     is_Some (sequence record) → is_Some (blockHash record)) →
  load noteValue (newAccount i db) = Ok a' →
  indicesConsistent a'
  ∧ getBalance noteValue start head a'
    = Ok (getUnconfirmedBalance a', specConfirmedBalance noteValue start head a').
Proof.
  intros Hseq Hload.
  destruct (load_rebuiltFrom i db a' Hload)
    as (_ & _ & Htx & _ & (Hnotes & Hfiled & Hnon & Hnd) & Hix).
  assert (Hcons : indicesConsistent a').
  { split; [exact Hnd|]. split; [|intros h Hh; apply Hix; by left].
    intros s h. change (filedAt a' s h ↔ ∃ note, decryptedNotes a' !! h = Some note
                                          ∧ owningSequence a' note = Some s).
    rewrite Hfiled. unfold owningSequence. rewrite Htx. split.
    - intros (n & r & H1 & H2 & H3 & _ & H5). exists n.
      split; [by apply Hnotes|]. by rewrite H3.
    - intros (n & Hn & Hown). apply Hnotes in Hn as [H1 H2]. exists n.
      destruct (db_transactions db !! transactionHash n) as [r|] eqn:Hr; [|done].
      exists r. split; [done|]. split; [done|]. split; [done|].
      split; [|done]. eapply Hseq; [exact Hr|]. by rewrite Hown. }
  split; [exact Hcons|]. by apply getBalance_consistent.
Qed.
End Loading.

Lemma load_rebuilds_witness :
  let i := "account" in
  let db := sharedStore in
  let a' := accountLoaded in
  load firstByteValue (newAccount i db) = Ok a'
  ∧ decryptedNotes a'
    = filter (λ entry, accountId entry.2 = i) (db_decryptedNotes db)
  ∧ nullifierToNoteHash a' = db_nullifierToNoteHash db
  ∧ transactions a' = db_transactions db
  ∧ balanced firstByteValue a'
  ∧ rebuiltFrom i (db_transactions db) (map_to_list (db_decryptedNotes db)) a'
  ∧ indexedStored a'.
Proof.
  intros i db a'.
  assert (Hok : load firstByteValue (newAccount i db) = Ok a')
    by (apply after_Ok; vm_compute; reflexivity).
  split; [exact Hok|].
  exact (load_rebuilds firstByteValue i db a' Hok).
Defined.

Lemma load_getBalance_witness :
  let i := "account" in
  let db := sharedStore in
  let a' := accountLoaded in
  (∀ th record, db_transactions db !! th = Some record →
     is_Some (sequence record) → is_Some (blockHash record))
  ∧ load firstByteValue (newAccount i db) = Ok a'
  ∧ indicesConsistent a'
  ∧ getBalance firstByteValue 5 12 a'
    = Ok (getUnconfirmedBalance a', specConfirmedBalance firstByteValue 5 12 a').
Proof.
  intros i db a'.
  assert (Hseq : ∀ th record, db_transactions db !! th = Some record →
                   is_Some (sequence record) → is_Some (blockHash record)).
  { intros th record Hrec _. unfold db, sharedStore in Hrec. simpl in Hrec.
    apply lookup_singleton_Some in Hrec as [_ <-]. by eexists. }
  assert (Hok : load firstByteValue (newAccount i db) = Ok a')
    by (apply after_Ok; vm_compute; reflexivity).
  split; [exact Hseq|]. split; [exact Hok|].
  exact (load_getBalance firstByteValue i db a' 5 12 Hseq Hok).
Defined.

(** ** Writing through to the store *)

Section WriteThrough.
Variable noteValue : Buffer → Z.

Lemma updateDecryptedNote_mirrors h note a a' :
  updateDecryptedNote noteValue h note a = Ok a' →
  storeMirrors a → storeMirrors a'.
Proof.
  unfold updateDecryptedNote. intros (a1 & Hseq & [= <-])%bind_Ok (Hn & Hk & Ht).
  apply saveDecryptedNoteSequence_Ok in Hseq as (_ & _ & Hn1 & Hk1 & Ht1 & Hdb1).
  unfold storeMirrors. simpl. rewrite Hn1, Hk1, Ht1, Hdb1.
  repeat case_match; simpl; rewrite Hn, Hk, Ht; done.
Qed.

Lemma updateDecryptedNote_ownNotes h note a a' :
  updateDecryptedNote noteValue h note a = Ok a' →
  accountId note = id a →
  ownNotes a → ownNotes a'.
Proof.
  intros (_ & Hid & _ & _ & Hnotes & _)%updateDecryptedNote_Ok Hown Hall h' n'.
  rewrite Hnotes, Hid. destruct (decide (h = h')) as [->|Hne].
  - rewrite lookup_insert_eq. by intros [= <-].
  - rewrite lookup_insert_ne by done. apply Hall.
Qed.

Lemma bulkUpdateDecryptedNote_mirrors th d a a' :
  bulkUpdateDecryptedNote noteValue th d a = Ok a' →
  storeMirrors a ∧ ownNotes a → storeMirrors a' ∧ ownNotes a'.
Proof.
  intros Hstep [Hm Hown]. destruct (dn_forSpender d) eqn:Hd.
  { rewrite bulkUpdateDecryptedNote_forSpender in Hstep by done.
    by injection Hstep as <-. }
  rewrite bulkUpdateDecryptedNote_received in Hstep by done. split.
  - eapply updateDecryptedNote_mirrors; [exact Hstep|].
    destruct (dn_nullifier d) as [k|]; [|done].
    destruct Hm as (Hn & Hk & Ht). unfold storeMirrors. simpl.
    by rewrite Hn, Hk, Ht.
  - eapply updateDecryptedNote_ownNotes; [exact Hstep| |].
    + by destruct (dn_nullifier d).
    + by destruct (dn_nullifier d).
Qed.

Lemma processTransactionSpend_mirrors rem sp a a' :
  processTransactionSpend noteValue rem sp a = Ok a' →
  storeMirrors a ∧ ownNotes a → storeMirrors a' ∧ ownNotes a'.
Proof.
  unfold processTransactionSpend, getNoteHash, getDecryptedNote.
  intros Hstep [Hm Hown].
  destruct (nullifierToNoteHash a !! spend_nullifier sp) as [h|];
    [|by injection Hstep as <-].
  destruct (decryptedNotes a !! h) as [note|] eqn:Hnote; [|done]. split.
  - by eapply updateDecryptedNote_mirrors.
  - eapply updateDecryptedNote_ownNotes; [exact Hstep| |done].
    simpl. by eapply Hown.
Qed.

Lemma syncTransaction_mirrors T ds p a a' :
  syncTransaction noteValue T ds p a = Ok a' →
  storeMirrors a ∧ ownNotes a → storeMirrors a' ∧ ownNotes a'.
Proof.
  unfold syncTransaction. intros (a1 & Hbulk & Hspends)%bind_Ok [Hm Hown].
  assert (H0 : storeMirrors (upsertTransaction T p a)
               ∧ ownNotes (upsertTransaction T p a)).
  { unfold upsertTransaction. destruct (shouldUpdateTransaction a T p); [|done].
    split; [|done]. destruct Hm as (Hn & Hk & Ht). unfold storeMirrors. simpl.
    by rewrite Hn, Hk, Ht. }
  assert (H1 : storeMirrors a1 ∧ ownNotes a1).
  { eapply (forOf_invariant _ (λ s, storeMirrors s ∧ ownNotes s) ds);
      [|exact H0|exact Hbulk].
    intros d s s' _ Hs Hstep. by eapply bulkUpdateDecryptedNote_mirrors. }
  eapply (forOf_invariant _ (λ s, storeMirrors s ∧ ownNotes s) (spends T));
    [|exact H1|exact Hspends].
  intros sp s s' _ Hs Hstep. by eapply processTransactionSpend_mirrors.
Qed.

(** Every change a completed [syncTransaction] makes to the three tables is
    written to the store as well: if the stored tables were those of the
    account before the call, they are after it. *)
Theorem syncTransaction_writes_through T ds p a a' :
  syncTransaction noteValue T ds p a = Ok a' →
  storeMirrors a → storeMirrors a'.
Proof.
  unfold syncTransaction. intros (a1 & Hbulk & Hspends)%bind_Ok Hm.
  assert (H0 : storeMirrors (upsertTransaction T p a)).
  { unfold upsertTransaction. destruct (shouldUpdateTransaction a T p); [|done].
    destruct Hm as (Hn & Hk & Ht). unfold storeMirrors. simpl.
    by rewrite Hn, Hk, Ht. }
  assert (H1 : storeMirrors a1).
  { eapply (forOf_invariant _ storeMirrors ds); [|exact H0|exact Hbulk].
    intros d s s' _ Hs Hstep. destruct (dn_forSpender d) eqn:Hd.
    - rewrite bulkUpdateDecryptedNote_forSpender in Hstep by done.
      by injection Hstep as <-.
    - rewrite bulkUpdateDecryptedNote_received in Hstep by done.
      eapply updateDecryptedNote_mirrors; [exact Hstep|].
      destruct (dn_nullifier d) as [k|]; [|done].
      destruct Hs as (Hn & Hk & Ht). unfold storeMirrors. simpl.
      by rewrite Hn, Hk, Ht. }
  eapply (forOf_invariant _ storeMirrors (spends T)); [|exact H1|exact Hspends].
  intros sp s s' _ Hs. unfold processTransactionSpend, getNoteHash, getDecryptedNote.
  destruct (nullifierToNoteHash s !! spend_nullifier sp) as [h|];
    [|by intros [= <-]].
  destruct (decryptedNotes s !! h) as [note|]; [|done].
  intros Hstep. by eapply updateDecryptedNote_mirrors.
Qed.

Lemma deleteNullifier_mirrors k a :
  storeMirrors a → storeMirrors (deleteNullifier k a).
Proof.
  intros (Hn & Hk & Ht). unfold storeMirrors, deleteNullifier. simpl.
  by rewrite Hn, Hk, Ht.
Qed.

Lemma deleteTransactionNote_mirrors hash a x :
  storeMirrors a → storeMirrors (deleteTransactionNote noteValue hash a x).
Proof.
  intros (Hn & Hk & Ht). unfold deleteTransactionNote, getDecryptedNote.
  destruct (decryptedNotes a !! note_merkleHash x) as [note|]; [|done].
  assert (Hd : storeMirrors (deleteDecryptedNote noteValue (note_merkleHash x) hash a)).
  { unfold deleteDecryptedNote, storeMirrors. simpl.
    repeat case_match; simpl; rewrite ?Hn, ?Hk, ?Ht; done. }
  destruct (nullifierHash note) as [k|]; [|done].
  by apply deleteNullifier_mirrors.
Qed.

(** The same for a completed [deleteTransaction]: what it removes from the
    three tables it removes from the store. *)
Theorem deleteTransaction_writes_through hash T a a' :
  deleteTransaction noteValue hash T a = Ok a' →
  storeMirrors a → storeMirrors a'.
Proof.
  unfold deleteTransaction. intros (a2 & Hspends & [= <-])%bind_Ok Hm.
  assert (H1 : storeMirrors (foldl (deleteTransactionNote noteValue hash) a (notes T))).
  { clear Hspends. revert a Hm. induction (notes T) as [|x l IH]; intros a Hm;
      [done|]. simpl. by apply IH, deleteTransactionNote_mirrors. }
  assert (H2 : storeMirrors a2).
  { eapply (forOf_invariant _ storeMirrors (spends T)); [|exact H1|exact Hspends].
    intros sp s s' _ Hs. unfold deleteTransactionSpend, getNoteHash, getDecryptedNote.
    destruct (nullifierToNoteHash s !! spend_nullifier sp) as [h|];
      [|by intros [= <-]].
    destruct (decryptedNotes s !! h) as [note|]; [|done].
    intros Hstep. by eapply updateDecryptedNote_mirrors. }
  destruct H2 as (Hn & Hk & Ht). unfold storeMirrors. simpl.
  by rewrite Hn, Hk, Ht.
Qed.

(** Observations need no [save]: after any sequence of them on a new
    account over an empty store, in which the value of a note is a function
    of its hash, a new account loaded from the store as it then is has the
    same notes, the same Nullifier Index, the same transactions and the same
    unconfirmed balance. *)
Theorem syncAll_reload valueOf calls i db a' :
  storeMirrors (newAccount i db) →
  db_unconfirmedBalance db = 0 →
  (∀ call, call ∈ calls → deliveredValues noteValue valueOf call.1.2) →
  syncAll noteValue calls (newAccount i db) = Ok a' →
  ∃ a'', load noteValue (newAccount i (accountsDb a')) = Ok a''
    ∧ decryptedNotes a'' = decryptedNotes a'
    ∧ nullifierToNoteHash a'' = nullifierToNoteHash a'
    ∧ transactions a'' = transactions a'
    ∧ getUnconfirmedBalance a'' = getUnconfirmedBalance a'.
Proof.
  intros Hm0 Hzero Hcalls Hall.
  assert (Hinv : (storeMirrors a' ∧ ownNotes a')
                 ∧ ledgerSound a'
                 ∧ (balanced noteValue a' ∧ storedValues noteValue valueOf a')
                 ∧ id a' = i).
  { eapply (forOf_invariant _
              (λ s, (storeMirrors s ∧ ownNotes s) ∧ ledgerSound s
                    ∧ (balanced noteValue s ∧ storedValues noteValue valueOf s)
                    ∧ id s = i) calls); [| |exact Hall].
    - intros call s s' Hin (Hm & Hsound & [Hb Hv] & Hid) Hstep.
      split; [by eapply syncTransaction_mirrors|]. split; [|split].
      + destruct (syncTransaction_ledgerSound noteValue call.1.1 call.1.2 call.2 s
                    Hsound) as (s'' & Hs'' & Hsound'').
        rewrite Hs'' in Hstep. by injection Hstep as <-.
      + eapply syncTransaction_keeps_balanced; [exact Hstep|done|done|].
        by apply Hcalls.
      + unfold syncTransaction in Hstep. apply bind_Ok in Hstep as (s1 & H1 & H2).
        apply processTransactionSpends_noteStep in H2 as [(-> & _) _].
        apply bulkUpdateDecryptedNotes_noteStep in H1 as (-> & _).
        unfold upsertTransaction.
        by destruct (shouldUpdateTransaction s call.1.1 call.2).
    - split; [split; [done|by intros h n; simpl; rewrite lookup_empty]|].
      split; [apply newAccount_ledgerSound|]. split; [|done].
      split; [|intros h n; simpl; by rewrite lookup_empty].
      unfold balanced, getUnconfirmedBalance, AccountsDb.getUnconfirmedBalance.
      simpl. by rewrite Hzero. }
  destruct Hinv as ([(Hn & Hk & Ht) Hown] & Hsound & [Hb _] & Hid).
  destruct (proj2 (load_Ok_iff noteValue i (accountsDb a'))) as [a'' Hload].
  { intros h note Hnote _. rewrite Hn in Hnote. rewrite Ht.
    by eapply ledgerSound_indexable. }
  exists a''. split; [done|].
  destruct (load_rebuiltFrom noteValue i (accountsDb a') a'' Hload)
    as (Hnotes & Hnull & Htx & Hb'' & _).
  assert (Hsame : decryptedNotes a'' = decryptedNotes a').
  { rewrite Hnotes, Hn. apply map_filter_id. intros h note Hnote. simpl.
    rewrite <- Hid. by eapply Hown. }
  split; [done|]. split; [congruence|]. split; [congruence|].
  unfold balanced in *. by rewrite Hb'', Hsame, Hb.
Qed.
End WriteThrough.

Lemma syncTransaction_writes_through_witness :
  syncTransaction firstByteValue receiveTx [receivedNote] (ParamsMined blockA 10)
    account0 = Ok account1
  ∧ storeMirrors account0
  ∧ storeMirrors account1.
Proof.
  assert (Hok : syncTransaction firstByteValue receiveTx [receivedNote]
                  (ParamsMined blockA 10) account0 = Ok account1)
    by (apply after_Ok; vm_compute; reflexivity).
  assert (Hm : storeMirrors account0) by (repeat split).
  split; [exact Hok|]. split; [exact Hm|].
  exact (syncTransaction_writes_through firstByteValue receiveTx [receivedNote]
           (ParamsMined blockA 10) account0 account1 Hok Hm).
Defined.

Lemma deleteTransaction_writes_through_witness :
  let hash := unsignedHash receiveTx in
  let a' := after accountHolding
              (deleteTransaction firstByteValue hash receiveTx accountHolding) in
  deleteTransaction firstByteValue hash receiveTx accountHolding = Ok a'
  ∧ storeMirrors accountHolding
  ∧ storeMirrors a'.
Proof.
  intros hash a'.
  assert (Hok : deleteTransaction firstByteValue hash receiveTx accountHolding
                = Ok a')
    by (apply after_Ok; vm_compute; reflexivity).
  assert (Hm : storeMirrors accountHolding) by (repeat split).
  split; [exact Hok|]. split; [exact Hm|].
  exact (deleteTransaction_writes_through firstByteValue hash receiveTx
           accountHolding a' Hok Hm).
Defined.

Lemma syncAll_reload_witness :
  let calls := [ (receiveTx, [receivedNote], ParamsMined blockA 10);
                 (spendTx, [], ParamsMined blockB 11) ] in
  let a' := after account0 (syncAll firstByteValue calls account0) in
  storeMirrors (newAccount "account" AccountsDb.empty)
  ∧ db_unconfirmedBalance AccountsDb.empty = 0
  ∧ (∀ call, call ∈ calls →
       deliveredValues firstByteValue (λ _, 5) call.1.2)
  ∧ syncAll firstByteValue calls (newAccount "account" AccountsDb.empty) = Ok a'
  ∧ ∃ a'', load firstByteValue (newAccount "account" (accountsDb a')) = Ok a''
      ∧ decryptedNotes a'' = decryptedNotes a'
      ∧ nullifierToNoteHash a'' = nullifierToNoteHash a'
      ∧ transactions a'' = transactions a'
      ∧ getUnconfirmedBalance a'' = getUnconfirmedBalance a'.
Proof.
  intros calls a'.
  assert (Hm : storeMirrors (newAccount "account" AccountsDb.empty))
    by (repeat split).
  assert (Hcalls : ∀ call, call ∈ calls →
                     deliveredValues firstByteValue (λ _, 5) call.1.2).
  { intros call Hin d Hd _.
    apply elem_of_cons in Hin as [->|Hin].
    - apply list_elem_of_singleton in Hd as ->. reflexivity.
    - apply list_elem_of_singleton in Hin as ->. by apply elem_of_nil in Hd. }
  assert (Hok : syncAll firstByteValue calls (newAccount "account" AccountsDb.empty)
                = Ok a')
    by (apply after_Ok; vm_compute; reflexivity).
  split; [exact Hm|]. split; [reflexivity|]. split; [exact Hcalls|].
  split; [exact Hok|].
  exact (syncAll_reload firstByteValue (λ _, 5) calls "account"
           AccountsDb.empty a' Hm eq_refl Hcalls Hok).
Defined.

(** ** The range of the export command *)

(** Whatever the arguments, the export walks a range that is not empty and
    ends at or before the latest block; it starts at or after the genesis
    block when there is one ([min ≤ max]); arguments within the chain are
    taken as they are; and the loop steps the progress bar once more than
    the total the bar was started with. *)
Theorem export_range min max argStart argStop :
  exportStart min max argStart
  ≤ exportStop max (exportStart min max argStart) argStop ≤ max
  ∧ (min ≤ max → min ≤ exportStart min max argStart)
  ∧ (∀ s, min ≤ s ≤ max → s ≠ 0 → exportStart min max (Some s) = s)
  ∧ (∀ start s, start ≤ s ≤ max → s ≠ 0 → exportStop max start (Some s) = s)
  ∧ (∀ start stop i, i ∈ exportSequences start stop ↔ start ≤ i ≤ stop)
  ∧ Z.of_nat (length (exportSequences (exportStart min max argStart)
                        (exportStop max (exportStart min max argStart) argStop)))
    = progressTotal (exportStart min max argStart)
        (exportStop max (exportStart min max argStart) argStop) + 1.
Proof.
  assert (Hrange : exportStart min max argStart
                   ≤ exportStop max (exportStart min max argStart) argStop ≤ max).
  { unfold exportStart, exportStop. lia. }
  split; [exact Hrange|]. split; [|split; [|split; [|split]]].
  - intros Hmin. unfold exportStart. lia.
  - intros s Hs Hnz. unfold exportStart, argOr.
    rewrite decide_False by done. lia.
  - intros start s Hs Hnz. unfold exportStop, argOr.
    rewrite decide_False by done. lia.
  - intros start stop i. unfold exportSequences. rewrite elem_of_seqZ. lia.
  - unfold exportSequences, progressTotal. rewrite length_seqZ. lia.
Qed.

(** ** What stays in the Sequence Index *)

Section SequenceIndex.
Variable noteValue : Buffer → Z.

Lemma updateDecryptedNote_keeps_filed h note a a' s h0 :
  updateDecryptedNote noteValue h note a = Ok a' →
  filedAt a s h0 → filedAt a' s h0.
Proof.
  intros Hok Hf.
  destruct (updateDecryptedNote_index _ _ _ _ _ Hok) as (record & _ & Hix).
  destruct (blockHash record), (sequence record);
    try (destruct Hix as (_ & Hb & _); unfold filedAt in *; by rewrite Hb).
  destruct Hix as (_ & _ & Hkeep & _). by apply Hkeep.
Qed.

(** A completed [syncTransaction] never takes a hash out of a bucket of the
    Sequence Index: a note whose transaction is observed again at another
    sequence, or off the chain, stays listed under the sequence it was
    filed at. *)
Theorem syncTransaction_never_unfiles T ds p a a' :
  syncTransaction noteValue T ds p a = Ok a' →
  ∀ s h, filedAt a s h → filedAt a' s h.
Proof.
  unfold syncTransaction. intros (a1 & Hbulk & Hspends)%bind_Ok s h Hf.
  assert (H0 : filedAt (upsertTransaction T p a) s h).
  { unfold upsertTransaction. by destruct (shouldUpdateTransaction a T p). }
  assert (H1 : filedAt a1 s h).
  { eapply (forOf_invariant _ (λ t, filedAt t s h) ds); [|exact H0|exact Hbulk].
    intros d t t' _ Ht Hstep. destruct (dn_forSpender d) eqn:Hd.
    - rewrite bulkUpdateDecryptedNote_forSpender in Hstep by done.
      by injection Hstep as <-.
    - rewrite bulkUpdateDecryptedNote_received in Hstep by done.
      eapply updateDecryptedNote_keeps_filed; [exact Hstep|].
      by destruct (dn_nullifier d). }
  eapply (forOf_invariant _ (λ t, filedAt t s h) (spends T));
    [|exact H1|exact Hspends].
  intros sp t t' _ Ht. unfold processTransactionSpend, getNoteHash, getDecryptedNote.
  destruct (nullifierToNoteHash t !! spend_nullifier sp) as [h'|];
    [|by intros [= <-]].
  destruct (decryptedNotes t !! h') as [note|]; [|done].
  intros Hstep. by eapply updateDecryptedNote_keeps_filed.
Qed.

Lemma deleteDecryptedNote_index h hash a :
  let a1 := deleteDecryptedNote noteValue h hash a in
  (∀ h', h' ∈ nonChainNoteHashes a1 ↔ (h' ≠ h ∧ h' ∈ nonChainNoteHashes a))
  ∧ (∀ s h', filedAt a1 s h' → filedAt a s h')
  ∧ (∀ s record, transactions a !! hash = Some record →
       sequence record = Some s → s ≠ 0 → ¬ filedAt a1 s h).
Proof.
  unfold deleteDecryptedNote.
  set (a0 := match decryptedNotes a !! h with Some _ => _ | None => a end).
  assert (H0 : transactions a0 = transactions a
               ∧ noteHashesBySequence a0 = noteHashesBySequence a
               ∧ nonChainNoteHashes a0 = nonChainNoteHashes a).
  { subst a0. by repeat case_match. }
  destruct H0 as (Htx & Hb & Hn). cbv zeta. rewrite Htx.
  unfold filedAt. simpl. split; [|split].
  - intros h'. rewrite <- Hn. repeat case_match; apply BufferSet_elem_of_delete.
  - intros s h'. rewrite <- Hb.
    destruct (transactions a !! hash) as [r|]; [|done].
    destruct (sequence r) as [s0|]; [|done].
    destruct (decide (s0 = 0)); [done|].
    destruct (noteHashesBySequence a0 !! s0) as [hs0|] eqn:Hs0; [|done]. simpl.
    intros (hs & Hl & Hin). destruct (decide (s0 = s)) as [->|Hne].
    + rewrite lookup_insert_eq in Hl. injection Hl as <-.
      apply BufferSet_elem_of_delete in Hin as [_ Hin]. by exists hs0.
    + rewrite lookup_insert_ne in Hl by done. by exists hs.
  - intros s record -> -> Hnz. rewrite decide_False by done.
    destruct (noteHashesBySequence a0 !! s) as [hs0|] eqn:Hs0; simpl.
    + rewrite lookup_insert_eq. intros (hs & [= <-] & Hin).
      by apply BufferSet_elem_of_delete in Hin as [? _].
    + rewrite Hs0. by intros (hs & ? & _).
Qed.

Lemma deleteTransactionNote_index hash a x :
  let a1 := deleteTransactionNote noteValue hash a x in
  (∀ h', h' ∈ nonChainNoteHashes a1 → h' ∈ nonChainNoteHashes a)
  ∧ (∀ s h', filedAt a1 s h' → filedAt a s h')
  ∧ (is_Some (decryptedNotes a !! note_merkleHash x) →
     (note_merkleHash x ∉ nonChainNoteHashes a1)
     ∧ ∀ s record, transactions a !! hash = Some record →
         sequence record = Some s → s ≠ 0 →
         ¬ filedAt a1 s (note_merkleHash x)).
Proof.
  unfold deleteTransactionNote, getDecryptedNote.
  destruct (decryptedNotes a !! note_merkleHash x) as [note|] eqn:Hnote; cbv zeta.
  - destruct (deleteDecryptedNote_index (note_merkleHash x) hash a)
      as (Hn & Hf & Hgone).
    assert (Hsame : ∀ k b, nonChainNoteHashes (deleteNullifier k b)
                           = nonChainNoteHashes b
                           ∧ ∀ s h', filedAt (deleteNullifier k b) s h'
                                     = filedAt b s h') by done.
    destruct (nullifierHash note) as [k|].
    + destruct (Hsame k (deleteDecryptedNote noteValue (note_merkleHash x) hash a))
        as [-> Hfk].
      split; [intros h' Hh; by apply Hn in Hh as [_ ?]|].
      split; [intros s h'; rewrite Hfk; apply Hf|].
      intros _. split; [intros Hin; by apply Hn in Hin as [? _]|].
      intros s record Hrec Hs Hnz. rewrite Hfk. by eapply Hgone.
    + split; [intros h' Hh; by apply Hn in Hh as [_ ?]|].
      split; [exact Hf|].
      intros _. split; [intros Hin; by apply Hn in Hin as [? _]|exact Hgone].
  - split; [done|]. split; [done|]. by intros [? ?].
Qed.

(** When [deleteTransaction] leaves the indices within the stored notes.  If
    every hash listed in a bucket or in the non-chain set is stored, and
    every bucket that lists an output of the transaction is the bucket of
    the sequence of the record stored under [hash], that sequence not being
    0, then the same holds of the hashes after a completed
    [deleteTransaction], and [getBalance] returns for every pair of
    sequences. *)
Theorem deleteTransaction_indexedStored hash T a a' :
  deleteTransaction noteValue hash T a = Ok a' →
  indexedStored a →
  (∀ h s, h ∈ note_merkleHash <$> notes T → filedAt a s h →
     ∃ record, transactions a !! hash = Some record
       ∧ sequence record = Some s ∧ s ≠ 0) →
  indexedStored a'
  ∧ ∀ start head, ∃ confirmed,
      getBalance noteValue start head a'
      = Ok (getUnconfirmedBalance a', confirmed).
Proof.
  unfold deleteTransaction. intros (a2 & Hspends & [= <-])%bind_Ok Hix Hfiled.
  assert (H1 : indexedStored (foldl (deleteTransactionNote noteValue hash) a (notes T))).
  { clear Hspends. revert a Hix Hfiled.
    induction (notes T) as [|x l IH]; intros a Hix Hfiled; [done|].
    simpl. destruct (deleteTransactionNote_index hash a x) as (Hn & Hf & Hgone).
    destruct (deleteTransactionNote_spec noteValue hash a x)
      as (Htx & Hnotes & _).
    apply IH.
    - intros h' Hh'. rewrite Hnotes.
      destruct (decide (h' = note_merkleHash x)) as [->|Hne].
      + destruct (decryptedNotes a !! note_merkleHash x) as [note|] eqn:Hnote.
        * destruct Hgone as [Hnon Hbucket]; [by eexists|]. exfalso.
          destruct Hh' as [Hin|[s Hs]]; [done|].
          destruct (Hfiled (note_merkleHash x) s) as (r & Hr & Hseq & Hnz);
            [rewrite fmap_cons; by left|by apply Hf|].
          by eapply Hbucket.
        * exfalso. assert (is_Some (decryptedNotes a !! note_merkleHash x)) as [? ?];
            [|congruence].
          apply Hix. destruct Hh' as [Hin|[s Hs]]; [left; by apply Hn|].
          right. exists s. by apply Hf.
      + rewrite lookup_delete_ne by done. apply Hix.
        destruct Hh' as [Hin|[s Hs]]; [left; by apply Hn|].
        right. exists s. by apply Hf.
    - intros h s Hin Hs. rewrite Htx. apply (Hfiled h s); [|by apply Hf].
      rewrite fmap_cons. by right. }
  assert (H2 : indexedStored a2).
  { eapply (forOf_invariant _ indexedStored (spends T)); [|exact H1|exact Hspends].
    intros sp s s' _ Hs. unfold deleteTransactionSpend, getNoteHash, getDecryptedNote.
    destruct (nullifierToNoteHash s !! spend_nullifier sp) as [h|];
      [|by intros [= <-]].
    destruct (decryptedNotes s !! h) as [note|]; [|done].
    intros Hstep. by eapply updateDecryptedNote_indexedStored. }
  assert (H3 : indexedStored
                 (with_accountsDb (AccountsDb.deleteTransaction hash)
                    (with_transactions (delete hash) a2))) by exact H2.
  split; [exact H3|]. intros start head.
  destruct (getBalance_cases noteValue start head
              (with_accountsDb (AccountsDb.deleteTransaction hash)
                 (with_transactions (delete hash) a2)))
    as [[(h & Hscan & Hnone) _]|[_ Hok]]; [|done].
  destruct (H3 h) as [note Hnote]; [|congruence].
  destruct Hscan as [(s & _ & Hf)|Hin]; [right; by exists s|by left].
Qed.
End SequenceIndex.

Lemma syncTransaction_never_unfiles_witness :
  syncTransaction firstByteValue receiveTx [receivedNoteOffChain] ParamsNone
    account1 = Ok accountReorged
  ∧ ∀ s h, filedAt account1 s h → filedAt accountReorged s h.
Proof.
  assert (Hok : syncTransaction firstByteValue receiveTx [receivedNoteOffChain]
                  ParamsNone account1 = Ok accountReorged)
    by (apply after_Ok; vm_compute; reflexivity).
  split; [exact Hok|].
  exact (syncTransaction_never_unfiles firstByteValue receiveTx
           [receivedNoteOffChain] ParamsNone account1 accountReorged Hok).
Defined.

Lemma deleteTransaction_indexedStored_witness :
  let hash := unsignedHash receiveTx in
  let a' := after accountHolding
              (deleteTransaction firstByteValue hash receiveTx accountHolding) in
  deleteTransaction firstByteValue hash receiveTx accountHolding = Ok a'
  ∧ indexedStored accountHolding
  ∧ (∀ h s, h ∈ note_merkleHash <$> notes receiveTx →
       filedAt accountHolding s h →
       ∃ record, transactions accountHolding !! hash = Some record
         ∧ sequence record = Some s ∧ s ≠ 0)
  ∧ indexedStored a'
  ∧ ∀ start head, ∃ confirmed,
      getBalance firstByteValue start head a'
      = Ok (getUnconfirmedBalance a', confirmed).
Proof.
  intros hash a'.
  assert (Hok : deleteTransaction firstByteValue hash receiveTx accountHolding
                = Ok a')
    by (apply after_Ok; vm_compute; reflexivity).
  assert (Hbucket : ∀ s h, filedAt accountHolding s h → s = 10 ∧ h = noteHash).
  { intros s h (hs & Hl & Hin). unfold accountHolding in Hl. simpl in Hl.
    apply lookup_singleton_Some in Hl as [<- <-].
    by apply list_elem_of_singleton in Hin. }
  assert (Hix : indexedStored accountHolding).
  { intros h [Hin|[s Hs]]; [by apply elem_of_nil in Hin|].
    apply Hbucket in Hs as [_ ->]. unfold accountHolding. simpl.
    rewrite lookup_singleton_eq. by eexists. }
  assert (Hfiled : ∀ h s, h ∈ note_merkleHash <$> notes receiveTx →
            filedAt accountHolding s h →
            ∃ record, transactions accountHolding !! hash = Some record
              ∧ sequence record = Some s ∧ s ≠ 0).
  { intros h s _ Hs. apply Hbucket in Hs as [-> _]. eexists.
    unfold accountHolding, hash. simpl. rewrite lookup_singleton_eq.
    split; [done|]. split; [done|lia]. }
  split; [exact Hok|]. split; [exact Hix|]. split; [exact Hfiled|].
  exact (deleteTransaction_indexedStored firstByteValue hash receiveTx
           accountHolding a' Hok Hix Hfiled).
Defined.

(** * Deleting after a reorganisation *)

(** Claim C7, evaluated where the code departs from it.  The account that
    saw [receiveTx] mined at sequence 10 and then off the chain holds exactly
    one note, unspent, of value 5, produced by [receiveTx]; the second
    observation stored it with a null nullifier and left the entry of its
    nullifier in the Nullifier Index.  [deleteTransaction] on [receiveTx]
    completes, removes the note and the record and takes 5 off the balance,
    and leaves the nullifier entry, which now points at no note: a later
    observation of the transaction that spends the note throws the
    assertion on it. *)
Theorem deleteTransaction_leaves_nullifier :
  syncTransaction firstByteValue receiveTx [receivedNote] (ParamsMined blockA 10)
    account0 = Ok account1
  ∧ syncTransaction firstByteValue receiveTx [receivedNoteOffChain] ParamsNone
      account1 = Ok accountReorged
  ∧ map_to_list (decryptedNotes accountReorged)
    = [ (noteHash,
         {| accountId := "account"; nullifierHash := None; noteIndex := None;
            serializedNote := notePayload; spent := false;
            transactionHash := unsignedHash receiveTx |}) ]
  ∧ firstByteValue notePayload = 5
  ∧ getUnconfirmedBalance accountReorged = 5
  ∧ nullifierToNoteHash accountReorged !! noteNullifier = Some noteHash
  ∧ deleteTransaction firstByteValue (unsignedHash receiveTx) receiveTx
      accountReorged = Ok accountReorgedForgotten
  ∧ decryptedNotes accountReorgedForgotten !! noteHash = None
  ∧ transactions accountReorgedForgotten !! unsignedHash receiveTx = None
  ∧ getUnconfirmedBalance accountReorgedForgotten = 0
  ∧ nullifierToNoteHash accountReorgedForgotten !! noteNullifier = Some noteHash
  ∧ syncTransaction firstByteValue spendTx [] (ParamsMined blockB 11)
      accountReorgedForgotten
    = Throw NullifierWithoutDecryptedNote.
Proof.
  split; [apply after_Ok; vm_compute; reflexivity|].
  split; [apply after_Ok; vm_compute; reflexivity|].
  do 4 (split; [vm_compute; reflexivity|]).
  split; [apply after_Ok; vm_compute; reflexivity|].
  repeat split; vm_compute; reflexivity.
Qed.

(** * The spends of a call and the balance *)

Section SpendsBalance.
Variable noteValue : Buffer → Z.

(** ** The balance moves with the sum of the unspent values *)





(** ** The notes a call leaves *)



Lemma with_spent_idemp f note : with_spent f (with_spent f note) = with_spent f note.
Proof. done. Qed.


(** ** Sums over the keys of the note table *)





(** ** The claim *)

End SpendsBalance.


(** * Deleting without a dangling entry *)

Section DeletingResolves.
Variable noteValue : Buffer → Z.

(** [deleteTransaction] cannot throw the assertion on the spends when every
    entry of the Nullifier Index points at a stored note as the call starts
    and every entry that points at an output of the transaction is under a
    nullifier recorded on a stored output: those entries go with the
    notes. *)
Lemma deleteTransaction_recorded_nullifiers hash T a :
  nullifiersResolve a →
  (∀ k h, nullifierToNoteHash a !! k = Some h →
     h ∈ note_merkleHash <$> notes T →
     ∃ h' note, h' ∈ note_merkleHash <$> notes T
       ∧ decryptedNotes a !! h' = Some note ∧ nullifierHash note = Some k) →
  deleteTransaction noteValue hash T a ≠ Throw NullifierWithoutDecryptedNote.
Proof.
  intros Hres Hrecorded. apply deleteTransaction_resolving.
  destruct (deleteTransactionNotes_spec noteValue hash (notes T) a)
    as (_ & Hnotes & Hsub & Hgone).
  intros k h Hk. pose proof (Hsub k h Hk) as Hk0. rewrite Hnotes.
  destruct (decide (h ∈ note_merkleHash <$> notes T)) as [Hin|Hout];
    [|by eapply Hres].
  destruct (Hrecorded k h Hk0 Hin) as (h' & note & Hin' & Hnote & Hrec).
  by rewrite (Hgone h' note k Hin' Hnote Hrec) in Hk.
Qed.
End DeletingResolves.
